(** * pykoopman: the neural-network DMD regressor ([regression/_nndmd.py])

    A shallow embedding of the parts of [_nndmd.py] that the specification
    talks about, and the properties of the specification checked on it.

    Conventions.
    - Python exceptions are values of [exn]; a call that may raise returns
      a [result].
    - A 2-D array is the list of its rows; a batch of padded sequences
      (shape batch x horizon x features) is a list of lists of rows.
    - Tensor entries are exact numbers: rationals ([Q]) where the code only
      adds, multiplies, divides and compares, reals ([R]) where the
      property is about spectra or the matrix exponential.  Rounding of
      float32 arithmetic is outside the model. *)

From Stdlib Require Import String Ascii.
From Stdlib Require Import Reals Lra.
From Stdlib Require Import QArith Qminmax.
From Stdlib Require Import Bool Arith ZArith Lia List.
Import ListNotations.

Close Scope R_scope.
Close Scope Q_scope.
Open Scope nat_scope.

Set Implicit Arguments.

(* ------------------------------------------------------------------ *)
(** ** Exceptions and results *)

Inductive exn : Type :=
| IndexError
| TypeError
| ValueError
| KeyError
| AttributeError
| NotFittedError   (* sklearn.exceptions.NotFittedError *)
| RuntimeError.

Inductive result (A : Type) : Type :=
| Ok (a : A)
| Raise (e : exn).

Arguments Ok {A} a.
Arguments Raise {A} e.

Definition bind {A B : Type} (r : result A) (k : A -> result B) : result B :=
  match r with
  | Ok a => k a
  | Raise e => Raise e
  end.

Notation "x <- r ;; k" := (bind r (fun x => k))
  (at level 61, r at next level, right associativity).

(** [range(z)] for a Python integer [z]: empty when [z <= 0]. *)
Definition range (z : Z) : list nat := seq 0 (Z.to_nat z).

(** [s[lo:hi]] for non-negative bounds: the bounds are clamped to the
    length of [s], as Python and numpy slicing do. *)
Definition slice {A : Type} (s : list A) (lo hi : nat) : list A :=
  firstn (hi - lo) (skipn lo s).

(** [s[i]] for a non-negative index. *)
Definition getitem {A : Type} (s : list A) (i : nat) : result A :=
  match nth_error s i with
  | Some a => Ok a
  | None => Raise IndexError
  end.

(* ------------------------------------------------------------------ *)
(** ** FFNN: the feed-forward network (lines 77-146) *)

Module FFNN.

Local Open Scope string_scope.
Local Open Scope list_scope.

(** The modules that [__init__] appends to [self.layers]. *)
Inductive module : Type :=
| Linear (in_features out_features : nat) (bias : bool)
| ReLU | Sigmoid | Tanh | SiLU | ELU | Mish | Identity.

(** [activations_dict[activations]]; an unknown key raises [KeyError]. *)
Definition activations_dict (activations : string) : result module :=
  if activations =? "relu" then Ok ReLU
  else if activations =? "sigmoid" then Ok Sigmoid
  else if activations =? "tanh" then Ok Tanh
  else if activations =? "swish" then Ok SiLU
  else if activations =? "elu" then Ok ELU
  else if activations =? "mish" then Ok Mish
  else if activations =? "linear" then Ok Identity
  else Raise KeyError.

(** The body of the loop [for i in range(1, len(hidden_sizes))]. *)
Definition hidden_step (hidden_sizes : list nat) (activations : string)
    (act : module) (bias : bool) (layers : list module) (i : nat)
  : list module :=
  let layers :=
    layers ++ [Linear (nth (i - 1) hidden_sizes 0) (nth i hidden_sizes 0) bias] in
  if negb (activations =? "linear") then layers ++ [act] else layers.

(** [FFNN.__init__]: the list [self.layers] it builds. *)
Definition init (input_size : nat) (hidden_sizes : list nat)
    (output_size : nat) (activations : string) : result (list module) :=
  act <- activations_dict activations ;;
  let layers := [] in
  let bias := if activations =? "linear" then false else true in
  if (length hidden_sizes =? 0)%nat then
    Ok (layers ++ [Linear input_size output_size bias])
  else
    let layers := layers ++ [Linear input_size (nth 0 hidden_sizes 0) bias] in
    let layers :=
      if negb (activations =? "linear") then layers ++ [act] else layers in
    let layers :=
      fold_left (hidden_step hidden_sizes activations act bias)
                (seq 1 (length hidden_sizes - 1)) layers in
    let bias_last := false in
    Ok (layers ++ [Linear (last hidden_sizes 0) output_size bias_last]).

(** Whether a module carries a bias term. *)
Definition has_bias (m : module) : bool :=
  match m with
  | Linear _ _ b => b
  | _ => false
  end.

Definition no_bias (m : module) : Prop := has_bias m = false.

Definition is_linear (m : module) : bool :=
  match m with
  | Linear _ _ _ => true
  | _ => false
  end.

(** The last [nn.Linear] of a layer list, if there is one. *)
Definition last_linear (layers : list module) : option module :=
  find is_linear (rev layers).

End FFNN.

(* ------------------------------------------------------------------ *)
(** ** NNDMD.fit: dispatch of the input shapes (lines 756-818) *)

Module Fit.

Section Dispatch.

(** A state vector (one row of a 2-D array). *)
Variable row : Type.

(** The Python values [fit] distinguishes for [x] and [y]. *)
Inductive arg : Type :=
| PyNone
| NDArray2 (rows : list row)            (* np.ndarray with ndim == 2 *)
| NDArrayOther                          (* np.ndarray with ndim <> 2 *)
| PyList (trajs : list (list row))      (* list of trajectories *)
| PyOther.

(** What [fit] hands to [SeqDataModule], and [n_samples_]. *)
Record data_module_args : Type := {
  data_tr : list (list row);
  data_val : option (list (list row));
  n_samples_ : nat
}.

(** [np.stack((a, b), 0)]: the two-state trajectory [a, b], for two rows
    of one shape; [np.stack] raises [ValueError] on rows of different
    shapes, which the abstract [row] leaves out. *)
Definition stack2 (a b : row) : list row := [a; b].

(** [[np.stack((t0[i], t1[i]), 0) for i in range(n)]]; indexing past the
    end of [t0] or [t1] raises [IndexError]. *)
Fixpoint stack_pairs (t0 t1 : list row) (idx : list nat)
  : result (list (list row)) :=
  match idx with
  | [] => Ok []
  | i :: idx' =>
      a <- getitem t0 i ;;
      b <- getitem t1 i ;;
      rest <- stack_pairs t0 t1 idx' ;;
      Ok (stack2 a b :: rest)
  end.

Definition fit_dispatch (x y : arg) : result data_module_args :=
  match x, y with
  | NDArray2 xr, PyNone =>
      (* a single trajectory *)
      let t0 := slice xr 0 (length xr - 1) in
      let t1 := skipn 1 xr in
      list_of_traj <- stack_pairs t0 t1 (range (Z.of_nat (length xr) - 1)) ;;
      Ok {| data_tr := list_of_traj; data_val := None;
            n_samples_ := length list_of_traj |}
  | NDArray2 xr, NDArray2 yr =>
      (* paired states and next states *)
      let t0 := xr in
      let t1 := yr in
      list_of_traj <- stack_pairs t0 t1 (range (Z.of_nat (length xr) - 1)) ;;
      Ok {| data_tr := list_of_traj; data_val := None;
            n_samples_ := length list_of_traj |}
  | PyList xs, PyNone =>
      Ok {| data_tr := xs; data_val := None; n_samples_ := length xs |}
  | PyList xs, PyList ys =>
      Ok {| data_tr := xs; data_val := Some ys; n_samples_ := length xs |}
  | _, _ => Raise ValueError
  end.

End Dispatch.

End Fit.

(* ------------------------------------------------------------------ *)
(** ** NNDMD: the fitted attributes and their properties (lines 823-927) *)

Module NNDMD.

Local Open Scope string_scope.

(** What an instance attribute holds: a constructor argument, or a
    numpy array computed by [fit]. *)
Inductive value : Type :=
| Config
| Array (a : list (list Q)).

(** The instance dictionary of an [NNDMD] object. *)
Definition object : Type := list (string * value).

Fixpoint lookup (name : string) (o : object) : option value :=
  match o with
  | [] => None
  | (k, v) :: o' => if k =? name then Some v else lookup name o'
  end.

Definition hasattr (o : object) (name : string) : bool :=
  match lookup name o with
  | Some _ => true
  | None => false
  end.

(** [self.<name>]: a missing attribute raises [AttributeError]. *)
Definition getattr (o : object) (name : string) : result value :=
  match lookup name o with
  | Some v => Ok v
  | None => Raise AttributeError
  end.

(** [self.<name> = v]. *)
Definition setattr (o : object) (name : string) (v : value) : object :=
  (name, v) :: o.

(** [sklearn.utils.validation.check_is_fitted(self, attribute)]: raises
    [NotFittedError] when the estimator has no such attribute. *)
Definition check_is_fitted (o : object) (attribute : string) : result unit :=
  if hasattr o attribute then Ok tt else Raise NotFittedError.

(** The attributes that [NNDMD.__init__] sets (lines 728-743). *)
Definition init_attributes : list string :=
  ["mode"; "look_forward"; "config_encoder"; "config_decoder"; "lbfgs";
   "normalize"; "normalize_mode"; "dt"; "trainer_kwargs";
   "normalize_std_factor"; "batch_size"; "_regressor"].

Definition init : object :=
  fold_left (fun o name => setattr o name Config) init_attributes [].

(** The assignments at the end of [fit] (lines 824-849), in order. *)
Definition fit_store (o : object)
    (state_matrix eigenvalues eigenvectors ur modes : list (list Q)) : object :=
  let o := setattr o "_state_matrix_" (Array state_matrix) in
  let o := setattr o "_eigenvalues_" (Array eigenvalues) in
  let o := setattr o "_eigenvectors_" (Array eigenvectors) in
  let o := setattr o "_coef_" (Array state_matrix) in
  let o := setattr o "_ur" (Array ur) in
  setattr o "_unnormalized_modes" (Array modes).

Definition coef_ (o : object) : result value :=
  _ <- check_is_fitted o "_coef_" ;; getattr o "_coef_".

Definition state_matrix_ (o : object) : result value :=
  getattr o "_state_matrix_".

Definition eigenvalues_ (o : object) : result value :=
  _ <- check_is_fitted o "_eigenvalues_" ;; getattr o "_eigenvalues_".

Definition eigenvectors_ (o : object) : result value :=
  _ <- check_is_fitted o "_eigenvectors_" ;; getattr o "_eigenvectors_".

Definition unnormalized_modes (o : object) : result value :=
  _ <- check_is_fitted o "_unnormalized_modes" ;;
  getattr o "_unnormalized_modes".

Definition ur (o : object) : result value :=
  _ <- check_is_fitted o "_ur" ;; getattr o "_ur".

End NNDMD.

(* ------------------------------------------------------------------ *)
(** ** SeqDataModule.check_list_of_nparray (lines 689-706) *)

Module CheckData.

Local Open Scope string_scope.

Inductive dtype : Type :=
| float16 | float32 | float64 | float128
| complex64 | complex128
| int32 | int64 | uint8 | bool_.

(** [dtype.name]. *)
Definition name (d : dtype) : string :=
  match d with
  | float16 => "float16" | float32 => "float32"
  | float64 => "float64" | float128 => "float128"
  | complex64 => "complex64" | complex128 => "complex128"
  | int32 => "int32" | int64 => "int64"
  | uint8 => "uint8" | bool_ => "bool"
  end.

Definition dtype_eqb (a b : dtype) : bool := name a =? name b.

(** [sub in s] on Python strings. *)
Fixpoint contains (sub s : string) : bool :=
  prefix sub s ||
  match s with
  | EmptyString => false
  | String _ s' => contains sub s'
  end.

(** The test ["float" in dtype.name]. *)
Definition is_float (d : dtype) : bool := contains "float" (name d).

(** The two kinds of Python object the code compares with [is]: the
    [dtype] instance that [x.dtype] returns, and a numpy scalar type such
    as the class [np.float64]. *)
Inductive pyobj : Type :=
| DTypeInstance (d : dtype)
| ScalarType (d : dtype).

(** [a is b]: object identity.  A [dtype] instance is never the same
    object as a scalar type. *)
Definition py_is (a b : pyobj) : bool :=
  match a, b with
  | DTypeInstance d1, DTypeInstance d2 => dtype_eqb d1 d2
  | ScalarType d1, ScalarType d2 => dtype_eqb d1 d2
  | _, _ => false
  end.

Section Arrays.

(** The entries of an array; [astype32] is the rounding that
    [astype("float32")] applies to them. *)
Variable data : Type.
Variable astype32 : data -> data.

Record ndarray : Type := { arr_dtype : dtype; arr_data : data }.

Definition iscomplexobj (x : ndarray) : bool :=
  match arr_dtype x with
  | complex64 | complex128 => true
  | _ => false
  end.

Definition astype_float32 (x : ndarray) : ndarray :=
  {| arr_dtype := float32; arr_data := astype32 (arr_data x) |}.

(** What the loop does to one floating-point array. *)
Definition downcast (x : ndarray) : ndarray :=
  if name (arr_dtype x) =? "float64" then astype_float32 x else x.

(** The loop [for i, data_traj in enumerate(data_list)]. *)
Fixpoint convert_loop (data_list : list ndarray) : result (list ndarray) :=
  match data_list with
  | [] => Ok []
  | data_traj :: rest =>
      if negb (contains "float" (name (arr_dtype data_traj))) then
        Raise TypeError
      else
        let data_traj' :=
          if name (arr_dtype data_traj) =? "float64"
          then astype_float32 data_traj else data_traj in
        rest' <- convert_loop rest ;;
        Ok (data_traj' :: rest')
  end.

(** The warning text. *)
Definition float64_warning : string :=
  "Found float64 data. Will convert to float32".

(** [check_list_of_nparray]: the warnings issued, and the list returned
    or the exception raised. *)
Definition check_list_of_nparray (data_list : list ndarray)
  : list string * result (list ndarray) :=
  if existsb iscomplexobj data_list then ([], Raise TypeError)
  else
    let warnings :=
      if existsb (fun x => py_is (DTypeInstance (arr_dtype x)) (ScalarType float64))
                 data_list
      then [float64_warning] else [] in
    (warnings, convert_loop data_list).

End Arrays.

End CheckData.

(* ------------------------------------------------------------------ *)
(** ** SeqDataModule.convert_seq_list_to_delayed_data (lines 655-680) *)

Module SeqDataModule.

Section Windowing.

(** A state vector, and the zero vector that [pad_sequence] pads with. *)
Variable state : Type.
Variable zero_state : state.

(** One pass of the inner loop: the window starting at offset [i]. *)
Definition append_window (seq : list state) (look_back look_forward : nat)
    (acc : list (list state) * list (list state)) (i : nat)
  : list (list state) * list (list state) :=
  (fst acc ++ [slice seq i (i + look_back)],
   snd acc ++ [slice seq (i + look_back) (i + look_back + look_forward)]).

(** The body of [for seq in data_list]. *)
Definition window_step (look_back look_forward : nat)
    (acc : list (list state) * list (list state)) (seq : list state)
  : list (list state) * list (list state) :=
  let n_sub_traj :=
    (Z.of_nat (length seq) - Z.of_nat look_back - Z.of_nat look_forward + 1)%Z in
  if (1 <=? n_sub_traj)%Z then
    fold_left (append_window seq look_back look_forward)
              (range n_sub_traj) acc
  else
    (* only 1 traj, just to predict to its end *)
    (fst acc ++ [slice seq 0 1], snd acc ++ [skipn 1 seq]).

(** The lists [time_delayed_x_list] and [time_delayed_yseq_list]. *)
Definition delayed_lists (data_list : list (list state))
    (look_back look_forward : nat)
  : list (list state) * list (list state) :=
  fold_left (window_step look_back look_forward) data_list ([], []).

(** [np.array(l)] needs entries of one shape. *)
Definition homogeneous (l : list (list state)) : bool :=
  match l with
  | [] => true
  | x :: l' => forallb (fun x' => length x' =? length x) l'
  end.

(** [pad_sequence(l, True)]: every sequence is extended with zero states
    to the longest length; an empty list is refused. *)
Definition pad_to (n : nat) (s : list state) : list state :=
  s ++ repeat zero_state (n - length s).

Definition pad_sequence (l : list (list state)) : result (list (list state)) :=
  match l with
  | [] => Raise RuntimeError
  | _ => Ok (map (pad_to (list_max (map (@length state) l))) l)
  end.

(** The three tensors returned: current states, padded future sequences
    and the valid length of each future sequence. *)
Record delayed_data : Type := {
  time_delayed_x : list (list state);
  time_delayed_yseq : list (list state);
  time_delayed_yseq_lens : list nat
}.

Definition convert_seq_list_to_delayed_data (data_list : list (list state))
    (look_back look_forward : nat) : result delayed_data :=
  let '(time_delayed_x_list, time_delayed_yseq_list) :=
    delayed_lists data_list look_back look_forward in
  let time_delayed_yseq_lens_list :=
    map (@length state) time_delayed_yseq_list in
  if negb (homogeneous time_delayed_x_list) then Raise ValueError
  else
    yseq <- pad_sequence time_delayed_yseq_list ;;
    Ok {| time_delayed_x := time_delayed_x_list;
          time_delayed_yseq := yseq;
          time_delayed_yseq_lens := time_delayed_yseq_lens_list |}.

End Windowing.

(** [self.look_back = 1] (line 554). *)
Definition look_back : nat := 1.

End SeqDataModule.

(* ------------------------------------------------------------------ *)
(** ** Tensors of rationals *)

Module Tensor.

Local Open Scope Q_scope.

Definition vec : Type := list Q.            (* shape (features) *)
Definition mat : Type := list vec.          (* shape (batch, features) *)
Definition tensor3 : Type := list mat.      (* shape (batch, horizon, features) *)

(** A loss value: a number, or the [nan] that [0 / 0] gives. *)
Inductive lossval : Type :=
| Finite (q : Q)
| NaN.

Definition Qltb (a b : Q) : bool := negb (Qle_bool b a).

(** Elementwise combination of two tensors of the same shape. *)
Fixpoint zip_with {A B C : Type} (f : A -> B -> C) (l1 : list A) (l2 : list B)
  : list C :=
  match l1, l2 with
  | a :: l1', b :: l2' => f a b :: zip_with f l1' l2'
  | _, _ => []
  end.

Fixpoint sum (v : list Q) : Q :=
  match v with
  | [] => 0
  | q :: v' => q + sum v'
  end.

(** [t.sum()] over all entries. *)
Definition sum2 (m : mat) : Q := sum (map sum m).
Definition sum3 (t : tensor3) : Q := sum (map sum2 t).

(** [t.numel()]. *)
Definition numel2 (m : mat) : nat := list_sum (map (@length Q) m).
Definition numel3 (t : tensor3) : nat := list_sum (map numel2 t).

(** [torch.zeros(b, h, f)]. *)
Definition zeros1 (f : nat) : vec := repeat 0 f.
Definition zeros2 (h f : nat) : mat := repeat (zeros1 f) h.
Definition zeros3 (b h f : nat) : tensor3 := repeat (zeros2 h f) b.

(** [torch.pow(a - b, 2)] entry by entry, for operands of one shape
    (torch broadcasts or raises on others). *)
Definition sqdiff (a b : Q) : Q := (a - b) * (a - b).
Definition sqdiff1 (a b : vec) : vec := zip_with sqdiff a b.
Definition sqdiff2 (a b : mat) : mat := zip_with sqdiff1 a b.
Definition sqdiff3 (a b : tensor3) : tensor3 := zip_with sqdiff2 a b.

(** Shapes. *)
Definition shape2 (b f : nat) (m : mat) : Prop :=
  length m = b /\ Forall (fun r => length r = f) m.
Definition shape3 (b h f : nat) (t : tensor3) : Prop :=
  length t = b /\ Forall (shape2 h f) t.

(** [t[:, :1, :]]: the first horizon position of every sample. *)
Definition position0 (t : tensor3) : tensor3 := map (firstn 1) t.

(** [t[i, :used[i], :]] for every sample [i]: the valid prefixes. *)
Definition prefixes (used : list nat) (t : tensor3) : tensor3 :=
  zip_with (fun k s => firstn k s) used t.

(** [torch.nn.functional.mse_loss(a, b)] with the default mean reduction,
    for operands of one shape; the mean of no element is [nan]. *)
Definition mean_of (total : Q) (count : nat) : lossval :=
  if (count =? 0)%nat then NaN else Finite (total / inject_Z (Z.of_nat count)).

Definition mse_loss2 (a b : mat) : lossval :=
  mean_of (sum2 (sqdiff2 a b)) (numel2 a).
Definition mse_loss3 (a b : tensor3) : lossval :=
  mean_of (sum3 (sqdiff3 a b)) (numel3 a).

(** Float addition of loss values: [nan] absorbs. *)
Definition add (a b : lossval) : lossval :=
  match a, b with
  | Finite p, Finite q => Finite (p + q)
  | _, _ => NaN
  end.

(** Equality of loss values as numbers. *)
Definition lossval_eq (a b : lossval) : Prop :=
  match a, b with
  | Finite p, Finite q => p == q
  | NaN, NaN => True
  | _, _ => False
  end.

(** Two calls end alike: in the same exception, or in values related
    by [R]. *)
Definition rel_result {A : Type} (R : A -> A -> Prop) (a b : result A) : Prop :=
  match a, b with
  | Ok u, Ok v => R u v
  | Raise e, Raise e' => e = e'
  | _, _ => False
  end.

Definition result_eq (a b : result lossval) : Prop := rel_result lossval_eq a b.

(** Two batches of sequences of one shape that hold the same rows at the
    first horizon position. *)
Definition same_width (r r' : vec) : Prop := length r = length r'.

Definition agree0 (t t' : tensor3) : Prop :=
  Forall2 (fun s s' => firstn 1 s = firstn 1 s' /\ Forall2 same_width s s') t t'.

End Tensor.

(* ------------------------------------------------------------------ *)
(** ** TensorNormalize, InverseTensorNormalize and the statistics of
       [SeqDataModule.prepare_data] (lines 507-532, 576-599) *)

Module Normalize.

Import Tensor.
Local Open Scope Q_scope.
Local Open Scope string_scope.

(** [TensorNormalize.forward] on the last axis, of the size of the
    statistics: [torch.divide(tensor - mean, std)].  Division by a zero
    scale gives [inf] or [nan] in torch and [0] here; the statements are
    about scales without zero entry. *)
Definition normalize1 (mean std tensor : vec) : vec :=
  zip_with Qdiv (zip_with Qminus tensor mean) std.

(** [InverseTensorNormalize.forward]: [torch.multiply(tensor, std) + mean],
    on a last axis of the size of the statistics. *)
Definition inverse1 (mean std tensor : vec) : vec :=
  zip_with Qplus (zip_with Qmult tensor std) mean.

(** The same on a batch of vectors and on a batch of sequences: the
    statistics broadcast along the leading axes. *)
Definition normalize2 (mean std : vec) (t : mat) : mat :=
  map (normalize1 mean std) t.
Definition inverse2 (mean std : vec) (t : mat) : mat :=
  map (inverse1 mean std) t.
Definition normalize3 (mean std : vec) (t : tensor3) : tensor3 :=
  map (normalize2 mean std) t.
Definition inverse3 (mean std : vec) (t : tensor3) : tensor3 :=
  map (inverse2 mean std) t.

(** [t.max()] of a 1-D tensor; refused on an empty tensor. *)
Definition tensor_max (t : vec) : result Q :=
  match t with
  | [] => Raise RuntimeError
  | q :: t' => Ok (fold_left Qmax t' q)
  end.

(** The guard against division by zero (lines 591-593). *)
Definition guard (s : Q) : Q :=
  if Qltb s (1 # 1000000) then s + (1 # 1000) else s.

(** The statistics [self.mean] and [self.std] that [prepare_data] builds
    from [mean0 = stacked.mean(axis=0)] and [std0 = stacked.std(axis=0)]. *)
Definition prepare_stats (normalize_mode : string) (normalize_std_factor : Q)
    (mean0 std0 : vec) : result (vec * vec) :=
  let mean := map (fun m => m * 0) mean0 in
  let std := map (fun s => s * normalize_std_factor) std0 in
  std <- (if normalize_mode =? "max" then
            m <- tensor_max std ;;
            Ok (map (fun one => one * m) (map (fun _ => 1) std))
          else Ok std) ;;
  let std := map guard std in
  Ok (mean, std).

End Normalize.

(* ------------------------------------------------------------------ *)
(** ** MaskedMSELoss (lines 23-74) *)

Module MaskedMSELoss.

Import Tensor.
Local Open Scope Q_scope.

(** The module state: [self.max_look_forward]. *)
Record t : Type := { max_look_forward : nat }.

Definition init (max_look_forward : nat) : t :=
  {| max_look_forward := max_look_forward |}.

Definition mask3 : Type := list (list (list bool)).

(** [torch.zeros_like(output, dtype=torch.bool)]. *)
Definition zeros_like (output : tensor3) : mask3 :=
  map (map (map (fun _ => false))) output.

(** [m[:length_used, :] = 1] on the mask of one sample. *)
Definition fill_prefix (length_used : nat) (m : list (list bool))
  : list (list bool) :=
  (map (map (fun _ => true)) (firstn length_used m) ++ skipn length_used m)%list.

(** [l[i] = f(l[i])]; an index past the end raises [IndexError]. *)
Fixpoint update_at {A : Type} (f : A -> A) (i : nat) (l : list A)
  : result (list A) :=
  match l, i with
  | [], _ => Raise IndexError
  | a :: l', O => Ok (f a :: l')
  | a :: l', S i' => l'' <- update_at f i' l' ;; Ok (a :: l'')
  end.

(** The branch on [length > self.max_look_forward]. *)
Definition length_used (self : t) (length : nat) : nat :=
  if (max_look_forward self <? length)%nat then max_look_forward self
  else length.

(** [for i, length in enumerate(target_lens)], from index [i] on. *)
Fixpoint mask_loop (self : t) (mask : mask3) (i : nat) (target_lens : list nat)
  : result mask3 :=
  match target_lens with
  | [] => Ok mask
  | length :: rest =>
      mask' <- update_at (fill_prefix (length_used self length)) i mask ;;
      mask_loop self mask' (S i) rest
  end.

(** [torch.where(mask, squared_diff, zeros)], for a mask of the shape of
    [squared_diff]. *)
Definition where0 (b : bool) (q : Q) : Q := if b then q else 0.
Definition where3 (mask : mask3) (t : tensor3) : tensor3 :=
  zip_with (zip_with (zip_with where0)) mask t.

(** [mask.sum()]: the number of true entries. *)
Definition count1 (m : list bool) : nat := List.length (filter (fun b => b) m).
Definition count2 (m : list (list bool)) : nat := list_sum (map count1 m).
Definition count3 (m : mask3) : nat := list_sum (map count2 m).

(** The mask of one sample whose first [k] positions are valid, and the
    mask of a batch with one length per sample. *)
Definition sample_mask (k : nat) (o : mat) : list (list bool) :=
  fill_prefix k (map (map (fun _ => false)) o).

Definition batch_mask (self : t) (target_lens : list nat) (output : tensor3)
  : mask3 :=
  zip_with (fun len o => sample_mask (length_used self len) o)
           target_lens output.

(** [forward(output, target, target_lens)], for [output] and [target] of
    one shape (batch, horizon, features). *)
Definition forward (self : t) (output target : tensor3) (target_lens : list nat)
  : result lossval :=
  mask <- mask_loop self (zeros_like output) 0 target_lens ;;
  let squared_diff := sqdiff3 output target in
  let squared_diff_masked := where3 mask squared_diff in
  Ok (mean_of (sum3 squared_diff_masked) (count3 mask)).

End MaskedMSELoss.

(* ------------------------------------------------------------------ *)
(** ** DLKoopmanRegressor (lines 233-482) *)

Module DLKoopmanRegressor.

Import Tensor.
Local Open Scope Q_scope.

(** A network configuration dictionary. *)
Record config : Type := {
  cfg_input_size : nat;
  cfg_hidden_sizes : list nat;
  cfg_output_size : nat;
  cfg_activations : string
}.

(** The attributes set by [__init__], apart from the three networks. *)
Record t : Type := {
  mode : option string;
  input_size : nat;
  output_size : nat;
  look_forward : nat;
  using_lbfgs : bool;
  masked_loss_metric : MaskedMSELoss.t
}.

Definition init (mode : option string) (look_forward : nat)
    (config_encoder config_decoder : config) (lbfgs : bool) : t :=
  {| mode := mode;
     input_size := cfg_input_size config_encoder;
     output_size := cfg_output_size config_encoder;
     look_forward := look_forward;
     using_lbfgs := lbfgs;
     masked_loss_metric := MaskedMSELoss.init 1 |}.

Section Training.

(** The encoder, the decoder and the Koopman propagator with their
    current weights, as maps on the last axis. *)
Variable _encoder : vec -> vec.
Variable _decoder : vec -> vec.
Variable _koopman_propagator : vec -> vec.

Variable self : t.

(** [ys.max()]; refused on an empty tensor. *)
Definition lens_max (ys : list nat) : result nat :=
  match ys with
  | [] => Raise RuntimeError
  | _ => Ok (list_max ys)
  end.

(** The loop of [_propagate_encoded_n_steps]: [encoded_future], one
    batch per step. *)
Fixpoint propagate_loop (encoded : mat) (n : nat) : list mat :=
  match n with
  | O => []
  | S n' =>
      let encoded := map _koopman_propagator encoded in
      encoded :: propagate_loop encoded n'
  end.

(** [t[:, i, :]]. *)
Fixpoint get_col (t : tensor3) (i : nat) : result mat :=
  match t with
  | [] => Ok []
  | s :: t' =>
      r <- getitem s i ;;
      rest <- get_col t' i ;;
      Ok (r :: rest)
  end.

(** [s[i] = v] on one sample: the index must exist and the widths agree
    (a source that torch would broadcast is outside the model: the
    decoder returns one row per sample, of the width of a state). *)
Fixpoint set_row (s : mat) (i : nat) (v : vec) : result mat :=
  match s, i with
  | [], _ => Raise IndexError
  | r :: s', O =>
      if (length r =? length v)%nat then Ok (v :: s') else Raise RuntimeError
  | r :: s', S i' => s'' <- set_row s' i' v ;; Ok (r :: s'')
  end.

(** [t[:, i, :] = vals]. *)
Fixpoint set_col (t : tensor3) (i : nat) (vals : mat) : result tensor3 :=
  match t, vals with
  | [], [] => Ok []
  | s :: t', v :: vals' =>
      s' <- set_row s i v ;;
      rest <- set_col t' i vals' ;;
      Ok (s' :: rest)
  | _, _ => Raise RuntimeError
  end.

(** [torch.stack(encoded_future, 1)] followed by the reads
    [phi_seq[:, i, :]]: step [i] of the list; stacking no tensor is
    refused. *)
Definition stack1 (encoded_future : list mat) : result (list mat) :=
  match encoded_future with
  | [] => Raise RuntimeError
  | _ => Ok encoded_future
  end.

(** [for i in range(n): decoded[:, i, :] = self._decoder(phi_seq[:, i, :])]. *)
Definition rnn_step (phi_seq : list mat) (acc : result tensor3) (i : nat)
  : result tensor3 :=
  decoded <- acc ;;
  phi <- getitem phi_seq i ;;
  set_col decoded i (map _decoder phi).

(** [for i in range(n):
       decoded[:, i, :] = self._decoder(self._encoder(y[:, i, :]))]. *)
Definition rec_step (y : tensor3) (acc : result tensor3) (i : nat)
  : result tensor3 :=
  decoded <- acc ;;
  col <- get_col y i ;;
  set_col decoded i (map (fun r => _decoder (_encoder r)) col).

(** The three values that [training_step] logs; the closure of the
    L-BFGS variant (lines 308-359) computes the same three. *)
Record losses : Type := {
  loss : lossval;
  rec_loss : lossval;
  rnn_loss : lossval
}.

Definition losses_eq (a b : losses) : Prop :=
  lossval_eq (loss a) (loss b)
  /\ lossval_eq (rec_loss a) (rec_loss b)
  /\ lossval_eq (rnn_loss a) (rnn_loss b).

Definition training_step (x : mat) (y : tensor3) (ys : list nat)
  : result losses :=
  batch_look_forward <- lens_max ys ;;
  let encoded_x := map _encoder x in
  phi_seq <- stack1 (propagate_loop encoded_x batch_look_forward) ;;
  let decoded_y_seq_rnn :=
    zeros3 (length x) (look_forward self) (input_size self) in
  decoded_y_seq_rnn <-
    fold_left (rnn_step phi_seq) (seq 0 batch_look_forward)
              (Ok decoded_y_seq_rnn) ;;
  rnn_loss <-
    MaskedMSELoss.forward (masked_loss_metric self) decoded_y_seq_rnn y ys ;;
  let decoded_x := map _decoder encoded_x in
  let rec_loss := mse_loss2 decoded_x x in
  let decoded_y_seq_rec :=
    zeros3 (length x) (look_forward self) (input_size self) in
  decoded_y_seq_rec <-
    fold_left (rec_step y) (seq 0 batch_look_forward)
              (Ok decoded_y_seq_rec) ;;
  masked_rec <-
    MaskedMSELoss.forward (masked_loss_metric self) decoded_y_seq_rec y ys ;;
  let rec_loss := add rec_loss masked_rec in
  let loss := add rnn_loss rec_loss in
  Ok {| loss := loss; rec_loss := rec_loss; rnn_loss := rnn_loss |}.

End Training.

End DLKoopmanRegressor.

(* ------------------------------------------------------------------ *)
(** ** The Koopman operators (lines 149-230) *)

Module Koopman.

Local Open Scope R_scope.
Local Unset Implicit Arguments.

(** A 1-D tensor and a 2-D tensor of reals, by their entries; of a
    tensor of size [dim] only the entries with indices below [dim]
    count. *)
Definition vector : Type := nat -> R.
Definition matrix : Type := nat -> nat -> R.

(** The sum of [f k] over [k < n]. *)
Fixpoint big_sum (n : nat) (f : nat -> R) : R :=
  match n with
  | O => 0
  | S n' => big_sum n' f + f n'
  end.

(** [A.t()], [torch.diag(v)], [A + B], [A - B], [c * A]. *)
Definition transpose (A : matrix) : matrix := fun i j => A j i.
Definition diag (v : vector) : matrix :=
  fun i j => if (i =? j)%nat then v i else 0.
Definition madd (A B : matrix) : matrix := fun i j => A i j + B i j.
Definition msub (A B : matrix) : matrix := fun i j => A i j - B i j.
Definition mscale (c : R) (A : matrix) : matrix := fun i j => c * A i j.

(** The identity matrix. *)
Definition eye : matrix := fun i j => if (i =? j)%nat then 1 else 0.

Section Dim.

(** [self.dim]: the size of the latent space. *)
Variable dim : nat.

(** [torch.matmul(A, B)] and the product of a matrix with a vector. *)
Definition matmul (A B : matrix) : matrix :=
  fun i j => big_sum dim (fun k => A i k * B k j).
Definition matvec (A : matrix) (v : vector) : vector :=
  fun i => big_sum dim (fun k => A i k * v k).

(** Powers of a matrix. *)
Fixpoint mpow (A : matrix) (k : nat) : matrix :=
  match k with
  | O => eye
  | S k' => matmul (mpow A k') A
  end.

(** The terms and the partial sums of the series of [torch.matrix_exp],
    the sum over [k] of [A^k / k!]. *)
Definition exp_term (A : matrix) (k : nat) : matrix :=
  fun i j => / INR (fact k) * mpow A k i j.
Definition exp_partial (A : matrix) (N : nat) : matrix :=
  fun i j => sum_f_R0 (fun k => exp_term A k i j) N.

(** The sum of the absolute values of the entries of a matrix. *)
Definition entry_norm (A : matrix) : R :=
  big_sum dim (fun i => big_sum dim (fun j => Rabs (A i j))).

(** The learned parameters of the three operator classes. *)
Inductive operator : Type :=
| Standard (K : matrix)
| Hamiltonian (off_diagonal : matrix)
| Dissipative (off_diagonal : matrix) (diagonal : vector).

(** [get_K]. *)
Definition get_K (op : operator) : matrix :=
  match op with
  | Standard K => K
  | Hamiltonian off_diagonal => msub off_diagonal (transpose off_diagonal)
  | Dissipative off_diagonal diagonal =>
      msub (madd (diag diagonal) off_diagonal) (transpose off_diagonal)
  end.

(** The value that [DissipativeKoopmanOperator.__init__] gives to the
    parameter [diagonal], from the random draw [v]: [-torch.pow(v, 2)]. *)
Definition diagonal_init (v : vector) : vector := fun i => - (v i * v i).

(** A complex number [a + i b] is an eigenvalue of the real matrix [K]
    with eigenvector [u + i w], written on real and imaginary parts. *)
Definition eigenpair (K : matrix) (a b : R) (u w : vector) : Prop :=
  (exists i, (i < dim)%nat /\ (u i <> 0 \/ w i <> 0))
  /\ forall i, (i < dim)%nat ->
       matvec K u i = a * u i - b * w i
       /\ matvec K w i = b * u i + a * w i.

Definition eigenvalue (K : matrix) (a b : R) : Prop :=
  exists u w, eigenpair K a b u w.

(** ** Finite sums *)

Lemma big_sum_ext (n : nat) (f g : nat -> R) :
  (forall k, (k < n)%nat -> f k = g k) -> big_sum n f = big_sum n g.
Proof.
  induction n as [|n IH]; intros H; simpl; [reflexivity|].
  rewrite IH, H; auto.
Qed.

Lemma big_sum_plus (n : nat) (f g : nat -> R) :
  big_sum n (fun k => f k + g k) = big_sum n f + big_sum n g.
Proof.
  induction n as [|n IH]; simpl; [ring|]. rewrite IH. ring.
Qed.

Lemma big_sum_minus (n : nat) (f g : nat -> R) :
  big_sum n (fun k => f k - g k) = big_sum n f - big_sum n g.
Proof.
  induction n as [|n IH]; simpl; [ring|]. rewrite IH. ring.
Qed.

Lemma big_sum_scal (n : nat) (c : R) (f : nat -> R) :
  big_sum n (fun k => c * f k) = c * big_sum n f.
Proof.
  induction n as [|n IH]; simpl; [ring|]. rewrite IH. ring.
Qed.

Lemma big_sum_scal_r (n : nat) (c : R) (f : nat -> R) :
  big_sum n (fun k => f k * c) = big_sum n f * c.
Proof.
  induction n as [|n IH]; simpl; [ring|]. rewrite IH. ring.
Qed.

Lemma big_sum_zero (n : nat) : big_sum n (fun _ => 0) = 0.
Proof.
  induction n as [|n IH]; simpl; [reflexivity|]. rewrite IH. ring.
Qed.

Lemma big_sum_swap (n m : nat) (f : nat -> nat -> R) :
  big_sum n (fun i => big_sum m (fun j => f i j))
  = big_sum m (fun j => big_sum n (fun i => f i j)).
Proof.
  induction n as [|n IH]; simpl.
  - symmetry. apply big_sum_zero.
  - rewrite IH. symmetry. apply big_sum_plus.
Qed.

Lemma big_sum_le (n : nat) (f g : nat -> R) :
  (forall k, (k < n)%nat -> f k <= g k) -> big_sum n f <= big_sum n g.
Proof.
  induction n as [|n IH]; intros H; simpl; [lra|].
  apply Rplus_le_compat; [apply IH; auto|apply H; lia].
Qed.

Lemma big_sum_nonneg (n : nat) (f : nat -> R) :
  (forall k, (k < n)%nat -> 0 <= f k) -> 0 <= big_sum n f.
Proof.
  intros H. rewrite <- (big_sum_zero n). apply big_sum_le. exact H.
Qed.

Lemma big_sum_abs (n : nat) (f : nat -> R) :
  Rabs (big_sum n f) <= big_sum n (fun k => Rabs (f k)).
Proof.
  induction n as [|n IH]; simpl.
  - rewrite Rabs_R0. lra.
  - eapply Rle_trans; [apply Rabs_triang|]. lra.
Qed.

(** A term of a sum of non-negative terms is at most the sum. *)
Lemma big_sum_term_le (n : nat) (f : nat -> R) (k : nat) :
  (forall i, (i < n)%nat -> 0 <= f i) -> (k < n)%nat -> f k <= big_sum n f.
Proof.
  intros Hf. induction n as [|n IH]; intros Hk; [lia|]. simpl.
  destruct (Nat.eq_dec k n) as [->|Hne].
  - assert (0 <= big_sum n f) by (apply big_sum_nonneg; auto). lra.
  - assert (f k <= big_sum n f) by (apply IH; [auto|lia]).
    assert (0 <= f n) by (apply Hf; lia). lra.
Qed.

(** The sum over [k < n] of [delta i k * f k] picks the term [f i]. *)
Lemma big_sum_delta_l (n i : nat) (f : nat -> R) :
  (i < n)%nat ->
  big_sum n (fun k => (if (i =? k)%nat then 1 else 0) * f k) = f i.
Proof.
  induction n as [|n IH]; intros Hi; [lia|]. simpl.
  destruct (Nat.eqb_spec i n) as [->|Hne].
  - rewrite (big_sum_ext n _ (fun _ => 0)), big_sum_zero; [ring|].
    intros k Hk. destruct (Nat.eqb_spec n k); [lia|ring].
  - rewrite IH by lia. ring.
Qed.

Lemma big_sum_delta_r (n j : nat) (f : nat -> R) :
  (j < n)%nat ->
  big_sum n (fun k => f k * (if (k =? j)%nat then 1 else 0)) = f j.
Proof.
  intros Hj. rewrite <- (big_sum_delta_l n j f Hj).
  apply big_sum_ext. intros k _. rewrite (Nat.eqb_sym k j). ring.
Qed.


(** ** Matrix algebra *)

Lemma matmul_assoc (A B C : matrix) (i j : nat) :
  matmul (matmul A B) C i j = matmul A (matmul B C) i j.
Proof.
  unfold matmul.
  rewrite (big_sum_ext dim _
             (fun k => big_sum dim (fun l => A i l * B l k * C k j))).
  2:{ intros k _. rewrite <- big_sum_scal_r. reflexivity. }
  rewrite big_sum_swap. apply big_sum_ext. intros l _.
  rewrite <- big_sum_scal. apply big_sum_ext. intros k _. ring.
Qed.

Lemma matmul_eye_r (A : matrix) (i j : nat) :
  (j < dim)%nat -> matmul A eye i j = A i j.
Proof.
  intros Hj. unfold matmul, eye.
  apply (big_sum_delta_r dim j (fun k => A i k) Hj).
Qed.

Lemma matmul_eye_l (A : matrix) (i j : nat) :
  (i < dim)%nat -> matmul eye A i j = A i j.
Proof.
  intros Hi. unfold matmul, eye.
  apply (big_sum_delta_l dim i (fun k => A k j) Hi).
Qed.

Lemma mpow_add (A : matrix) (p q i j : nat) :
  (j < dim)%nat ->
  matmul (mpow A p) (mpow A q) i j = mpow A (p + q) i j.
Proof.
  revert i j. induction q as [|q IH]; intros i j Hj.
  - rewrite Nat.add_0_r. apply matmul_eye_r. exact Hj.
  - rewrite Nat.add_succ_r. simpl mpow. rewrite <- matmul_assoc.
    unfold matmul at 1. unfold matmul at 2.
    apply big_sum_ext. intros l Hl. rewrite IH by exact Hl. reflexivity.
Qed.

(** A matrix commutes with its powers. *)
Lemma mpow_comm (A : matrix) (k i j : nat) :
  (i < dim)%nat -> (j < dim)%nat ->
  matmul A (mpow A k) i j = matmul (mpow A k) A i j.
Proof.
  intros Hi Hj.
  change (matmul (mpow A k) A i j) with (mpow A (1 + k) i j).
  rewrite <- (mpow_add A 1 k i j Hj).
  unfold matmul at 1 2. apply big_sum_ext. intros l _.
  change (mpow A 1) with (matmul eye A).
  rewrite (matmul_eye_l A i l Hi). reflexivity.
Qed.

Lemma mpow_transpose (A : matrix) (k i j : nat) :
  (i < dim)%nat -> (j < dim)%nat ->
  mpow (transpose A) k i j = mpow A k j i.
Proof.
  revert i j. induction k as [|k IH]; intros i j Hi Hj.
  - simpl. unfold eye. rewrite Nat.eqb_sym. reflexivity.
  - simpl mpow. rewrite <- (mpow_comm A k j i Hj Hi).
    unfold matmul. apply big_sum_ext. intros l Hl.
    rewrite (IH i l Hi Hl). unfold transpose. ring.
Qed.

Lemma mpow_scale (c : R) (A : matrix) (k i j : nat) :
  mpow (mscale c A) k i j = c ^ k * mpow A k i j.
Proof.
  revert i j. induction k as [|k IH]; intros i j.
  - simpl. ring.
  - simpl. unfold matmul. rewrite <- big_sum_scal.
    apply big_sum_ext. intros l _. rewrite IH. unfold mscale. ring.
Qed.

Lemma mpow_ext (A B : matrix) (k i j : nat) :
  (forall i j, A i j = B i j) -> mpow A k i j = mpow B k i j.
Proof.
  intros H. revert i j. induction k as [|k IH]; intros i j.
  - reflexivity.
  - simpl. unfold matmul. apply big_sum_ext. intros l _.
    rewrite IH, H. reflexivity.
Qed.

Lemma entry_norm_nonneg (A : matrix) : 0 <= entry_norm A.
Proof.
  unfold entry_norm. apply big_sum_nonneg. intros i _.
  apply big_sum_nonneg. intros j _. apply Rabs_pos.
Qed.

(** A column of absolute values sums to at most the norm. *)
Lemma column_le_norm (A : matrix) (j : nat) :
  (j < dim)%nat -> big_sum dim (fun l => Rabs (A l j)) <= entry_norm A.
Proof.
  intros Hj. unfold entry_norm. apply big_sum_le. intros l _.
  apply (big_sum_term_le dim (fun j => Rabs (A l j)) j); [|exact Hj].
  intros; apply Rabs_pos.
Qed.

(** The entries of [A^k] are bounded by the [k]th power of the norm. *)
Lemma mpow_bound (A : matrix) (k i j : nat) :
  (j < dim)%nat -> Rabs (mpow A k i j) <= entry_norm A ^ k.
Proof.
  revert i j. induction k as [|k IH]; intros i j Hj.
  - simpl. unfold eye. destruct (i =? j)%nat.
    + rewrite Rabs_R1. lra.
    + rewrite Rabs_R0. lra.
  - simpl mpow. unfold matmul.
    eapply Rle_trans; [apply big_sum_abs|].
    apply Rle_trans
      with (big_sum dim (fun l => entry_norm A ^ k * Rabs (A l j))).
    + apply big_sum_le. intros l Hl. rewrite Rabs_mult.
      apply Rmult_le_compat_r; [apply Rabs_pos|apply IH; exact Hl].
    + rewrite big_sum_scal. simpl pow. rewrite (Rmult_comm (entry_norm A)).
      apply Rmult_le_compat_l.
      * apply pow_le, entry_norm_nonneg.
      * apply column_le_norm. exact Hj.
Qed.

Lemma entry_norm_scale (c : R) (A : matrix) :
  entry_norm (mscale c A) = Rabs c * entry_norm A.
Proof.
  unfold entry_norm, mscale. rewrite <- big_sum_scal.
  apply big_sum_ext. intros i _. rewrite <- big_sum_scal.
  apply big_sum_ext. intros j _. apply Rabs_mult.
Qed.

(** ** The quadratic form of a generator and its spectrum *)

(** The quadratic form [x . (K x)]. *)
Definition quad (K : matrix) (x : vector) : R :=
  big_sum dim (fun i => x i * matvec K x i).

Lemma quad_madd (A B : matrix) (x : vector) :
  quad (madd A B) x = quad A x + quad B x.
Proof.
  unfold quad, matvec, madd. rewrite <- big_sum_plus.
  apply big_sum_ext. intros i _.
  rewrite <- Rmult_plus_distr_l, <- big_sum_plus. f_equal.
  apply big_sum_ext. intros j _. ring.
Qed.

Lemma quad_msub (A B : matrix) (x : vector) :
  quad (msub A B) x = quad A x - quad B x.
Proof.
  unfold quad, matvec, msub. rewrite <- big_sum_minus.
  apply big_sum_ext. intros i _.
  rewrite <- Rmult_minus_distr_l, <- big_sum_minus. f_equal.
  apply big_sum_ext. intros j _. ring.
Qed.

Lemma quad_transpose (A : matrix) (x : vector) :
  quad (transpose A) x = quad A x.
Proof.
  unfold quad, matvec, transpose.
  rewrite (big_sum_ext dim _
             (fun i => big_sum dim (fun k => x i * A k i * x k))).
  2:{ intros i _. rewrite <- big_sum_scal. apply big_sum_ext.
      intros k _. ring. }
  rewrite big_sum_swap. apply big_sum_ext. intros k _.
  rewrite <- big_sum_scal. apply big_sum_ext. intros i _. ring.
Qed.

Lemma quad_diag (d x : vector) :
  quad (diag d) x = big_sum dim (fun i => d i * (x i * x i)).
Proof.
  unfold quad, matvec, diag. apply big_sum_ext. intros i Hi.
  rewrite (big_sum_ext dim _
             (fun k => (if (i =? k)%nat then 1 else 0) * (d i * x k))).
  2:{ intros k _. destruct (i =? k)%nat; ring. }
  rewrite (big_sum_delta_l dim i (fun k => d i * x k) Hi). ring.
Qed.

(** The quadratic form only sees the diagonal parameter: the
    skew-symmetric part [S - S^T] contributes nothing. *)
Lemma quad_hamiltonian (S : matrix) (x : vector) :
  quad (get_K (Hamiltonian S)) x = 0.
Proof.
  simpl. rewrite quad_msub, quad_transpose. ring.
Qed.

Lemma quad_dissipative (S : matrix) (d x : vector) :
  quad (get_K (Dissipative S d)) x = big_sum dim (fun i => d i * (x i * x i)).
Proof.
  simpl. rewrite quad_msub, quad_madd, quad_transpose, quad_diag. ring.
Qed.

(** The squared norm of a complex vector [u + i w]. *)
Definition norm2 (u w : vector) : R :=
  big_sum dim (fun i => u i * u i + w i * w i).

Lemma norm2_pos (u w : vector) :
  (exists i, (i < dim)%nat /\ (u i <> 0 \/ w i <> 0)) -> 0 < norm2 u w.
Proof.
  intros [i [Hi Hnz]]. unfold norm2.
  apply Rlt_le_trans with (u i * u i + w i * w i).
  - destruct Hnz as [H|H].
    + assert (0 < u i * u i) by (apply Rsqr_pos_lt; exact H).
      assert (0 <= w i * w i) by apply Rle_0_sqr. lra.
    + assert (0 < w i * w i) by (apply Rsqr_pos_lt; exact H).
      assert (0 <= u i * u i) by apply Rle_0_sqr. lra.
  - apply (big_sum_term_le dim (fun i => u i * u i + w i * w i) i);
      [|exact Hi].
    intros k _.
    assert (0 <= u k * u k) by apply Rle_0_sqr.
    assert (0 <= w k * w k) by apply Rle_0_sqr. lra.
Qed.

(** The real part of an eigenvalue, times the squared norm of its
    eigenvector, is the quadratic form on the real and imaginary parts. *)
Lemma eigenpair_real_part (K : matrix) (a b : R) (u w : vector) :
  eigenpair K a b u w -> a * norm2 u w = quad K u + quad K w.
Proof.
  intros [_ H]. unfold norm2, quad.
  rewrite <- big_sum_scal, <- big_sum_plus.
  apply big_sum_ext. intros i Hi.
  destruct (H i Hi) as [Hu Hw]. rewrite Hu, Hw. ring.
Qed.

(** The eigenvalues of a Hamiltonian generator are purely imaginary. *)
Lemma hamiltonian_eigenvalue (S : matrix) (a b : R) :
  eigenvalue (get_K (Hamiltonian S)) a b -> a = 0.
Proof.
  intros [u [w H]].
  pose proof (eigenpair_real_part _ _ _ _ _ H) as E.
  rewrite !quad_hamiltonian in E.
  pose proof (norm2_pos u w (proj1 H)) as Hpos.
  rewrite Rplus_0_r in E.
  apply Rmult_integral in E. destruct E as [E|E]; [exact E|lra].
Qed.

(** With a diagonal parameter that is nowhere positive, the eigenvalues
    of a Dissipative generator have non-positive real part. *)
Lemma dissipative_eigenvalue (S : matrix) (d : vector) (a b : R) :
  (forall i, (i < dim)%nat -> d i <= 0) ->
  eigenvalue (get_K (Dissipative S d)) a b -> a <= 0.
Proof.
  intros Hd [u [w H]].
  pose proof (eigenpair_real_part _ _ _ _ _ H) as E.
  rewrite !quad_dissipative in E.
  pose proof (norm2_pos u w (proj1 H)) as Hpos.
  assert (Hq : forall x : vector,
             big_sum dim (fun i => d i * (x i * x i)) <= 0).
  { intros x. rewrite <- (big_sum_zero dim). apply big_sum_le.
    intros i Hi. specialize (Hd i Hi).
    assert (0 <= x i * x i) by apply Rle_0_sqr. nra. }
  pose proof (Hq u). pose proof (Hq w).
  destruct (Rle_or_lt a 0) as [Ha|Ha]; [exact Ha|].
  assert (0 < a * norm2 u w) by (apply Rmult_lt_0_compat; assumption).
  lra.
Qed.

(** At construction the diagonal parameter is [-v^2], nowhere positive. *)
Lemma diagonal_init_nonpos (v : vector) (i : nat) : diagonal_init v i <= 0.
Proof.
  unfold diagonal_init. assert (0 <= v i * v i) by apply Rle_0_sqr. lra.
Qed.

(** ** Convergence of the exponential series *)

Lemma exp_term_bound (A : matrix) (k i j : nat) :
  (j < dim)%nat ->
  Rabs (exp_term A k i j) <= / INR (fact k) * entry_norm A ^ k.
Proof.
  intros Hj. unfold exp_term. rewrite Rabs_mult.
  assert (Hpos : 0 < / INR (fact k))
    by (apply Rinv_0_lt_compat, INR_fact_lt_0).
  rewrite (Rabs_right (/ INR (fact k))) by lra.
  apply Rmult_le_compat_l; [lra|]. apply mpow_bound. exact Hj.
Qed.

(** Every entry of the series converges: it is dominated by the series
    of the exponential of the norm. *)
Lemma exp_series_cv (A : matrix) (i j : nat) :
  (j < dim)%nat -> { l : R | Un_cv (fun N => exp_partial A N i j) l }.
Proof.
  intros Hj. unfold exp_partial.
  apply cv_cauchy_2, cauchy_abs, cv_cauchy_1.
  apply Rseries_CV_comp
    with (Bn := fun k => / INR (fact k) * entry_norm A ^ k).
  - intros k. split; [apply Rabs_pos|apply exp_term_bound; exact Hj].
  - exists (exp (entry_norm A)). apply E1_cvg.
Qed.

(** [torch.matrix_exp(A)]: the sum of the series, entry by entry. *)
Definition matrix_exp (A : matrix) : matrix :=
  fun i j =>
    match lt_dec i dim, lt_dec j dim with
    | left _, left Hj => proj1_sig (exp_series_cv A i j Hj)
    | _, _ => 0
    end.

(** [get_discrete_time_Koopman_Operator]: [torch.matrix_exp(dt * K)]. *)
Definition get_discrete_time_Koopman_Operator (dt : R) (op : operator)
  : matrix :=
  matrix_exp (mscale dt (get_K op)).

(** [forward(x)]: [torch.matmul(x, koopman_operator.t())]. *)
Definition forward (dt : R) (op : operator) (x : vector) : vector :=
  fun j =>
    big_sum dim
      (fun k => x k * transpose (get_discrete_time_Koopman_Operator dt op) k j).

Lemma matrix_exp_cv (A : matrix) (i j : nat) :
  (i < dim)%nat -> (j < dim)%nat ->
  Un_cv (fun N => exp_partial A N i j) (matrix_exp A i j).
Proof.
  intros Hi Hj. unfold matrix_exp.
  destruct (lt_dec i dim) as [_|H]; [|contradiction].
  destruct (lt_dec j dim) as [Hj'|H]; [|contradiction].
  apply (proj2_sig (exp_series_cv A i j Hj')).
Qed.

Lemma matrix_exp_unique (A : matrix) (i j : nat) (l : R) :
  (i < dim)%nat -> (j < dim)%nat ->
  Un_cv (fun N => exp_partial A N i j) l -> matrix_exp A i j = l.
Proof.
  intros Hi Hj H.
  exact (UL_sequence _ _ _ (matrix_exp_cv A i j Hi Hj) H).
Qed.

Lemma Un_cv_ext (u v : nat -> R) (l : R) :
  (forall n, u n = v n) -> Un_cv u l -> Un_cv v l.
Proof.
  intros E H eps Heps. destruct (H eps Heps) as [N HN].
  exists N. intros n Hn. rewrite <- E. apply HN. exact Hn.
Qed.

(** A sequence that is eventually within [v n] of [l], with [v] tending
    to [0], tends to [l]. *)
Lemma Un_cv_dominated (u v : nat -> R) (l : R) (N0 : nat) :
  (forall n, (N0 <= n)%nat -> Rabs (u n - l) <= v n) ->
  Un_cv v 0 -> Un_cv u l.
Proof.
  intros Hb Hv eps Heps. destruct (Hv eps Heps) as [N1 HN1].
  exists (Nat.max N0 N1). intros n Hn.
  assert (H0 : (N0 <= n)%nat) by lia.
  assert (H1 : (n >= N1)%nat) by lia.
  specialize (HN1 n H1). unfold Rdist in *. rewrite Rminus_0_r in HN1.
  eapply Rle_lt_trans; [apply Hb; exact H0|].
  eapply Rle_lt_trans; [apply Rle_abs|exact HN1].
Qed.

Lemma Un_cv_const (c : R) : Un_cv (fun _ => c) c.
Proof.
  intros eps Heps. exists 0%nat. intros n _.
  unfold Rdist. rewrite Rminus_diag, Rabs_R0. exact Heps.
Qed.

(** A finite sum of convergent sequences converges to the sum of the
    limits. *)
Lemma big_sum_cv (n : nat) (u : nat -> nat -> R) (a : nat -> R) :
  (forall l, (l < n)%nat -> Un_cv (u l) (a l)) ->
  Un_cv (fun N => big_sum n (fun l => u l N)) (big_sum n a).
Proof.
  induction n as [|n IH]; intros H; simpl.
  - apply Un_cv_const.
  - apply (CV_plus (fun N => big_sum n (fun l => u l N)) (u n)).
    + apply IH. intros l Hl. apply H. lia.
    + apply H. lia.
Qed.

Lemma exp_partial_transpose (A : matrix) (N i j : nat) :
  (i < dim)%nat -> (j < dim)%nat ->
  exp_partial (transpose A) N i j = exp_partial A N j i.
Proof.
  intros Hi Hj. unfold exp_partial, exp_term. apply sum_eq. intros k _.
  rewrite (mpow_transpose A k i j Hi Hj). reflexivity.
Qed.

(** The exponential of the transpose is the transpose of the
    exponential. *)
Lemma matrix_exp_transpose (A : matrix) (i j : nat) :
  matrix_exp (transpose A) i j = matrix_exp A j i.
Proof.
  destruct (lt_dec i dim) as [Hi|Hi]; destruct (lt_dec j dim) as [Hj|Hj].
  - apply matrix_exp_unique; [exact Hi|exact Hj|].
    apply (Un_cv_ext (fun N => exp_partial A N j i)).
    + intros N. symmetry. apply exp_partial_transpose; assumption.
    + apply matrix_exp_cv; assumption.
  - unfold matrix_exp.
    destruct (lt_dec i dim); destruct (lt_dec j dim);
      try contradiction; reflexivity.
  - unfold matrix_exp.
    destruct (lt_dec i dim); destruct (lt_dec j dim);
      try contradiction; reflexivity.
  - unfold matrix_exp.
    destruct (lt_dec i dim); destruct (lt_dec j dim);
      try contradiction; reflexivity.
Qed.

(** The exponential depends on the entries of its argument only. *)
Lemma matrix_exp_ext (A B : matrix) (i j : nat) :
  (forall i j, A i j = B i j) -> matrix_exp A i j = matrix_exp B i j.
Proof.
  intros E.
  destruct (lt_dec i dim) as [Hi|Hi]; destruct (lt_dec j dim) as [Hj|Hj].
  - apply matrix_exp_unique; [exact Hi|exact Hj|].
    apply (Un_cv_ext (fun N => exp_partial B N i j)).
    + intros N. unfold exp_partial, exp_term. apply sum_eq. intros k _.
      rewrite (mpow_ext A B k i j E). reflexivity.
    + apply matrix_exp_cv; assumption.
  - unfold matrix_exp.
    destruct (lt_dec i dim); destruct (lt_dec j dim);
      try contradiction; reflexivity.
  - unfold matrix_exp.
    destruct (lt_dec i dim); destruct (lt_dec j dim);
      try contradiction; reflexivity.
  - unfold matrix_exp.
    destruct (lt_dec i dim); destruct (lt_dec j dim);
      try contradiction; reflexivity.
Qed.

(** ** The exponential of [-M] inverts the exponential of [M] *)

(** The alternating sum of the binomial coefficients, divided by [k!]. *)
Lemma alternating_binomial (k : nat) :
  sum_f_R0 (fun p => (-1) ^ p * / INR (fact p) * / INR (fact (k - p))) k
  = if (k =? 0)%nat then 1 else 0.
Proof.
  assert (E : sum_f_R0
                (fun p => (-1) ^ p * / INR (fact p) * / INR (fact (k - p))) k
              = / INR (fact k) * (-1 + 1) ^ k).
  { rewrite binomial, scal_sum. apply sum_eq. intros p Hp.
    unfold C. rewrite pow1. field.
    repeat split; apply INR_fact_neq_0. }
  rewrite E. destruct k as [|k].
  - simpl. field.
  - replace (-1 + 1) with 0 by ring.
    rewrite pow_i by lia. change (S k =? 0)%nat with false. cbv iota. ring.
Qed.

Lemma big_sum_sum_f_R0 (n N : nat) (f : nat -> nat -> R) :
  big_sum n (fun l => sum_f_R0 (f l) N)
  = sum_f_R0 (fun k => big_sum n (fun l => f l k)) N.
Proof.
  induction n as [|n IH]; simpl.
  - symmetry. apply sum_eq_R0. reflexivity.
  - rewrite IH. symmetry. apply sum_plus.
Qed.

Section Inverse.

Variable M : matrix.
Variables i j : nat.
Hypothesis Hi : (i < dim)%nat.
Hypothesis Hj : (j < dim)%nat.

Let minusM : matrix := mscale (-1) M.
Let s : R := entry_norm M.

(** The terms of the two series whose product gives entry [(i, j)]. *)
Let An (l p : nat) : R := exp_term minusM p i l.
Let Bn (l q : nat) : R := exp_term M q l j.

Lemma entry_norm_minusM : entry_norm minusM = s.
Proof.
  unfold minusM, s. rewrite entry_norm_scale.
  replace (Rabs (-1)) with 1; [ring|].
  unfold Rabs. destruct (Rcase_abs (-1)); lra.
Qed.

(** The diagonal part of the Cauchy product collapses to the identity. *)
Lemma diagonal_term (k p : nat) :
  (p <= k)%nat ->
  big_sum dim (fun l => An l p * Bn l (k - p))
  = (-1) ^ p * / INR (fact p) * / INR (fact (k - p)) * mpow M k i j.
Proof.
  intros Hp. unfold An, Bn, exp_term, minusM.
  rewrite (big_sum_ext dim _
             (fun l => (-1) ^ p * / INR (fact p) * / INR (fact (k - p))
                       * (mpow M p i l * mpow M (k - p) l j))).
  2:{ intros l _. rewrite mpow_scale. ring. }
  rewrite big_sum_scal. f_equal.
  change (matmul (mpow M p) (mpow M (k - p)) i j = mpow M k i j).
  rewrite (mpow_add M p (k - p) i j Hj). f_equal. lia.
Qed.

Lemma diagonal_part (N : nat) :
  big_sum dim
    (fun l => sum_f_R0 (fun k => sum_f_R0 (fun p => An l p * Bn l (k - p)) k) N)
  = eye i j.
Proof.
  rewrite big_sum_sum_f_R0.
  rewrite (sum_eq _ (fun k => (if (k =? 0)%nat then 1 else 0) * mpow M k i j)).
  - induction N as [|N IH].
    + simpl. ring.
    + rewrite tech5, IH. change (S N =? 0)%nat with false. cbv iota. ring.
  - intros k _. rewrite big_sum_sum_f_R0.
    rewrite (sum_eq _ (fun p => (-1) ^ p * / INR (fact p) * / INR (fact (k - p))
                                * mpow M k i j)).
    + rewrite <- scal_sum, alternating_binomial. ring.
    + intros p Hp. apply diagonal_term. exact Hp.
Qed.

(** The rest of the Cauchy product, for the inner index [l]. *)
Let rest (l N : nat) : R :=
  sum_f_R0
    (fun k =>
       sum_f_R0 (fun m => An l (S (m + k)) * Bn l (N - m)) (pred (N - k)))
    (pred N).

Lemma rest_bound (l N : nat) :
  (l < dim)%nat -> Rabs (rest l N) <= Reste_E s s N.
Proof.
  intros Hl. unfold rest, Reste_E.
  eapply Rle_trans; [apply Rsum_abs|]. apply sum_Rle. intros k _.
  eapply Rle_trans; [apply Rsum_abs|]. apply sum_Rle. intros m _.
  rewrite Rabs_mult. apply Rmult_le_compat; try apply Rabs_pos.
  - unfold An. rewrite <- entry_norm_minusM.
    apply exp_term_bound. exact Hl.
  - unfold Bn, s. apply exp_term_bound. exact Hj.
Qed.

(** The product of the partial sums, entry [(i, j)]. *)
Let product (N : nat) : R :=
  big_sum dim (fun l => exp_partial minusM N i l * exp_partial M N l j).

Lemma product_decomposition (N : nat) :
  (0 < N)%nat ->
  product N = eye i j + big_sum dim (fun l => rest l N).
Proof.
  intros HN. unfold product. rewrite <- (diagonal_part N).
  rewrite <- big_sum_plus. apply big_sum_ext. intros l _.
  unfold exp_partial, rest.
  apply (cauchy_finite (An l) (Bn l) N HN).
Qed.

Lemma product_cv_eye : Un_cv product (eye i j).
Proof.
  apply (Un_cv_dominated product
           (fun N => big_sum dim (fun _ => Reste_E s s N)) (eye i j) 1).
  - intros N HN. rewrite product_decomposition by lia.
    replace (eye i j + big_sum dim (fun l => rest l N) - eye i j)
      with (big_sum dim (fun l => rest l N)) by ring.
    eapply Rle_trans; [apply big_sum_abs|].
    apply big_sum_le. intros l Hl. apply rest_bound. exact Hl.
  - rewrite <- (big_sum_zero dim).
    apply (big_sum_cv dim (fun _ => Reste_E s s) (fun _ => 0)).
    intros l _. apply Reste_E_cv.
Qed.

Lemma product_cv_exp :
  Un_cv product (matmul (matrix_exp minusM) (matrix_exp M) i j).
Proof.
  unfold product, matmul.
  apply (big_sum_cv dim
           (fun l N => exp_partial minusM N i l * exp_partial M N l j)
           (fun l => matrix_exp minusM i l * matrix_exp M l j)).
  intros l Hl.
  apply (CV_mult (fun N => exp_partial minusM N i l)
                 (fun N => exp_partial M N l j)).
  - apply matrix_exp_cv; assumption.
  - apply matrix_exp_cv; assumption.
Qed.

Lemma matrix_exp_inverse_entry :
  matmul (matrix_exp (mscale (-1) M)) (matrix_exp M) i j = eye i j.
Proof.
  exact (UL_sequence _ _ _ product_cv_exp product_cv_eye).
Qed.

End Inverse.

(** A generator that is skew-symmetric has an orthogonal exponential. *)
Lemma skew_exp_orthogonal (K : matrix) (i j : nat) :
  (forall i j, K i j = - K j i) ->
  (i < dim)%nat -> (j < dim)%nat ->
  matmul (transpose (matrix_exp K)) (matrix_exp K) i j = eye i j.
Proof.
  intros Hskew Hi Hj.
  rewrite <- (matrix_exp_inverse_entry K i j Hi Hj).
  unfold matmul. apply big_sum_ext. intros l _. f_equal.
  unfold transpose at 1. rewrite <- matrix_exp_transpose.
  apply matrix_exp_ext. intros a b. unfold transpose, mscale.
  rewrite (Hskew b a). ring.
Qed.

End Dim.

(** In dimension 1 the matrix exponential is the exponential of the
    only entry. *)
Lemma mpow_dim1 (M : matrix) (k : nat) : mpow 1 M k 0%nat 0%nat = M 0%nat 0%nat ^ k.
Proof.
  induction k as [|k IH]; simpl; [reflexivity|].
  unfold matmul. simpl. rewrite IH. ring.
Qed.

Lemma matrix_exp_dim1 (M : matrix) :
  matrix_exp 1 M 0%nat 0%nat = exp (M 0%nat 0%nat).
Proof.
  apply matrix_exp_unique; [lia|lia|].
  apply (Un_cv_ext (E1 (M 0%nat 0%nat))); [|apply E1_cvg].
  intros N. unfold E1, exp_partial, exp_term. apply sum_eq. intros k _.
  rewrite mpow_dim1. reflexivity.
Qed.

(** Parameters of a Dissipative operator of size 1 with a positive
    diagonal: [off_diagonal = [[0]]], [diagonal = [1]]. *)
Definition positive_diagonal : operator :=
  Dissipative (fun _ _ => 0) (fun _ => 1).

End Koopman.

(* ------------------------------------------------------------------ *)
(** ** DLKoopmanRegressor: inference (lines 367-407) *)

Module Inference.

Import Tensor DLKoopmanRegressor.

Section Networks.

Variable _encoder : vec -> vec.
Variable _decoder : vec -> vec.
Variable _koopman_propagator : vec -> vec.

(** [_propagate_encoded_n_steps(encoded, n)]: the propagated batches,
    one per step, stacked. *)
Definition _propagate_encoded_n_steps (encoded : mat) (n : nat)
  : result (list mat) :=
  stack1 (propagate_loop _koopman_propagator encoded n).

(** [forward(x, n)]: decode the last step, [phi_seq[:, -1, :]]. *)
Definition forward (x : mat) (n : nat) : result mat :=
  let encoded := map _encoder x in
  phi_seq <- _propagate_encoded_n_steps encoded n ;;
  last_step <- getitem phi_seq (length phi_seq - 1) ;;
  Ok (map _decoder last_step).

(** [forward_all(x, n)]: decode every step into a tensor of shape
    (batch, n, input_size). *)
Definition forward_all (self : t) (x : mat) (n : nat) : result tensor3 :=
  let encoded := map _encoder x in
  phi_seq <- _propagate_encoded_n_steps encoded n ;;
  let decoded := zeros3 (length x) n (input_size self) in
  fold_left (rnn_step _decoder phi_seq) (seq 0 n) (Ok decoded).

End Networks.

End Inference.

(** The number of samples that windowing gives for one trajectory of
    length [T] with look-forward [L]. *)
Definition window_count (L T : nat) : nat := Nat.max (T - L) 1.

(* ------------------------------------------------------------------ *)
(** ** NNDMD.fit: the effective linear map of the decoder (lines 835-844) *)

Module EffectiveMap.

Import FFNN.

(** The consecutive pairs [(a, l0); (l0, l1); ...] of the list [a :: l]. *)
Fixpoint links (a : nat) (l : list nat) : list (nat * nat) :=
  match l with
  | [] => []
  | b :: l' => (a, b) :: links b l'
  end.

(** [layers[i].weight.detach().numpy()], by its shape
    [(out_features, in_features)]: of the modules of an [FFNN] only
    [nn.Linear] has the attribute [weight]. *)
Definition weight (m : module) : result (nat * nat) :=
  match m with
  | Linear in_features out_features _ => Ok (out_features, in_features)
  | _ => Raise AttributeError
  end.

(** [for i in range(len(layers)): decoder_weight_list.append(...)]. *)
Fixpoint decoder_weight_list (layers : list module)
  : result (list (nat * nat)) :=
  match layers with
  | [] => Ok []
  | m :: layers' =>
      w <- weight m ;;
      rest <- decoder_weight_list layers' ;;
      Ok (w :: rest)
  end.

(** The shape of [a @ b] for two matrices. *)
Definition matmul_shape (a b : nat * nat) : result (nat * nat) :=
  if (snd a =? fst b)%nat then Ok (fst a, snd b) else Raise ValueError.

(** The shape of [np.linalg.multi_dot(arrays)] on matrices: fewer than
    two arrays, or two neighbours that do not align, raise [ValueError]. *)
Definition multi_dot (arrays : list (nat * nat)) : result (nat * nat) :=
  if (length arrays <? 2)%nat then Raise ValueError
  else
    match arrays with
    | [] => Raise ValueError
    | a :: rest =>
        fold_left (fun acc b => s <- acc ;; matmul_shape s b) rest (Ok a)
    end.

(** The shape of [self._ur] before the rescaling by [std]. *)
Definition ur_shape (layers : list module) : result (nat * nat) :=
  decoder_weight_list <- decoder_weight_list layers ;;
  if (1 <? length decoder_weight_list)%nat
  then multi_dot (rev decoder_weight_list)
  else getitem decoder_weight_list 0.

End EffectiveMap.

(* ------------------------------------------------------------------ *)
(** ** NNDMD.predict (lines 851-869, 886-898) *)

Module Predict.

Import Tensor.

(** The inputs that [_convert_input_ndarray_to_tensor] tells apart: a
    numpy array with one, two or more axes, and a torch tensor with two
    axes or another number of them. *)
Inductive input : Type :=
| NDArray1 (x : vec)
| NDArray2 (x : mat)
| NDArrayHigher
| Tensor2 (x : mat)
| TensorOther.

Definition _convert_input_ndarray_to_tensor (x : input) : result mat :=
  match x with
  | NDArray1 v => Ok [v]                 (* x.reshape(1, -1) *)
  | NDArray2 m => Ok m
  | NDArrayHigher => Raise ValueError
  | Tensor2 m => Ok m
  | TensorOther => Raise ValueError
  end.

Section Regressor.

Variable _encoder : vec -> vec.
Variable _decoder : vec -> vec.
Variable _koopman_propagator : vec -> vec.

(** [self.normalize] and the statistics of [self.dm]. *)
Variable normalize : bool.
Variable mean std : vec.

Definition predict (x : input) (n : nat) : result mat :=
  x <- _convert_input_ndarray_to_tensor x ;;
  if normalize then
    let y := Normalize.normalize2 mean std x in
    y <- Inference.forward _encoder _decoder _koopman_propagator y n ;;
    Ok (Normalize.inverse2 mean std y)
  else
    Inference.forward _encoder _decoder _koopman_propagator x n.

End Regressor.

End Predict.

(* ================================================================== *)
(** * Properties *)

(** Arithmetic on lengths, with the tensor types unfolded. *)
Ltac len_lia :=
  unfold Tensor.tensor3, Tensor.mat, Tensor.vec, MaskedMSELoss.mask3 in *; lia.

(* ------------------------------------------------------------------ *)
(** ** FFNN: bias terms *)

Section FFNN_bias.

Import FFNN.
Local Open Scope string_scope.
Local Open Scope list_scope.

Lemma last_linear_snoc (layers : list module) (i o : nat) (b : bool) :
  last_linear (layers ++ [Linear i o b]) = Some (Linear i o b).
Proof.
  unfold last_linear. rewrite rev_app_distr. reflexivity.
Qed.

Lemma activations_dict_no_bias (activations : string) (act : module) :
  activations_dict activations = Ok act -> no_bias act.
Proof.
  unfold activations_dict.
  repeat match goal with
         | |- context [if ?c then _ else _] => destruct c
         end;
    intros H; inversion H; reflexivity.
Qed.

(** With [bias = False] the loop over the hidden sizes appends only
    modules without bias. *)
Lemma hidden_loop_no_bias (hidden_sizes : list nat) (activations : string)
    (act : module) (idx : list nat) (layers : list module) :
  no_bias act ->
  Forall no_bias layers ->
  Forall no_bias
    (fold_left (hidden_step hidden_sizes activations act false) idx layers).
Proof.
  intros Hact. revert layers.
  induction idx as [|i idx IH]; intros layers Hl; simpl.
  - exact Hl.
  - apply IH. unfold hidden_step.
    destruct (negb (activations =? "linear")).
    + repeat (apply Forall_app; split); auto; repeat constructor; exact Hact.
    + apply Forall_app; split; auto. repeat constructor.
Qed.

(** The last linear layer, by branch of [FFNN.__init__]: with at least
    one hidden layer it is built with [bias_last = False], whatever the
    activation; with no hidden layer the only layer is
    [Linear(input_size, output_size, bias)], whose bias is present
    exactly when the activation is not "linear"; and when the activation
    is "linear" no layer has a bias. *)
Lemma last_layer_bias_by_branch (input_size : nat) (hidden_sizes : list nat)
    (output_size : nat) (activations : string) (layers : list module) :
  init input_size hidden_sizes output_size activations = Ok layers ->
  (hidden_sizes <> [] ->
     last_linear layers = Some (Linear (last hidden_sizes 0) output_size false))
  /\ (hidden_sizes = [] ->
     layers = [Linear input_size output_size (negb (activations =? "linear"))])
  /\ (activations = "linear" -> Forall no_bias layers).
Proof.
  unfold init. intros H.
  destruct (activations_dict activations) as [act|e] eqn:Hact;
    simpl in H; [|discriminate].
  apply activations_dict_no_bias in Hact.
  destruct hidden_sizes as [|h0 hs].
  - simpl in H. inversion H; subst layers; clear H.
    split; [intros Hne; contradiction Hne; reflexivity|].
    split.
    + intros _. destruct (activations =? "linear"); reflexivity.
    + intros ->. simpl. repeat constructor.
  - change (length (h0 :: hs) =? 0)%nat with false in H.
    cbv iota in H. inversion H; subst layers; clear H.
    split; [intros _; apply last_linear_snoc|].
    split; [intros Hnil; discriminate Hnil|].
    intros ->.
    change ("linear" =? "linear") with true. cbv iota. simpl negb. cbv iota.
    apply Forall_app; split; [|repeat constructor].
    apply hidden_loop_no_bias; [exact Hact|].
    repeat constructor.
Qed.

(** C6, evaluated on the code: with the empty list of hidden sizes and
    any of the six activations other than "linear", [FFNN.__init__]
    builds the single layer [Linear(input_size, output_size)] with
    [bias = True], so the last linear layer carries a bias term.  The
    sibling branch, for a non-empty list of hidden sizes, builds the
    last layer with [bias_last = False] for the same activation, and
    the "linear" activation gives no bias anywhere. *)
Theorem C6_no_hidden_layer_bias (input_size output_size : nat) :
  (forall activations,
     In activations ["relu"; "sigmoid"; "tanh"; "swish"; "elu"; "mish"] ->
     init input_size [] output_size activations
     = Ok [Linear input_size output_size true]
     /\ last_linear [Linear input_size output_size true]
        = Some (Linear input_size output_size true)
     /\ has_bias (Linear input_size output_size true) = true)
  /\ (forall activations h hs layers,
        init input_size (h :: hs) output_size activations = Ok layers ->
        last_linear layers
        = Some (Linear (last (h :: hs) 0) output_size false))
  /\ (forall hidden_sizes layers,
        init input_size hidden_sizes output_size "linear" = Ok layers ->
        Forall no_bias layers).
Proof.
  split; [|split].
  - intros activations Hin. simpl in Hin.
    repeat (destruct Hin as [<-|Hin]; [repeat split|]). contradiction.
  - intros activations h hs layers H.
    destruct (last_layer_bias_by_branch _ _ _ _ H) as [Hlast _].
    apply Hlast. discriminate.
  - intros hidden_sizes layers H.
    destruct (last_layer_bias_by_branch _ _ _ _ H) as [_ [_ Hlin]].
    apply Hlin. reflexivity.
Qed.

End FFNN_bias.

(* ------------------------------------------------------------------ *)
(** ** NNDMD.fit on paired arrays *)

Section Fit_pairs.

Import Fit.

Variable row : Type.

Lemma stack_pairs_length (t0 t1 : list row) (idx : list nat)
    (trajs : list (list row)) :
  stack_pairs t0 t1 idx = Ok trajs -> length trajs = length idx.
Proof.
  revert trajs. induction idx as [|i idx IH]; intros trajs H; simpl in H.
  - inversion H. reflexivity.
  - destruct (getitem t0 i); simpl in H; [|discriminate].
    destruct (getitem t1 i); simpl in H; [|discriminate].
    destruct (stack_pairs t0 t1 idx) as [rest|]; simpl in H; [|discriminate].
    inversion H. simpl. f_equal. apply IH. reflexivity.
Qed.

Lemma stack_pairs_ok (t0 t1 : list row) (idx : list nat) :
  Forall (fun i => i < length t0 /\ i < length t1) idx ->
  exists trajs, stack_pairs t0 t1 idx = Ok trajs.
Proof.
  induction 1 as [|i idx [H0 H1] _ [rest IH]]; simpl.
  - eexists; reflexivity.
  - unfold getitem.
    destruct (nth_error t0 i) eqn:E0;
      [|apply nth_error_None in E0; lia].
    destruct (nth_error t1 i) eqn:E1;
      [|apply nth_error_None in E1; lia].
    simpl. rewrite IH. simpl. eexists; reflexivity.
Qed.

(** On two 2-D arrays of [N] rows each, [fit] builds [N - 1]
    trajectories and sets [n_samples_ = N - 1]: the comprehension ranges
    over [range(len(x) - 1)], so for [N >= 1] the last pair
    [(x[N-1], y[N-1])] is left out. *)
Lemma fit_paired_count (x y : list row) :
  length x = length y ->
  exists d, fit_dispatch (NDArray2 x) (NDArray2 y) = Ok d
            /\ length (data_tr d) = length x - 1
            /\ n_samples_ d = length x - 1.
Proof.
  intros Hlen. unfold fit_dispatch.
  destruct (@stack_pairs_ok x y (range (Z.of_nat (length x) - 1))) as [trajs Ht].
  - unfold range. apply Forall_forall. intros i Hi.
    apply in_seq in Hi. lia.
  - rewrite Ht. simpl. eexists. split; [reflexivity|]. simpl.
    apply stack_pairs_length in Ht. unfold range in Ht.
    rewrite length_seq in Ht. lia.
Qed.

End Fit_pairs.

(** C7, evaluated on the code: for three (state, next-state) pairs, [fit]
    keeps two trajectories and sets [n_samples_ = 2]; the pair
    [(x[2], y[2])] is dropped. *)
Theorem C7_paired_fit_drops_last_pair :
  Fit.fit_dispatch (Fit.NDArray2 [[0%Z]; [1%Z]; [2%Z]])
                   (Fit.NDArray2 [[1%Z]; [2%Z]; [3%Z]])
  = Ok {| Fit.data_tr := [[[0%Z]; [1%Z]]; [[1%Z]; [2%Z]]];
          Fit.data_val := None;
          Fit.n_samples_ := 2 |}.
Proof. reflexivity. Qed.

(* ------------------------------------------------------------------ *)
(** ** NNDMD: properties read before [fit] *)

Section Not_fitted.

Import NNDMD.
Local Open Scope string_scope.

(** The five properties guarded by [check_is_fitted] raise
    [NotFittedError] on an object that lacks their attribute. *)
Lemma guarded_not_fitted (o : object) :
  hasattr o "_coef_" = false ->
  hasattr o "_eigenvalues_" = false ->
  hasattr o "_eigenvectors_" = false ->
  hasattr o "_unnormalized_modes" = false ->
  hasattr o "_ur" = false ->
  coef_ o = Raise NotFittedError
  /\ eigenvalues_ o = Raise NotFittedError
  /\ eigenvectors_ o = Raise NotFittedError
  /\ unnormalized_modes o = Raise NotFittedError
  /\ ur o = Raise NotFittedError.
Proof.
  intros H1 H2 H3 H4 H5.
  unfold coef_, eigenvalues_, eigenvectors_, unnormalized_modes, ur,
    check_is_fitted.
  rewrite H1, H2, H3, H4, H5. repeat split.
Qed.

(** [state_matrix_] has no guard: on an object without [_state_matrix_]
    the attribute read raises [AttributeError]. *)
Lemma state_matrix_unguarded (o : object) :
  hasattr o "_state_matrix_" = false ->
  state_matrix_ o = Raise AttributeError.
Proof.
  unfold state_matrix_, getattr, hasattr.
  destruct (lookup "_state_matrix_" o); [discriminate|reflexivity].
Qed.

(** After the assignments that end [fit], every property returns the
    stored array. *)
Lemma fitted_properties (o : object) (a v w u m : list (list Q)) :
  let o' := fit_store o a v w u m in
  state_matrix_ o' = Ok (Array a)
  /\ coef_ o' = Ok (Array a)
  /\ eigenvalues_ o' = Ok (Array v)
  /\ eigenvectors_ o' = Ok (Array w)
  /\ ur o' = Ok (Array u)
  /\ unnormalized_modes o' = Ok (Array m).
Proof. repeat split. Qed.

(** C8, evaluated on the code: on a freshly constructed [NNDMD], the
    properties [coef_], [eigenvalues_], [eigenvectors_], [ur] and
    [unnormalized_modes] raise [NotFittedError], but [state_matrix_]
    raises a plain [AttributeError]. *)
Theorem C8_state_matrix_before_fit :
  state_matrix_ init = Raise AttributeError
  /\ coef_ init = Raise NotFittedError
  /\ eigenvalues_ init = Raise NotFittedError
  /\ eigenvectors_ init = Raise NotFittedError
  /\ ur init = Raise NotFittedError
  /\ unnormalized_modes init = Raise NotFittedError.
Proof. repeat split. Qed.

End Not_fitted.

(* ------------------------------------------------------------------ *)
(** ** check_list_of_nparray *)

Section Check_data.

Import CheckData.
Local Open Scope string_scope.

Variable data : Type.
Variable astype32 : data -> data.

(** The test [x.dtype is np.float64] is false for every array, so no
    warning is ever issued. *)
Lemma check_never_warns (data_list : list (ndarray data)) :
  fst (check_list_of_nparray astype32 data_list) = [].
Proof.
  unfold check_list_of_nparray.
  destruct (existsb (@iscomplexobj data) data_list); [reflexivity|].
  replace (existsb _ data_list) with false; [reflexivity|].
  symmetry. induction data_list as [|x l IH]; [reflexivity|].
  simpl. exact IH.
Qed.

(** A complex array anywhere in the list raises [TypeError]. *)
Lemma check_complex_raises (data_list : list (ndarray data)) :
  existsb (@iscomplexobj data) data_list = true ->
  check_list_of_nparray astype32 data_list = ([], Raise TypeError).
Proof.
  intros H. unfold check_list_of_nparray. rewrite H. reflexivity.
Qed.

(** A real array whose dtype name lacks "float" raises [TypeError]. *)
Lemma check_non_float_raises (data_list : list (ndarray data)) :
  existsb (@iscomplexobj data) data_list = false ->
  existsb (fun x => negb (is_float (arr_dtype x))) data_list = true ->
  check_list_of_nparray astype32 data_list = ([], Raise TypeError).
Proof.
  intros Hc Hn.
  rewrite (surjective_pairing (check_list_of_nparray astype32 data_list)), check_never_warns.
  f_equal. unfold check_list_of_nparray. rewrite Hc. simpl.
  clear Hc. induction data_list as [|x l IH]; [discriminate|].
  simpl in *. unfold is_float in Hn.
  destruct (contains "float" (name (arr_dtype x))); simpl in *.
  - rewrite (IH Hn). reflexivity.
  - reflexivity.
Qed.

(** On a list of floating-point arrays the call returns the list with
    every float64 array converted to float32. *)
Lemma check_floats_converted (data_list : list (ndarray data)) :
  forallb (fun x => is_float (arr_dtype x)) data_list = true ->
  check_list_of_nparray astype32 data_list = ([], Ok (map (downcast astype32) data_list))
  /\ Forall (fun x => arr_dtype x <> float64)
            (map (downcast astype32) data_list).
Proof.
  intros Hf. split.
  - rewrite (surjective_pairing (check_list_of_nparray astype32 data_list)), check_never_warns.
    f_equal. unfold check_list_of_nparray.
    replace (existsb (@iscomplexobj data) data_list) with false.
    + simpl. induction data_list as [|x l IH]; [reflexivity|].
      simpl in *. apply andb_prop in Hf. destruct Hf as [Hx Hl].
      unfold is_float in Hx. rewrite Hx. simpl.
      rewrite (IH Hl). reflexivity.
    + symmetry. induction data_list as [|x l IH]; [reflexivity|].
      simpl in *. apply andb_prop in Hf. destruct Hf as [Hx Hl].
      rewrite (IH Hl), orb_false_r.
      unfold iscomplexobj. destruct (arr_dtype x); try reflexivity;
        discriminate Hx.
  - apply Forall_forall. intros y Hy. apply in_map_iff in Hy.
    destruct Hy as [x [<- _]]. unfold downcast.
    destruct (arr_dtype x) eqn:E; simpl; try rewrite E; discriminate.
Qed.

(** C9, evaluated on the code: a list holding one float64 trajectory is
    returned converted to float32, and no warning is issued. *)
Theorem C9_float64_converted_without_warning (d : data) :
  check_list_of_nparray astype32 [{| arr_dtype := float64; arr_data := d |}]
  = ([], Ok [{| arr_dtype := float32; arr_data := astype32 d |}]).
Proof. reflexivity. Qed.

End Check_data.

(* ------------------------------------------------------------------ *)
(** ** Windowing of a trajectory *)

Section Windowing_props.

Import SeqDataModule.

Variable state : Type.
Variable zero_state : state.

Lemma length_slice (s : list state) (lo hi : nat) :
  length (slice s lo hi) = Nat.min (hi - lo) (length s - lo).
Proof.
  unfold slice. rewrite length_firstn, length_skipn. reflexivity.
Qed.

(** The inner loop appends one window per offset, in order. *)
Lemma fold_append_window (seq : list state) (look_back look_forward : nat)
    (idx : list nat) (acc : list (list state) * list (list state)) :
  fold_left (append_window seq look_back look_forward) idx acc
  = (fst acc ++ map (fun i => slice seq i (i + look_back)) idx,
     snd acc ++
       map (fun i => slice seq (i + look_back) (i + look_back + look_forward))
           idx).
Proof.
  revert acc. induction idx as [|i idx IH]; intros acc; simpl.
  - rewrite !app_nil_r. destruct acc; reflexivity.
  - rewrite IH. unfold append_window. simpl. rewrite <- !app_assoc.
    reflexivity.
Qed.

Lemma delayed_lists_single (seq : list state) (lb lf : nat) :
  delayed_lists [seq] lb lf = window_step lb lf ([], []) seq.
Proof. reflexivity. Qed.

(** The windows of one trajectory, when it is long enough. *)
Lemma delayed_lists_long (seq : list state) (L : nat) :
  L + 1 <= length seq ->
  delayed_lists [seq] look_back L
  = (map (fun i => slice seq i (i + 1)) (List.seq 0 (length seq - L)),
     map (fun i => slice seq (i + 1) (i + 1 + L)) (List.seq 0 (length seq - L))).
Proof.
  intros H. rewrite delayed_lists_single. unfold window_step, look_back.
  match goal with
  | |- context [(1 <=? ?z)%Z] => destruct (Z.leb_spec 1 z); [|lia]
  end.
  rewrite fold_append_window. simpl fst. simpl snd. unfold range.
  replace (Z.to_nat (Z.of_nat (length seq) - Z.of_nat 1 - Z.of_nat L + 1))
    with (length seq - L) by lia.
  reflexivity.
Qed.

(** The single sample of a trajectory that is too short. *)
Lemma delayed_lists_short (seq : list state) (L : nat) :
  length seq < L + 1 ->
  delayed_lists [seq] look_back L = ([slice seq 0 1], [skipn 1 seq]).
Proof.
  intros H. rewrite delayed_lists_single. unfold window_step, look_back.
  match goal with
  | |- context [(1 <=? ?z)%Z] => destruct (Z.leb_spec 1 z); [lia|]
  end.
  reflexivity.
Qed.

(** The windows of a list of trajectories are those of each trajectory,
    one after the other. *)
Lemma window_step_app (look_back look_forward : nat) (seq : list state)
    (acc : list (list state) * list (list state)) :
  window_step look_back look_forward acc seq
  = (fst acc ++ fst (window_step look_back look_forward ([], []) seq),
     snd acc ++ snd (window_step look_back look_forward ([], []) seq)).
Proof.
  unfold window_step.
  destruct (1 <=? _)%Z.
  - rewrite !fold_append_window. reflexivity.
  - reflexivity.
Qed.

Lemma fold_window_step_acc (look_back look_forward : nat)
    (data_list : list (list state))
    (acc : list (list state) * list (list state)) :
  fold_left (window_step look_back look_forward) data_list acc
  = (fst acc ++ fst (delayed_lists data_list look_back look_forward),
     snd acc ++ snd (delayed_lists data_list look_back look_forward)).
Proof.
  unfold delayed_lists. revert acc.
  induction data_list as [|s l IH]; intros acc; simpl.
  - rewrite !app_nil_r. destruct acc; reflexivity.
  - rewrite (IH (window_step _ _ acc s)).
    rewrite (IH (window_step _ _ ([], []) s)).
    rewrite (window_step_app _ _ s acc). simpl.
    rewrite !app_assoc. reflexivity.
Qed.

Lemma delayed_lists_cons (look_back look_forward : nat) (seq : list state)
    (data_list : list (list state)) :
  delayed_lists (seq :: data_list) look_back look_forward
  = (fst (delayed_lists [seq] look_back look_forward)
       ++ fst (delayed_lists data_list look_back look_forward),
     snd (delayed_lists [seq] look_back look_forward)
       ++ snd (delayed_lists data_list look_back look_forward)).
Proof.
  unfold delayed_lists at 1. simpl. apply fold_window_step_acc.
Qed.

Lemma homogeneous_same_length (l : list (list state)) (n : nat) :
  Forall (fun x => length x = n) l -> homogeneous l = true.
Proof.
  destruct l as [|x l]; [reflexivity|]. intros H. simpl.
  inversion H as [|? ? Hx Hl]; subst.
  apply forallb_forall. intros y Hy.
  rewrite Forall_forall in Hl. rewrite (Hl y Hy). apply Nat.eqb_refl.
Qed.

(** Sequences of one length are not padded. *)
Lemma pad_sequence_same_length (l : list (list state)) (n : nat) :
  l <> [] ->
  Forall (fun y => length y = n) l ->
  pad_sequence zero_state l = Ok l.
Proof.
  intros Hne H. unfold pad_sequence.
  destruct l as [|y0 l0]; [contradiction Hne; reflexivity|].
  f_equal. set (l := y0 :: l0) in *.
  assert (Hmax : list_max (map (@length state) l) <= n).
  { apply list_max_le. apply Forall_map.
    eapply Forall_impl; [|exact H]. simpl. intros; lia. }
  transitivity (map (fun y : list state => y) l); [|apply map_id].
  apply map_ext_in. intros y Hy.
  rewrite Forall_forall in H. unfold pad_to.
  replace (list_max (map (@length state) l) - length y) with 0
    by (rewrite (H y Hy); lia).
  apply app_nil_r.
Qed.

Lemma map_seq_nth_error {B : Type} (f : nat -> B) (n i : nat) :
  i < n -> nth_error (map f (List.seq 0 n)) i = Some (f i).
Proof.
  intros H. rewrite nth_error_map, nth_error_seq.
  destruct (Nat.ltb_spec i n); [reflexivity|lia].
Qed.

Lemma map_seq_const {B : Type} (f : nat -> B) (b : B) (n : nat) :
  (forall i, i < n -> f i = b) -> map f (List.seq 0 n) = repeat b n.
Proof.
  intros H. apply nth_error_ext. intros i.
  destruct (Nat.lt_ge_cases i n) as [Hi|Hi].
  - rewrite map_seq_nth_error by exact Hi.
    rewrite nth_error_repeat by exact Hi. f_equal. apply H, Hi.
  - transitivity (@None B); [|symmetry]; apply nth_error_None.
    + rewrite length_map, length_seq. exact Hi.
    + rewrite repeat_length. exact Hi.
Qed.

(** C1: windowing one trajectory [seq] of length [T] with look-back 1 and
    look-forward [L] succeeds.  When [T > L + 1] it gives [T - L] samples,
    the one at offset [i] being the state [seq[i:i+1]] with the [L] next
    states [seq[i+1:i+1+L]], each of valid length [L].  When [T <= L + 1]
    it gives one sample: the first state, and as its future sequence the
    states from the second to the last, [seq[1:]], of valid length
    [T - 1].  Lengths are natural numbers: for the empty trajectory
    [T - 1] is [0]. *)
Theorem C1_windowing (seq : list state) (L : nat) :
  exists d,
    convert_seq_list_to_delayed_data zero_state [seq] look_back L = Ok d
    /\ (L + 1 < length seq ->
          length (time_delayed_x d) = length seq - L
          /\ length (time_delayed_yseq d) = length seq - L
          /\ time_delayed_yseq_lens d = repeat L (length seq - L)
          /\ forall i, i < length seq - L ->
               nth_error (time_delayed_x d) i = Some (slice seq i (i + 1))
               /\ nth_error (time_delayed_yseq d) i
                  = Some (slice seq (i + 1) (i + 1 + L)))
    /\ (length seq <= L + 1 ->
          time_delayed_x d = [firstn 1 seq]
          /\ time_delayed_yseq d = [skipn 1 seq]
          /\ time_delayed_yseq_lens d = [length seq - 1]).
Proof.
  unfold convert_seq_list_to_delayed_data.
  destruct (Nat.le_gt_cases (L + 1) (length seq)) as [Hlong|Hshort].
  - rewrite (delayed_lists_long seq L Hlong).
    set (n := length seq - L).
    set (xs := map (fun i => slice seq i (i + 1)) (List.seq 0 n)).
    set (ys := map (fun i => slice seq (i + 1) (i + 1 + L)) (List.seq 0 n)).
    assert (Hxs : Forall (fun x => length x = 1) xs).
    { apply Forall_forall. intros x Hx. apply in_map_iff in Hx.
      destruct Hx as [i [<- Hi]]. apply in_seq in Hi.
      rewrite length_slice. subst n. lia. }
    assert (Hys : Forall (fun y => length y = L) ys).
    { apply Forall_forall. intros y Hy. apply in_map_iff in Hy.
      destruct Hy as [i [<- Hi]]. apply in_seq in Hi.
      rewrite length_slice. subst n. lia. }
    assert (Hne : ys <> []).
    { intros E. apply (f_equal (@length _)) in E. subst ys.
      rewrite length_map, length_seq in E. simpl in E. subst n. lia. }
    rewrite (homogeneous_same_length Hxs). simpl negb. cbv iota.
    rewrite (pad_sequence_same_length Hne Hys). simpl.
    eexists. split; [reflexivity|]. simpl. split.
    + intros _. subst xs ys.
      rewrite !length_map, !length_seq. repeat split.
      * rewrite map_map. apply map_seq_const. intros i Hi.
        rewrite length_slice. subst n. lia.
      * apply (map_seq_nth_error (fun i => slice seq i (i + 1))).
        assumption.
      * apply (map_seq_nth_error (fun i => slice seq (i + 1) (i + 1 + L))).
        assumption.
    + intros Hle. assert (Hn : n = 1) by (subst n; lia).
      subst xs ys. rewrite Hn. simpl. unfold slice. simpl.
      assert (Hall : firstn L (skipn 1 seq) = skipn 1 seq).
      { apply firstn_all2. rewrite length_skipn. lia. }
      change (match seq with [] => [] | _ :: l => l end) with (skipn 1 seq).
      rewrite Nat.sub_0_r, Hall. repeat split.
      f_equal. apply length_skipn.
  - rewrite (delayed_lists_short seq L Hshort). simpl negb. cbv iota.
    rewrite (@pad_sequence_same_length [skipn 1 seq] (length (skipn 1 seq)));
      [|discriminate|repeat constructor].
    simpl. eexists. split; [reflexivity|]. simpl. split.
    + intros H. lia.
    + intros _. repeat split.
      change (match seq with [] => [] | _ :: l => l end) with (skipn 1 seq).
      f_equal. apply length_skipn.
Qed.

(** The empty trajectory also gives one sample; it has no current state
    and no future state. *)
Lemma windowing_empty_trajectory (L : nat) :
  convert_seq_list_to_delayed_data zero_state [[]] look_back L
  = Ok {| time_delayed_x := [[]];
          time_delayed_yseq := [[]];
          time_delayed_yseq_lens := [0] |}.
Proof.
  unfold convert_seq_list_to_delayed_data.
  rewrite delayed_lists_short by (simpl; lia). reflexivity.
Qed.

End Windowing_props.

Lemma C1_windowing_witness :
  exists d,
    SeqDataModule.convert_seq_list_to_delayed_data 0 [[10; 20; 30; 40]]
      SeqDataModule.look_back 2 = Ok d
    /\ length (SeqDataModule.time_delayed_x d) = 2
    /\ SeqDataModule.time_delayed_yseq_lens d = [2; 2].
Proof.
  destruct (C1_windowing 0 [10; 20; 30; 40] 2) as [d [Hd [Hlong _]]].
  exists d. split; [exact Hd|].
  destruct Hlong as [Hx [_ [Hlens _]]]; [simpl; lia|].
  split; [exact Hx|exact Hlens].
Defined.

(* ------------------------------------------------------------------ *)
(** ** Normalization: the round trip *)

Section Normalize_props.

Import Tensor Normalize.
Local Open Scope Q_scope.

Lemma guard_positive (s : Q) : 0 <= s -> 0 < guard s.
Proof.
  intros Hs. unfold guard, Qltb.
  destruct (Qle_bool (1 # 1000000) s) eqn:E; simpl.
  - apply Qle_bool_iff in E.
    apply Qlt_le_trans with (1 # 1000000); [reflexivity|exact E].
  - apply Qlt_le_trans with (0 + (1 # 1000)); [reflexivity|].
    apply Qplus_le_compat; [exact Hs|apply Qle_refl].
Qed.

Lemma fold_Qmax_nonneg (t : vec) (q : Q) :
  0 <= q -> 0 <= fold_left Qmax t q.
Proof.
  revert q. induction t as [|a t IH]; intros q Hq; simpl.
  - exact Hq.
  - apply IH. apply Q.max_le_iff. left. exact Hq.
Qed.

(** The statistics keep the number of dimensions. *)
Lemma prepare_stats_lengths (normalize_mode : string) (factor : Q)
    (mean0 std0 mean std : vec) :
  prepare_stats normalize_mode factor mean0 std0 = Ok (mean, std) ->
  length std = length std0 /\ length mean = length mean0.
Proof.
  unfold prepare_stats. intros H.
  destruct (normalize_mode =? "max")%string.
  - destruct (map (fun s => s * factor) std0) as [|q t] eqn:E;
      simpl in H; [discriminate|].
    inversion H; subst mean std; clear H.
    apply (f_equal (@length Q)) in E. rewrite length_map in E.
    simpl in E |- *. rewrite !length_map. split; [symmetry; exact E|reflexivity].
  - simpl in H. inversion H; subst mean std; clear H.
    rewrite !length_map. split; reflexivity.
Qed.

(** The scale that [prepare_data] builds is strictly positive when the
    stabilization factor and the standard deviations it starts from are
    not negative; the mean is zero. *)
Lemma prepare_stats_positive (normalize_mode : string) (factor : Q)
    (mean0 std0 mean std : vec) :
  prepare_stats normalize_mode factor mean0 std0 = Ok (mean, std) ->
  0 <= factor ->
  Forall (fun s => 0 <= s) std0 ->
  Forall (fun s => 0 < s) std
  /\ length std = length std0
  /\ length mean = length mean0
  /\ Forall (fun m => m == 0) mean.
Proof.
  unfold prepare_stats. intros H Hf Hstd.
  assert (Hscaled : Forall (fun s => 0 <= s) (map (fun s => s * factor) std0)).
  { apply Forall_map. eapply Forall_impl; [|exact Hstd]. simpl.
    intros s Hs. apply Qmult_le_0_compat; assumption. }
  assert (Hmean : length (map (fun m => m * 0) mean0) = length mean0
                  /\ Forall (fun m => m == 0) (map (fun m => m * 0) mean0)).
  { split; [apply length_map|]. apply Forall_map, Forall_forall.
    intros m _. simpl. ring. }
  destruct (normalize_mode =? "max")%string.
  - destruct (map (fun s => s * factor) std0) as [|q t] eqn:E;
      simpl in H; [discriminate|].
    inversion H; subst mean std; clear H.
    assert (Hm : 0 <= fold_left Qmax t q).
    { apply fold_Qmax_nonneg. inversion Hscaled; assumption. }
    split; [|split; [|exact Hmean]].
    + constructor.
      * apply guard_positive. rewrite Qmult_1_l. exact Hm.
      * rewrite !Forall_map. apply Forall_forall. intros x _.
        apply guard_positive. rewrite Qmult_1_l. exact Hm.
    + apply (f_equal (@length Q)) in E. rewrite length_map in E.
      simpl in E |- *. rewrite !length_map. symmetry. exact E.
  - simpl in H. inversion H; subst mean std; clear H.
    split; [|split; [|exact Hmean]].
    + apply Forall_map. eapply Forall_impl; [|exact Hscaled]. simpl.
      intros s Hs. apply guard_positive, Hs.
    + rewrite !length_map. reflexivity.
Qed.

(** Normalizing and then inverting returns the input, entry by entry,
    for any scale without zero entry. *)
Lemma roundtrip1 (mean std x : vec) :
  Forall (fun s => ~ s == 0) std ->
  length mean = length std ->
  length x = length std ->
  Forall2 Qeq (inverse1 mean std (normalize1 mean std x)) x.
Proof.
  intros Hs. revert mean x.
  induction Hs as [|s std Hs0 _ IH]; intros mean x Hm Hx.
  - destruct x; [constructor|discriminate].
  - destruct x as [|a x]; [discriminate|].
    destruct mean as [|m mean]; [discriminate|].
    simpl in *. constructor.
    + field. exact Hs0.
    + apply IH; lia.
Qed.

Lemma roundtrip2 (mean std : vec) (x : mat) :
  Forall (fun s => ~ s == 0) std ->
  length mean = length std ->
  Forall (fun r => length r = length std) x ->
  Forall2 (Forall2 Qeq) (inverse2 mean std (normalize2 mean std x)) x.
Proof.
  intros Hs Hm Hx. induction Hx as [|r x Hr _ IH]; simpl.
  - constructor.
  - constructor; [apply roundtrip1; assumption|exact IH].
Qed.

Lemma roundtrip3 (mean std : vec) (x : tensor3) :
  Forall (fun s => ~ s == 0) std ->
  length mean = length std ->
  Forall (Forall (fun r => length r = length std)) x ->
  Forall2 (Forall2 (Forall2 Qeq)) (inverse3 mean std (normalize3 mean std x)) x.
Proof.
  intros Hs Hm Hx. induction Hx as [|r x Hr _ IH]; simpl.
  - constructor.
  - constructor; [apply roundtrip2; assumption|exact IH].
Qed.

Lemma positive_nonzero (std : vec) :
  Forall (fun s => 0 < s) std -> Forall (fun s => ~ s == 0) std.
Proof.
  intros H. eapply Forall_impl; [|exact H]. simpl.
  intros s Hs E. rewrite E in Hs. discriminate Hs.
Qed.

(** C5: for either normalization mode, take the mean and the scale that
    [prepare_data] builds from the per-dimension statistics.  Every entry
    of the scale is strictly positive after the guard (the standard
    deviations that numpy returns and the stabilization factor are not
    negative), and given a scale with strictly positive entries the
    inverse transform applied to the normalized tensor returns the
    tensor, entry by entry in rational arithmetic: for a vector, for a
    batch of vectors and for a batch of sequences, over whose last axis
    the statistics broadcast. *)
Theorem C5_normalize_roundtrip (normalize_mode : string) (factor : Q)
    (mean0 std0 mean std : vec) :
  prepare_stats normalize_mode factor mean0 std0 = Ok (mean, std) ->
  length mean0 = length std0 ->
  (0 <= factor -> Forall (fun s => 0 <= s) std0 -> Forall (fun s => 0 < s) std)
  /\ (Forall (fun s => 0 < s) std ->
      (forall x : vec,
         length x = length std ->
         Forall2 Qeq (inverse1 mean std (normalize1 mean std x)) x)
      /\ (forall x : mat,
           Forall (fun r => length r = length std) x ->
           Forall2 (Forall2 Qeq) (inverse2 mean std (normalize2 mean std x)) x)
      /\ (forall x : tensor3,
           Forall (Forall (fun r => length r = length std)) x ->
           Forall2 (Forall2 (Forall2 Qeq))
                   (inverse3 mean std (normalize3 mean std x)) x)).
Proof.
  intros H Hlen.
  destruct (@prepare_stats_lengths _ _ _ _ _ _ H) as [Hls Hlm].
  assert (Hml : length mean = length std) by lia.
  split.
  - intros Hf Hstd.
    apply (@prepare_stats_positive _ _ _ _ _ _ H Hf Hstd).
  - intros Hpos. assert (Hnz := positive_nonzero Hpos).
    split; [|split].
    + intros x Hx. apply roundtrip1; assumption.
    + intros x Hx. apply roundtrip2; assumption.
    + intros x Hx. apply roundtrip3; assumption.
Qed.

End Normalize_props.

Lemma C5_normalize_roundtrip_witness :
  Forall (fun s => 0 < s)%Q [2; (1 # 1000)]%Q
  /\ Forall2 Qeq
       (Normalize.inverse1 [0 * 0; 3 * 0]%Q [2; (1 # 1000)]%Q
          (Normalize.normalize1 [0 * 0; 3 * 0]%Q [2; (1 # 1000)]%Q [5; 7]%Q))
       [5; 7]%Q.
Proof.
  assert (H : Normalize.prepare_stats "equal" 2 [0; 3]%Q [1; 0]%Q
              = Ok ([0 * 0; 3 * 0]%Q, [1 * 2; Normalize.guard (0 * 2)]%Q))
    by reflexivity.
  destruct (@C5_normalize_roundtrip "equal" 2%Q [0; 3]%Q [1; 0]%Q _ _ H eq_refl)
    as [Hpos Hround].
  assert (Hp : Forall (fun s => 0 < s)%Q [2; (1 # 1000)]%Q).
  { apply Hpos; [discriminate|repeat constructor; discriminate]. }
  split; [exact Hp|].
  destruct (Hround Hp) as [H1 _].
  exact (H1 [5; 7]%Q eq_refl).
Defined.

(* ------------------------------------------------------------------ *)
(** ** MaskedMSELoss: the masked mean *)

Section Masked_props.

Import Tensor MaskedMSELoss.
Local Open Scope Q_scope.

Lemma zip_where_false {A : Type} (r : list A) (v : vec) :
  sum (zip_with where0 (map (fun _ => false) r) v) == 0.
Proof.
  revert v. induction r as [|a r IH]; intros v; simpl; [reflexivity|].
  destruct v as [|q v]; simpl; [reflexivity|].
  rewrite IH. reflexivity.
Qed.

Lemma zip_where_true (r t : vec) :
  zip_with where0 (map (fun _ => true) r) (sqdiff1 r t) = sqdiff1 r t.
Proof.
  unfold sqdiff1.
  revert t. induction r as [|a r IH]; intros t; simpl; [reflexivity|].
  destruct t as [|b t]; simpl; [reflexivity|].
  f_equal. apply IH.
Qed.

Lemma count1_false {A : Type} (r : list A) :
  count1 (map (fun _ => false) r) = 0%nat.
Proof. induction r; simpl; auto. Qed.

Lemma count1_true {A : Type} (r : list A) :
  count1 (map (fun _ => true) r) = length r.
Proof. unfold count1. induction r; simpl; auto. Qed.

Lemma sample_mask_0 (o : mat) :
  sample_mask 0 o = map (map (fun _ => false)) o.
Proof. reflexivity. Qed.

Lemma sample_mask_S (k : nat) (r : vec) (o : mat) :
  sample_mask (S k) (r :: o) = map (fun _ => true) r :: sample_mask k o.
Proof.
  unfold sample_mask, fill_prefix. simpl. rewrite map_map. reflexivity.
Qed.

Lemma count2_sample_mask (k : nat) (o : mat) :
  count2 (sample_mask k o) = numel2 (firstn k o).
Proof.
  revert k. induction o as [|r o IH]; intros k.
  - destruct k; reflexivity.
  - destruct k as [|k].
    + rewrite sample_mask_0. unfold count2. simpl.
      rewrite count1_false. simpl.
      specialize (IH 0%nat). rewrite sample_mask_0 in IH.
      unfold count2 in IH. rewrite IH. reflexivity.
    + rewrite sample_mask_S. unfold count2, numel2 in *. simpl.
      rewrite count1_true. f_equal. apply IH.
Qed.

Lemma sum2_sample_mask (k : nat) (o t : mat) :
  sum2 (zip_with (zip_with where0) (sample_mask k o) (sqdiff2 o t))
  == sum2 (sqdiff2 (firstn k o) (firstn k t)).
Proof.
  revert k t. induction o as [|r o IH]; intros k t.
  - destruct k; reflexivity.
  - destruct t as [|rt t].
    + destruct k; reflexivity.
    + destruct k as [|k].
      * rewrite sample_mask_0. unfold sum2. simpl.
        rewrite zip_where_false.
        specialize (IH 0%nat t). rewrite sample_mask_0 in IH.
        unfold sum2 in IH. simpl in IH. rewrite IH. reflexivity.
      * rewrite sample_mask_S. unfold sum2 in *. simpl.
        rewrite zip_where_true. rewrite (IH k t). reflexivity.
Qed.

Lemma update_at_app {A : Type} (f : A -> A) (pre : list A) (a : A)
    (post : list A) :
  update_at f (length pre) (pre ++ a :: post) = Ok (pre ++ f a :: post).
Proof.
  induction pre as [|p pre IH]; simpl; [reflexivity|].
  rewrite IH. reflexivity.
Qed.

(** The mask loop fills, for sample [i], the first
    [length_used target_lens[i]] positions. *)
Lemma mask_loop_spec (self : t) (target_lens : list nat) :
  forall pre post : mask3,
    (length target_lens <= length post)%nat ->
    mask_loop self (pre ++ post) (length pre) target_lens
    = Ok (pre
          ++ zip_with (fun len m => fill_prefix (length_used self len) m)
                      target_lens post
          ++ skipn (length target_lens) post)%list.
Proof.
  induction target_lens as [|len lens IH]; intros pre post H.
  - reflexivity.
  - destruct post as [|m post]; [simpl in H; lia|].
    simpl mask_loop. rewrite update_at_app. simpl bind.
    replace (S (length pre)) with (length (pre ++ [fill_prefix (length_used self len) m]))
      by (rewrite length_app; simpl; lia).
    replace (pre ++ fill_prefix (length_used self len) m :: post)%list
      with ((pre ++ [fill_prefix (length_used self len) m]) ++ post)%list
      by (rewrite <- app_assoc; reflexivity).
    rewrite IH by (simpl in H; lia).
    rewrite <- app_assoc. reflexivity.
Qed.

(** More lengths than samples: the assignment at the first index past
    the batch raises [IndexError]. *)
Lemma mask_loop_overflow (self : t) (target_lens : list nat) :
  forall pre post : mask3,
    (length post < length target_lens)%nat ->
    mask_loop self (pre ++ post) (length pre) target_lens = Raise IndexError.
Proof.
  induction target_lens as [|len lens IH]; intros pre post H.
  - simpl in H. lia.
  - destruct post as [|m post].
    + simpl mask_loop. rewrite app_nil_r.
      assert (E : forall (l : mask3) f, update_at f (length l) l = Raise IndexError).
      { intros l f. induction l as [|a l IHl]; simpl; [reflexivity|].
        rewrite IHl. reflexivity. }
      rewrite E. reflexivity.
    + simpl mask_loop. rewrite update_at_app. simpl bind.
      replace (S (length pre)) with (length (pre ++ [fill_prefix (length_used self len) m]))
        by (rewrite length_app; simpl; lia).
      replace (pre ++ fill_prefix (length_used self len) m :: post)%list
        with ((pre ++ [fill_prefix (length_used self len) m]) ++ post)%list
        by (rewrite <- app_assoc; reflexivity).
      apply IH. simpl in H. lia.
Qed.

Lemma mask_loop_batch (self : t) (target_lens : list nat) (output : tensor3) :
  length target_lens = length output ->
  mask_loop self (zeros_like output) 0 target_lens
  = Ok (batch_mask self target_lens output).
Proof.
  intros H.
  change (mask_loop self (zeros_like output) 0 target_lens)
    with (mask_loop self ([] ++ zeros_like output) (length (@nil (list (list bool))))
            target_lens).
  rewrite (mask_loop_spec self target_lens [] (zeros_like output))
    by (unfold zeros_like; rewrite length_map; len_lia).
  simpl app.
  rewrite skipn_all2 by (unfold zeros_like; rewrite length_map; len_lia).
  rewrite app_nil_r. apply f_equal. unfold batch_mask, zeros_like.
  clear H. revert output.
  induction target_lens as [|len lens IH]; intros output; [reflexivity|].
  destruct output as [|o output]; [reflexivity|].
  simpl. f_equal. apply IH.
Qed.

Lemma count3_batch_mask (self : t) (target_lens : list nat) (output : tensor3) :
  count3 (batch_mask self target_lens output)
  = numel3 (prefixes (map (length_used self) target_lens) output).
Proof.
  revert output. unfold count3, numel3, batch_mask, prefixes.
  induction target_lens as [|len lens IH]; intros output; [reflexivity|].
  destruct output as [|o output]; [reflexivity|].
  simpl. rewrite count2_sample_mask. f_equal. apply IH.
Qed.

Lemma sum3_batch_mask (self : t) (target_lens : list nat)
    (output target : tensor3) :
  sum3 (where3 (batch_mask self target_lens output) (sqdiff3 output target))
  == sum3 (sqdiff3 (prefixes (map (length_used self) target_lens) output)
                   (prefixes (map (length_used self) target_lens) target)).
Proof.
  revert output target. unfold sum3, where3, batch_mask, prefixes.
  induction target_lens as [|len lens IH]; intros output target;
    [reflexivity|].
  destruct output as [|o output]; [reflexivity|].
  destruct target as [|tg target].
  - simpl. destruct (map (length_used self) lens); reflexivity.
  - simpl. rewrite sum2_sample_mask. rewrite (IH output target).
    reflexivity.
Qed.

Lemma mean_of_eq (a b : Q) (n : nat) :
  a == b -> lossval_eq (mean_of a n) (mean_of b n).
Proof.
  intros H. unfold mean_of. destruct (n =? 0)%nat; simpl; [exact I|].
  rewrite H. reflexivity.
Qed.

(** The masked loss is the mean squared error over the valid prefixes:
    numerator and denominator range over the unmasked entries. *)
Lemma forward_as_mse (self : t) (output target : tensor3)
    (target_lens : list nat) :
  length target_lens = length output ->
  let used := map (length_used self) target_lens in
  result_eq (forward self output target target_lens)
            (Ok (mse_loss3 (prefixes used output) (prefixes used target))).
Proof.
  intros H used. unfold forward.
  rewrite (mask_loop_batch self target_lens output H). simpl.
  unfold mse_loss3. rewrite count3_batch_mask. fold used.
  apply mean_of_eq. apply sum3_batch_mask.
Qed.

Lemma lossval_eq_refl (a : lossval) : lossval_eq a a.
Proof. destruct a; simpl; [reflexivity|exact I]. Qed.

Lemma lossval_eq_sym (a b : lossval) : lossval_eq a b -> lossval_eq b a.
Proof. destruct a, b; simpl; auto. intros H. symmetry. exact H. Qed.

Lemma lossval_eq_trans (a b c : lossval) :
  lossval_eq a b -> lossval_eq b c -> lossval_eq a c.
Proof.
  destruct a, b, c; simpl; auto; try contradiction.
  intros H1 H2. rewrite H1. exact H2.
Qed.

Lemma result_eq_refl (a : result lossval) : result_eq a a.
Proof. destruct a; simpl; [apply lossval_eq_refl|reflexivity]. Qed.

Lemma result_eq_sym (a b : result lossval) : result_eq a b -> result_eq b a.
Proof.
  destruct a, b; simpl; auto using lossval_eq_sym.
Qed.

Lemma result_eq_trans (a b c : result lossval) :
  result_eq a b -> result_eq b c -> result_eq a c.
Proof.
  destruct a, b, c; simpl; try contradiction; try congruence.
  apply lossval_eq_trans.
Qed.

Lemma length_used_min (self : t) (len : nat) :
  length_used self len = Nat.min len (max_look_forward self).
Proof.
  unfold length_used.
  destruct (Nat.ltb_spec (max_look_forward self) len); lia.
Qed.

(** With cap 1 the valid prefixes lie within the first position. *)
Lemma prefixes_cap1 (target_lens : list nat) (x : tensor3) :
  prefixes (map (length_used (init 1)) target_lens) x
  = prefixes (map (length_used (init 1)) target_lens) (position0 x).
Proof.
  unfold prefixes, position0. revert x.
  induction target_lens as [|len lens IH]; intros x; [reflexivity|].
  destruct x as [|s x]; [reflexivity|].
  cbn [map zip_with]. f_equal; [|apply IH].
  rewrite length_used_min. cbn [max_look_forward init].
  rewrite firstn_firstn. f_equal. lia.
Qed.

(** With cap 1 and every length at least 1, the valid prefixes are the
    first positions. *)
Lemma prefixes_cap1_all (target_lens : list nat) (x : tensor3) :
  length target_lens = length x ->
  Forall (fun len => 1 <= len)%nat target_lens ->
  prefixes (map (length_used (init 1)) target_lens) x = position0 x.
Proof.
  unfold prefixes, position0. intros Hlen Hall. revert x Hlen.
  induction Hall as [|len lens H1 _ IH]; intros x Hlen.
  - destruct x; [reflexivity|discriminate].
  - destruct x as [|s x]; [discriminate|].
    cbn [map zip_with]. f_equal.
    + rewrite length_used_min. cbn [max_look_forward init]. f_equal. lia.
    + apply IH. simpl in Hlen. lia.
Qed.

(** The loss with cap 1 reads [output] and [target] only at the first
    position. *)
Lemma forward_cap1_congr (output output' target target' : tensor3)
    (target_lens : list nat) :
  length target_lens = length output ->
  position0 output = position0 output' ->
  position0 target = position0 target' ->
  result_eq (forward (init 1) output target target_lens)
            (forward (init 1) output' target' target_lens).
Proof.
  intros Hlen Ho Ht.
  assert (Hlen' : length target_lens = length output').
  { apply (f_equal (@length _)) in Ho. unfold position0 in Ho.
    rewrite !length_map in Ho. len_lia. }
  eapply result_eq_trans; [apply forward_as_mse; exact Hlen|].
  apply result_eq_sym.
  eapply result_eq_trans; [apply forward_as_mse; exact Hlen'|].
  simpl.
  rewrite (prefixes_cap1 target_lens output), (prefixes_cap1 target_lens target).
  rewrite (prefixes_cap1 target_lens output'), (prefixes_cap1 target_lens target').
  rewrite Ho, Ht. apply lossval_eq_refl.
Qed.






End Masked_props.


(* ------------------------------------------------------------------ *)
(** ** DLKoopmanRegressor: what the training loss reads *)

Section Training_props.

Import Tensor MaskedMSELoss DLKoopmanRegressor.
Local Open Scope Q_scope.

Variable _encoder : vec -> vec.
Variable _decoder : vec -> vec.
Variable _koopman_propagator : vec -> vec.

(** The width of a network's output depends only on the width of its
    input. *)
Hypothesis encoder_shape :
  forall v w, same_width v w -> same_width (_encoder v) (_encoder w).
Hypothesis decoder_shape :
  forall v w, same_width v w -> same_width (_decoder v) (_decoder w).

Lemma Forall2_nth_error_rel {A : Type} (R : A -> A -> Prop) (s s' : list A)
    (i : nat) :
  Forall2 R s s' ->
  match nth_error s i, nth_error s' i with
  | Some a, Some b => R a b
  | None, None => True
  | _, _ => False
  end.
Proof.
  intros H. revert i. induction H as [|a b s s' Hab _ IH]; intros i.
  - destruct i; exact I.
  - destruct i as [|i]; simpl; [exact Hab|apply IH].
Qed.

Lemma agree0_refl (x : tensor3) : agree0 x x.
Proof.
  unfold agree0. induction x as [|s x IH]; constructor; [|exact IH].
  split; [reflexivity|].
  induction s; constructor; [reflexivity|assumption].
Qed.

Lemma agree0_position0 (x x' : tensor3) :
  agree0 x x' -> position0 x = position0 x' /\ length x = length x'.
Proof.
  unfold position0. induction 1 as [|s s' x x' [H0 _] _ [IH1 IH2]]; simpl.
  - split; reflexivity.
  - split; [|f_equal; exact IH2].
    change (firstn 1 s :: map (firstn 1) x = firstn 1 s' :: map (firstn 1) x').
    rewrite H0, IH1. reflexivity.
Qed.

(** Reading column [i] of two batches that agree. *)
Lemma get_col_rel (y y' : tensor3) (i : nat) :
  agree0 y y' ->
  rel_result (fun c c' => Forall2 same_width c c' /\ (i = 0%nat -> c = c'))
             (get_col y i) (get_col y' i).
Proof.
  induction 1 as [|s s' y y' [H0 Hw] _ IH]; simpl.
  - split; [constructor|reflexivity].
  - unfold getitem.
    pose proof (Forall2_nth_error_rel i Hw) as Hn.
    destruct (nth_error s i) as [a|] eqn:Ea;
      destruct (nth_error s' i) as [b|] eqn:Eb; try contradiction; simpl.
    + destruct (get_col y i) as [c|e]; destruct (get_col y' i) as [c'|e'];
        simpl in IH |- *; try contradiction; [|exact IH].
      destruct IH as [IHw IH0]. split; [constructor; assumption|].
      intros Hi. subst i. rewrite (IH0 eq_refl). f_equal.
      destruct s, s'; simpl in *; congruence.
    + reflexivity.
Qed.

Lemma set_row_width (s s' : mat) (i : nat) (v v' : vec) :
  Forall2 same_width s s' ->
  same_width v v' ->
  rel_result (Forall2 same_width) (set_row s i v) (set_row s' i v').
Proof.
  intros H Hv. revert i. induction H as [|r r' s s' Hr Hs IH]; intros i.
  - destruct i; reflexivity.
  - destruct i as [|i]; simpl.
    + unfold same_width in *. rewrite Hr, Hv.
      destruct (length r' =? length v')%nat; simpl; [|reflexivity].
      constructor; assumption.
    + specialize (IH i).
      destruct (set_row s i v); destruct (set_row s' i v'); simpl in *;
        try contradiction; [|exact IH].
      constructor; assumption.
Qed.

Lemma set_row_rel (s s' : mat) (i : nat) (v v' : vec) :
  firstn 1 s = firstn 1 s' ->
  Forall2 same_width s s' ->
  same_width v v' ->
  (i = 0%nat -> v = v') ->
  rel_result (fun u u' => firstn 1 u = firstn 1 u' /\ Forall2 same_width u u')
             (set_row s i v) (set_row s' i v').
Proof.
  intros H0 Hw Hv Hi.
  pose proof (set_row_width i Hw Hv) as Hrel.
  destruct Hw as [|r r' s s' Hr Hs]; [destruct i; reflexivity|].
  destruct i as [|i]; simpl in *.
  - destruct (length r =? length v)%nat;
      destruct (length r' =? length v')%nat; simpl in *; try contradiction;
      [|exact Hrel].
    split; [|exact Hrel]. rewrite (Hi eq_refl). reflexivity.
  - destruct (set_row s i v); destruct (set_row s' i v'); simpl in *;
      try contradiction; [|exact Hrel].
    split; [|exact Hrel]. congruence.
Qed.

Lemma set_col_rel (d d' : tensor3) (i : nat) (vals vals' : mat) :
  agree0 d d' ->
  Forall2 same_width vals vals' ->
  (i = 0%nat -> vals = vals') ->
  rel_result agree0 (set_col d i vals) (set_col d' i vals').
Proof.
  intros Hd. revert vals vals'.
  induction Hd as [|s s' d d' [H0 Hw] _ IH]; intros vals vals' Hv Hi.
  - destruct Hv; simpl; [constructor|reflexivity].
  - destruct Hv as [|v v' vals vals' Hv Hvs]; simpl; [reflexivity|].
    assert (Hi1 : i = 0%nat -> v = v') by (intros E; specialize (Hi E); congruence).
    assert (Hi2 : i = 0%nat -> vals = vals')
      by (intros E; specialize (Hi E); congruence).
    pose proof (set_row_rel H0 Hw Hv Hi1) as Hrow.
    destruct (set_row s i v); destruct (set_row s' i v'); simpl in *;
      try contradiction; [|exact Hrow].
    specialize (IH vals vals' Hvs Hi2).
    destruct (set_col d i vals); destruct (set_col d' i vals'); simpl in *;
      try contradiction; [|exact IH].
    constructor; assumption.
Qed.

Lemma rec_step_rel (y y' : tensor3) (acc acc' : result tensor3) (i : nat) :
  agree0 y y' ->
  rel_result agree0 acc acc' ->
  rel_result agree0 (rec_step _encoder _decoder y acc i)
                    (rec_step _encoder _decoder y' acc' i).
Proof.
  intros Hy Hacc. unfold rec_step.
  destruct acc as [d|e]; destruct acc' as [d'|e']; simpl in *;
    try contradiction; [|exact Hacc].
  pose proof (get_col_rel i Hy) as Hcol.
  destruct (get_col y i) as [c|e]; destruct (get_col y' i) as [c'|e'];
    simpl in *; try contradiction; [|exact Hcol].
  destruct Hcol as [Hw H0].
  apply set_col_rel; [exact Hacc| |].
  - clear H0. induction Hw; simpl; constructor; [|assumption].
    apply decoder_shape, encoder_shape. assumption.
  - intros E. rewrite (H0 E). reflexivity.
Qed.

Lemma rec_loop_rel (y y' : tensor3) (idx : list nat)
    (acc acc' : result tensor3) :
  agree0 y y' ->
  rel_result agree0 acc acc' ->
  rel_result agree0 (fold_left (rec_step _encoder _decoder y) idx acc)
                    (fold_left (rec_step _encoder _decoder y') idx acc').
Proof.
  intros Hy. revert acc acc'.
  induction idx as [|i idx IH]; intros acc acc' Hacc; simpl.
  - exact Hacc.
  - apply IH. apply rec_step_rel; assumption.
Qed.

Lemma set_col_length (d : tensor3) (i : nat) (vals : mat) (d' : tensor3) :
  set_col d i vals = Ok d' -> length d' = length d.
Proof.
  revert vals d'. induction d as [|s d IH]; intros vals d' H.
  - destruct vals; simpl in H; [|discriminate]. inversion H. reflexivity.
  - destruct vals as [|v vals]; simpl in H; [discriminate|].
    destruct (set_row s i v); simpl in H; [|discriminate].
    destruct (set_col d i vals) as [rest|] eqn:E; simpl in H; [|discriminate].
    inversion H. simpl. f_equal. apply (IH vals). exact E.
Qed.

(** A loop whose steps assign one column keeps the batch size. *)
Lemma column_loop_length (step : result tensor3 -> nat -> result tensor3)
    (idx : list nat) :
  (forall acc i d, step acc i = Ok d ->
                   exists d0, acc = Ok d0 /\ length d = length d0) ->
  forall acc d, fold_left step idx acc = Ok d ->
                exists d0, acc = Ok d0 /\ length d = length d0.
Proof.
  intros Hstep. induction idx as [|i idx IH]; intros acc d H; simpl in H.
  - exists d. split; [exact H|reflexivity].
  - destruct (IH _ _ H) as [d1 [H1 Hl1]].
    destruct (Hstep _ _ _ H1) as [d0 [H0 Hl0]].
    exists d0. split; [exact H0|]. len_lia.
Qed.

Lemma rnn_step_length (phi_seq : list mat) (acc : result tensor3) (i : nat)
    (d : tensor3) :
  rnn_step _decoder phi_seq acc i = Ok d ->
  exists d0, acc = Ok d0 /\ length d = length d0.
Proof.
  unfold rnn_step. destruct acc as [d0|]; simpl; [|discriminate].
  destruct (getitem phi_seq i); simpl; [|discriminate].
  intros H. exists d0. split; [reflexivity|].
  eapply set_col_length; exact H.
Qed.

Lemma rec_step_length (y : tensor3) (acc : result tensor3) (i : nat)
    (d : tensor3) :
  rec_step _encoder _decoder y acc i = Ok d ->
  exists d0, acc = Ok d0 /\ length d = length d0.
Proof.
  unfold rec_step. destruct acc as [d0|]; simpl; [|discriminate].
  destruct (get_col y i); simpl; [|discriminate].
  intros H. exists d0. split; [reflexivity|].
  eapply set_col_length; exact H.
Qed.

Lemma zeros3_length (b h f : nat) : length (zeros3 b h f) = b.
Proof. apply repeat_length. Qed.

Lemma add_eq (a a' b b' : lossval) :
  lossval_eq a a' -> lossval_eq b b' -> lossval_eq (add a b) (add a' b').
Proof.
  destruct a, a', b, b'; simpl; try contradiction; auto.
  intros H1 H2. rewrite H1, H2. reflexivity.
Qed.

End Training_props.


(* ------------------------------------------------------------------ *)
(** ** The Hamiltonian and Dissipative propagators *)

Section Propagators.

Import Koopman.
Local Open Scope R_scope.

(** C3: for every value of the parameter [S] of the Hamiltonian
    propagator of size [dim], the generator returned by [get_K] is
    [S - S^T]; it is skew-symmetric; each of its complex eigenvalues
    [a + i b] has real part [a = 0]; and the discrete operator
    [A = matrix_exp(dt * K)] satisfies [A^T A = I]. *)
Theorem C3_hamiltonian_orthogonal (dim : nat) (S : matrix) (dt : R) :
  let K := get_K (Hamiltonian S) in
  let A := get_discrete_time_Koopman_Operator dim dt (Hamiltonian S) in
  (forall i j, K i j = S i j - S j i)
  /\ (forall i j, K i j = - transpose K i j)
  /\ (forall a b, eigenvalue dim K a b -> a = 0)
  /\ (forall i j, (i < dim)%nat -> (j < dim)%nat ->
        matmul dim (transpose A) A i j = eye i j).
Proof.
  intros K A. split; [reflexivity|]. split; [|split].
  - intros i j. unfold K, transpose. simpl. unfold msub, transpose. ring.
  - intros a b. apply hamiltonian_eigenvalue.
  - intros i j Hi Hj. unfold A, get_discrete_time_Koopman_Operator.
    apply skew_exp_orthogonal; [|exact Hi|exact Hj].
    intros p q. simpl. unfold mscale, msub, transpose. ring.
Qed.

(** C2, evaluated on the code: [diagonal] is itself the trained
    parameter, so it can be positive.  At [diagonal = [1]] (size 1,
    [off_diagonal = [[0]]]) the generator is [[1]], whose eigenvalue 1
    has positive real part, and with [dt = 1] the discrete operator is
    [[e]], whose eigenvalue [e] is larger than 1. *)
Theorem C2_dissipative_positive_diagonal :
  get_K positive_diagonal 0%nat 0%nat = 1
  /\ eigenvalue 1 (get_K positive_diagonal) 1 0
  /\ get_discrete_time_Koopman_Operator 1 1 positive_diagonal 0%nat 0%nat = exp 1
  /\ eigenvalue 1 (get_discrete_time_Koopman_Operator 1 1 positive_diagonal)
                (exp 1) 0
  /\ 1 < exp 1.
Proof.
  assert (HK : get_K positive_diagonal 0%nat 0%nat = 1).
  { simpl. unfold msub, madd, diag, transpose. simpl. ring. }
  assert (HA : get_discrete_time_Koopman_Operator 1 1 positive_diagonal
                 0%nat 0%nat = exp 1).
  { unfold get_discrete_time_Koopman_Operator. rewrite matrix_exp_dim1.
    unfold mscale. rewrite HK. f_equal. ring. }
  split; [exact HK|]. split; [|split; [exact HA|split]].
  - exists (fun _ => 1), (fun _ => 0). split.
    + exists 0%nat. split; [lia|left; lra].
    + intros i Hi. assert (i = 0%nat) by lia. subst i.
      unfold matvec. cbn [big_sum]. rewrite HK. split; ring.
  - exists (fun _ => 1), (fun _ => 0). split.
    + exists 0%nat. split; [lia|left; lra].
    + intros i Hi. assert (i = 0%nat) by lia. subst i.
      unfold matvec. cbn [big_sum]. rewrite HA. split; ring.
  - pose proof (exp_ineq1 1). lra.
Qed.

(** The generator is dissipative as long as no entry of [diagonal] is
    positive, which holds at construction. *)
Lemma dissipative_at_init (dim : nat) (S : matrix) (v : vector) (a b : R) :
  eigenvalue dim (get_K (Dissipative S (diagonal_init v))) a b -> a <= 0.
Proof.
  apply dissipative_eigenvalue. intros i _. apply diagonal_init_nonpos.
Qed.

End Propagators.

Lemma C3_hamiltonian_orthogonal_witness :
  let S : Koopman.matrix :=
    fun i j => if ((i =? 0) && (j =? 1))%bool then 1%R else 0%R in
  let A :=
    Koopman.get_discrete_time_Koopman_Operator 2 1 (Koopman.Hamiltonian S) in
  Koopman.matmul 2 (Koopman.transpose A) A 0 1 = 0%R.
Proof.
  intros S A.
  destruct (C3_hamiltonian_orthogonal 2 S 1) as [_ [_ [_ H]]].
  apply (H 0 1); lia.
Defined.

(* ================================================================== *)
(** * Further properties of the code *)

(* ------------------------------------------------------------------ *)
(** ** Windowing a list of trajectories *)

Section Windowing_more.

Import SeqDataModule.

Variable state : Type.
Variable zero_state : state.

Lemma delayed_lists_one (seq : list state) (L : nat) :
  let xs := fst (delayed_lists [seq] look_back L) in
  let ys := snd (delayed_lists [seq] look_back L) in
  length xs = window_count L (length seq)
  /\ length ys = window_count L (length seq)
  /\ Forall (fun x => length x = Nat.min 1 (length seq)) xs
  /\ Forall (fun y => length y <= L) ys.
Proof.
  unfold window_count.
  destruct (Nat.le_gt_cases (L + 1) (length seq)) as [Hlong|Hshort].
  - rewrite (delayed_lists_long seq L Hlong). cbn [fst snd].
    rewrite !length_map, !length_seq. repeat split; try lia.
    + apply Forall_forall. intros x Hx. apply in_map_iff in Hx.
      destruct Hx as [i [<- Hi]]. apply in_seq in Hi.
      rewrite length_slice. lia.
    + apply Forall_forall. intros y Hy. apply in_map_iff in Hy.
      destruct Hy as [i [<- Hi]]. rewrite length_slice. lia.
  - rewrite (delayed_lists_short seq L Hshort). cbn [fst snd].
    repeat split; try (simpl; lia).
    + repeat constructor. rewrite length_slice. lia.
    + repeat constructor. rewrite length_skipn. lia.
Qed.

Lemma delayed_lists_all (data_list : list (list state)) (L : nat) :
  let xs := fst (delayed_lists data_list look_back L) in
  let ys := snd (delayed_lists data_list look_back L) in
  length xs = list_sum (map (fun s => window_count L (length s)) data_list)
  /\ length ys = list_sum (map (fun s => window_count L (length s)) data_list)
  /\ (Forall (fun s => s <> []) data_list -> Forall (fun x => length x = 1) xs)
  /\ Forall (fun y => length y <= L) ys.
Proof.
  induction data_list as [|s l IH].
  - simpl. repeat split; try constructor.
  - rewrite (delayed_lists_cons look_back L s l).
    cbn [fst snd map list_sum fold_right].
    destruct (delayed_lists_one s L) as [H1 [H2 [H3 H4]]].
    destruct IH as [I1 [I2 [I3 I4]]].
    rewrite !length_app. unfold list_sum in I1, I2.
    repeat split; try lia.
    + intros Hne. inversion Hne as [|? ? Hs Hl]; subst.
      apply Forall_app. split; [|apply I3; exact Hl].
      eapply Forall_impl; [|exact H3]. simpl. intros x Hx.
      destruct s; [contradiction Hs; reflexivity|]. simpl in Hx. lia.
    + apply Forall_app. split; assumption.
Qed.

Lemma delayed_lists_incl (data_list : list (list state)) (L : nat)
    (s : list state) :
  In s data_list ->
  incl (fst (delayed_lists [s] look_back L))
       (fst (delayed_lists data_list look_back L)).
Proof.
  induction data_list as [|s0 l IH]; intros Hin; [contradiction|].
  rewrite (delayed_lists_cons look_back L s0 l). cbn [fst].
  destruct Hin as [->|Hin].
  - apply incl_appl, incl_refl.
  - apply incl_appr, IH, Hin.
Qed.

Lemma homogeneous_lengths (l : list (list state)) (a b : list state) :
  homogeneous l = true -> In a l -> In b l -> length a = length b.
Proof.
  destruct l as [|x l]; [contradiction|]. simpl. intros H Ha Hb.
  rewrite forallb_forall in H.
  assert (E : forall c, x = c \/ In c l -> length c = length x).
  { intros c [<-|Hc]; [reflexivity|]. apply Nat.eqb_eq, H, Hc. }
  rewrite (E a Ha), (E b Hb). reflexivity.
Qed.

Lemma pad_sequence_spec (ys : list (list state)) (H : nat) :
  Forall (fun y => length y <= H) ys ->
  Forall2 (fun y w =>
             length y = H /\ firstn (length w) y = w
             /\ skipn (length w) y = repeat zero_state (H - length w))
          (map (pad_to zero_state H) ys) ys.
Proof.
  induction 1 as [|y ys Hy _ IH]; simpl; constructor; [|exact IH].
  unfold pad_to. rewrite length_app, repeat_length.
  split; [lia|]. split.
  - rewrite firstn_app, Nat.sub_diag, firstn_all. simpl. apply app_nil_r.
  - rewrite skipn_app, Nat.sub_diag, skipn_all. reflexivity.
Qed.


(** X2: Whenever windowing succeeds, no valid length exceeds [look_forward];
    every padded future sequence has the length of the longest one,
    starts with its own window and continues with zero states only. *)
Theorem windowing_padding (data_list : list (list state)) (L : nat)
    (d : delayed_data state) :
  convert_seq_list_to_delayed_data zero_state data_list look_back L = Ok d ->
  let H := list_max (time_delayed_yseq_lens d) in
  H <= L
  /\ Forall (fun len => len <= L) (time_delayed_yseq_lens d)
  /\ time_delayed_yseq_lens d
     = map (@length state) (snd (delayed_lists data_list look_back L))
  /\ Forall2 (fun y w =>
                length y = H /\ firstn (length w) y = w
                /\ skipn (length w) y = repeat zero_state (H - length w))
             (time_delayed_yseq d)
             (snd (delayed_lists data_list look_back L)).
Proof.
  unfold convert_seq_list_to_delayed_data.
  destruct (delayed_lists_all data_list L) as [_ [_ [_ H4]]].
  destruct (delayed_lists data_list look_back L) as [xs ys].
  cbn [fst snd] in *.
  destruct (homogeneous xs); cbn [negb]; [|discriminate].
  unfold pad_sequence. destruct ys as [|y ys]; [discriminate|].
  set (ws := y :: ys) in *. cbn [bind]. intros E.
  injection E as <-.
  cbn [time_delayed_yseq time_delayed_yseq_lens].
  assert (Hlens : Forall (fun len => len <= L) (map (@length state) ws)).
  { apply Forall_map. exact H4. }
  split; [apply list_max_le; exact Hlens|].
  split; [exact Hlens|]. split; [reflexivity|].
  refine (@pad_sequence_spec ws (list_max (map (@length state) ws)) _).
  assert (Hm := proj1 (list_max_le (map (@length state) ws)
                         (list_max (map (@length state) ws)))
                      (Nat.le_refl _)).
  rewrite Forall_map in Hm. exact Hm.
Qed.

(** X3: Windowing refuses an empty list of trajectories ([pad_sequence]
    raises), and a list that mixes an empty trajectory with a non-empty
    one (the current states then have different shapes). *)
Theorem windowing_refused (data_list : list (list state)) (L : nat)
    (s : list state) :
  convert_seq_list_to_delayed_data zero_state [] look_back L
  = Raise RuntimeError
  /\ (In [] data_list -> In s data_list -> s <> [] ->
      convert_seq_list_to_delayed_data zero_state data_list look_back L
      = Raise ValueError).
Proof.
  split; [reflexivity|]. intros Hnil Hs Hne.
  unfold convert_seq_list_to_delayed_data.
  pose proof (@delayed_lists_incl data_list L [] Hnil) as I0.
  pose proof (@delayed_lists_incl data_list L s Hs) as I1.
  destruct (delayed_lists_one s L) as [H1 [_ [H3 _]]].
  destruct (delayed_lists data_list look_back L) as [xs ys].
  cbn [fst snd] in *.
  destruct (homogeneous xs) eqn:Hh; cbn [negb]; [|reflexivity].
  exfalso.
  assert (In0 : In [] xs).
  { apply I0. rewrite delayed_lists_short by (simpl; lia). left. reflexivity. }
  destruct (fst (delayed_lists [s] look_back L)) as [|x rest] eqn:Ex.
  { simpl in H1. unfold window_count in H1. lia. }
  assert (In1 : In x xs) by (apply I1; left; reflexivity).
  inversion H3 as [|? ? Hx _]; subst.
  pose proof (@homogeneous_lengths xs [] x Hh In0 In1) as E.
  destruct s; [contradiction Hne; reflexivity|]. simpl in Hx, E. lia.
Qed.

End Windowing_more.


Lemma windowing_padding_witness :
  list_max [3; 3; 1] <= 3
  /\ Forall (fun len => len <= 3) [3; 3; 1].
Proof.
  assert (H : SeqDataModule.convert_seq_list_to_delayed_data 0
                [[1; 2; 3; 4; 5]; [7; 8]] SeqDataModule.look_back 3
              = Ok {| SeqDataModule.time_delayed_x := [[1]; [2]; [7]];
                      SeqDataModule.time_delayed_yseq :=
                        [[2; 3; 4]; [3; 4; 5]; [8; 0; 0]];
                      SeqDataModule.time_delayed_yseq_lens := [3; 3; 1] |})
    by reflexivity.
  pose proof (@windowing_padding nat 0 _ 3 _ H) as P.
  cbv zeta in P. destruct P as [H1 [H2 _]].
  split; [exact H1|exact H2].
Defined.

Lemma windowing_refused_witness :
  SeqDataModule.convert_seq_list_to_delayed_data 0 [[]; [1; 2]]
    SeqDataModule.look_back 1 = Raise ValueError.
Proof.
  destruct (@windowing_refused nat 0 [[]; [1; 2]] 1 [1; 2]) as [_ H].
  apply H.
  - left. reflexivity.
  - right. left. reflexivity.
  - discriminate.
Defined.

(* ------------------------------------------------------------------ *)
(** ** NNDMD.fit on arrays: the trajectories it builds *)

Section Fit_more.

Import Fit.
Import Tensor.

Variable row : Type.

Lemma skipn_nth_error (l : list row) (k : nat) (a : row) :
  nth_error l k = Some a -> skipn k l = a :: skipn (S k) l.
Proof.
  revert l. induction k as [|k IH]; intros l H; destruct l as [|b l];
    try discriminate.
  - simpl in H. injection H as ->. reflexivity.
  - simpl in H. rewrite (skipn_cons k b l). exact (IH l H).
Qed.

(** The comprehension over a range of indices that all exist pairs the
    rows of the two arrays in order. *)
Lemma stack_pairs_range (t0 t1 : list row) (n k : nat) :
  k + n <= length t0 ->
  k + n <= length t1 ->
  stack_pairs t0 t1 (seq k n)
  = Ok (zip_with (@stack2 row) (firstn n (skipn k t0)) (firstn n (skipn k t1))).
Proof.
  revert k. induction n as [|n IH]; intros k H0 H1; [reflexivity|].
  cbn [seq stack_pairs]. unfold getitem.
  destruct (nth_error t0 k) as [a|] eqn:E0;
    [|apply nth_error_None in E0; lia].
  destruct (nth_error t1 k) as [b|] eqn:E1;
    [|apply nth_error_None in E1; lia].
  cbn [bind]. rewrite IH by lia. cbn [bind].
  rewrite (skipn_nth_error _ _ E0), (skipn_nth_error _ _ E1).
  reflexivity.
Qed.

(** The comprehension raises [IndexError] when the second array is
    shorter than the range. *)
Lemma stack_pairs_short (t0 t1 : list row) (n k : nat) :
  k + n <= length t0 ->
  k <= length t1 ->
  length t1 < k + n ->
  stack_pairs t0 t1 (seq k n) = Raise IndexError.
Proof.
  revert k. induction n as [|n IH]; intros k H0 H1 H2; [lia|].
  cbn [seq stack_pairs]. unfold getitem.
  destruct (nth_error t0 k) as [a|] eqn:E0;
    [|apply nth_error_None in E0; lia].
  cbn [bind].
  destruct (nth_error t1 k) as [b|] eqn:E1; cbn [bind]; [|reflexivity].
  assert (k < length t1) by (apply nth_error_Some; congruence).
  rewrite IH by lia. reflexivity.
Qed.

Lemma zip_with_firstn_l {A B C : Type} (f : A -> B -> C) (l1 : list A)
    (l2 : list B) :
  zip_with f (firstn (length l2) l1) l2 = zip_with f l1 l2.
Proof.
  revert l1. induction l2 as [|b l2 IH]; intros l1; simpl.
  - destruct l1; reflexivity.
  - destruct l1 as [|a l1]; [reflexivity|]. simpl. f_equal. apply IH.
Qed.

Lemma zip_with_length {A B C : Type} (f : A -> B -> C) (l1 : list A)
    (l2 : list B) :
  length (zip_with f l1 l2) = Nat.min (length l1) (length l2).
Proof.
  revert l2. induction l1 as [|a l1 IH]; intros l2; [reflexivity|].
  destruct l2 as [|b l2]; [reflexivity|]. simpl. f_equal. apply IH.
Qed.

Lemma fit_single_closed (x : list row) :
  fit_dispatch (NDArray2 x) (PyNone row)
  = Ok {| data_tr := zip_with (@stack2 row) x (skipn 1 x);
          data_val := None;
          n_samples_ := length x - 1 |}.
Proof.
  unfold fit_dispatch, range, slice.
  replace (Z.to_nat (Z.of_nat (length x) - 1)) with (length x - 1) by lia.
  set (t1 := skipn 1 x).
  assert (Ht1 : length t1 = length x - 1) by apply length_skipn.
  change (skipn 0 x) with x. rewrite Nat.sub_0_r.
  rewrite (stack_pairs_range (firstn (length x - 1) x) t1 (length x - 1) 0)
    by (rewrite ?length_firstn; lia).
  change (skipn 0 t1) with t1.
  change (skipn 0 (firstn (length x - 1) x)) with (firstn (length x - 1) x).
  cbn [bind]. rewrite firstn_firstn, Nat.min_id.
  rewrite (firstn_all2 (n := length x - 1) t1) by lia.
  rewrite <- Ht1 at 1.
  rewrite zip_with_firstn_l, zip_with_length, Ht1.
  rewrite length_firstn. do 2 f_equal. lia.
Qed.

(** X4: [fit(x)] on one 2-D array of [N] rows builds the [N - 1] two-state
    trajectories [(x[i], x[i+1])] of consecutive rows, in order, with
    no validation data, and sets [n_samples_ = N - 1]. *)
Theorem fit_single_trajectory (x : list row) :
  fit_dispatch (NDArray2 x) (PyNone row)
  = Ok {| data_tr := zip_with (@stack2 row) x (skipn 1 x);
          data_val := None;
          n_samples_ := length x - 1 |}.
Proof. apply fit_single_closed. Qed.

(** Every trajectory built from arrays has two states. *)
Lemma zip_stack2_two (a b : list row) :
  Forall (fun t => length t = 2) (zip_with (@stack2 row) a b).
Proof.
  revert b. induction a as [|x a IH]; intros b; [constructor|].
  destruct b as [|y b]; [constructor|]. simpl. constructor; [reflexivity|].
  apply IH.
Qed.

End Fit_more.

(** X5: [fit(x, y)] on two 2-D arrays of one width raises [IndexError]
    when [y] has fewer than [len(x) - 1] rows: the pairing loop reads
    [y] up to the index [len(x) - 2]. *)
Theorem fit_paired_short (d : nat) (x y : Tensor.mat) :
  Tensor.shape2 (length x) d x ->
  Tensor.shape2 (length y) d y ->
  length y < length x - 1 ->
  Fit.fit_dispatch (Fit.NDArray2 x) (Fit.NDArray2 y) = Raise IndexError.
Proof.
  intros _ _ H. unfold Fit.fit_dispatch, range.
  replace (Z.to_nat (Z.of_nat (length x) - 1)) with (length x - 1) by lia.
  rewrite stack_pairs_short by lia. reflexivity.
Qed.

Lemma fit_paired_short_witness :
  Fit.fit_dispatch (Fit.NDArray2 [[0; 5]; [1; 6]; [2; 7]]%Q)
                   (Fit.NDArray2 [[1; 6]]%Q)
  = Raise IndexError.
Proof.
  apply (@fit_paired_short 2 [[0; 5]; [1; 6]; [2; 7]]%Q [[1; 6]]%Q).
  - split; [reflexivity|repeat constructor].
  - split; [reflexivity|repeat constructor].
  - simpl. lia.
Defined.

(* ------------------------------------------------------------------ *)
(** ** Fitting on an array, then windowing *)

Section Fit_then_window.

Import Fit SeqDataModule.
Import Tensor.

Variable state : Type.
Variable zero_state : state.

Lemma delayed_lists_two_states (trajs : list (list state)) (L : nat) :
  1 <= L ->
  Forall (fun t => length t = 2) trajs ->
  delayed_lists trajs look_back L
  = (map (firstn 1) trajs, map (skipn 1) trajs).
Proof.
  intros HL. induction 1 as [|t trajs Ht _ IH]; [reflexivity|].
  rewrite (delayed_lists_cons look_back L t trajs), IH. cbn [fst snd map].
  assert (E : delayed_lists [t] look_back L = ([firstn 1 t], [skipn 1 t])).
  { destruct (Nat.le_gt_cases (L + 1) (length t)) as [Hlong|Hshort].
    - rewrite (delayed_lists_long t L Hlong).
      replace (length t - L) with 1 by lia. cbn [seq map].
      assert (E1 : slice t (0 + 1) (0 + 1 + L) = skipn 1 t).
      { unfold slice. replace (0 + 1 + L - (0 + 1)) with L by lia.
        change (0 + 1) with 1. apply firstn_all2.
        rewrite length_skipn. lia. }
      rewrite E1. reflexivity.
    - rewrite (delayed_lists_short t L Hshort). reflexivity. }
  rewrite E. reflexivity.
Qed.

(** X6: Fitting on one 2-D array of [N >= 2] rows gives, for every
    [look_forward >= 1], exactly [N - 1] samples: the current state
    [x[i]] with the single future state [x[i+1]], each of valid length 1.
    A larger [look_forward] adds nothing. *)
Theorem fit_single_then_window (x : list state) (L : nat)
    (a : data_module_args state) :
  2 <= length x ->
  1 <= L ->
  fit_dispatch (NDArray2 x) (PyNone state) = Ok a ->
  convert_seq_list_to_delayed_data zero_state (data_tr a) look_back L
  = Ok {| time_delayed_x := map (fun r => [r]) (firstn (length x - 1) x);
          time_delayed_yseq := map (fun r => [r]) (skipn 1 x);
          time_delayed_yseq_lens := repeat 1 (length x - 1) |}.
Proof.
  intros HN HL Hfit. rewrite fit_single_closed in Hfit.
  remember (skipn 1 x) as y eqn:Ey.
  assert (Hy : length y = length x - 1)
    by (subst y; apply length_skipn).
  injection Hfit as <-. cbn [data_tr].
  unfold convert_seq_list_to_delayed_data.
  rewrite (delayed_lists_two_states HL (zip_stack2_two x y)).
  assert (Ex : map (firstn 1) (zip_with (@stack2 state) x y)
               = map (fun r => [r]) (firstn (length x - 1) x)).
  { rewrite <- Hy. clear. revert y. induction x as [|r x IH]; intros y.
    - destruct y; reflexivity.
    - destruct y as [|s y]; [reflexivity|]. simpl. f_equal. apply IH. }
  assert (Eyy : map (skipn 1) (zip_with (@stack2 state) x y)
                = map (fun r => [r]) y).
  { assert (Hle : length y <= length x) by lia. clear - Hle.
    revert x Hle. induction y as [|s y IH]; intros x Hle.
    - destruct x; reflexivity.
    - destruct x as [|r x]; [simpl in Hle; lia|]. simpl. f_equal.
      apply IH. simpl in Hle. lia. }
  rewrite Ex, Eyy.
  assert (Hx1 : Forall (fun w : list state => length w = 1)
                  (map (fun r => [r]) (firstn (length x - 1) x))).
  { apply Forall_map, Forall_forall. reflexivity. }
  assert (Hy1 : Forall (fun w : list state => length w = 1)
                  (map (fun r => [r]) y)).
  { apply Forall_map, Forall_forall. reflexivity. }
  rewrite (homogeneous_same_length Hx1). cbn [negb].
  rewrite (pad_sequence_same_length zero_state (n := 1)); [| |exact Hy1].
  - cbn [bind]. do 2 f_equal. rewrite map_map. cbn [length].
    rewrite <- Hy. clear. induction y; simpl; [reflexivity|f_equal; assumption].
  - intros E. apply (f_equal (@length _)) in E.
    rewrite length_map in E. simpl in E. lia.
Qed.

End Fit_then_window.

Lemma fit_single_then_window_witness :
  SeqDataModule.convert_seq_list_to_delayed_data 0
    [[10; 20]; [20; 30]] SeqDataModule.look_back 5
  = Ok {| SeqDataModule.time_delayed_x := [[10]; [20]];
          SeqDataModule.time_delayed_yseq := [[20]; [30]];
          SeqDataModule.time_delayed_yseq_lens := [1; 1] |}.
Proof.
  apply (@fit_single_then_window nat 0 [10; 20; 30] 5
           {| Fit.data_tr := [[10; 20]; [20; 30]];
              Fit.data_val := None; Fit.n_samples_ := 2 |}).
  - simpl. lia.
  - lia.
  - reflexivity.
Defined.

(* ------------------------------------------------------------------ *)
(** ** check_list_of_nparray: when it succeeds *)

Section Check_more.

Import CheckData.
Local Open Scope string_scope.

Variable data : Type.
Variable astype32 : data -> data.

Lemma not_all_float (data_list : list (ndarray data)) :
  forallb (fun x => is_float (arr_dtype x)) data_list = false ->
  existsb (fun x => negb (is_float (arr_dtype x))) data_list = true.
Proof.
  induction data_list as [|x l IH]; simpl; [discriminate|].
  destruct (is_float (arr_dtype x)); simpl; [exact IH|reflexivity].
Qed.

Lemma check_snd (data_list : list (ndarray data)) :
  snd (check_list_of_nparray astype32 data_list)
  = if forallb (fun x => is_float (arr_dtype x)) data_list
    then Ok (map (downcast astype32) data_list)
    else Raise TypeError.
Proof.
  destruct (forallb (fun x => is_float (arr_dtype x)) data_list) eqn:Hf.
  - destruct (check_floats_converted astype32 data_list Hf) as [E _].
    rewrite E. reflexivity.
  - apply not_all_float in Hf.
    destruct (existsb (@iscomplexobj data) data_list) eqn:Hc.
    + rewrite (check_complex_raises astype32 data_list Hc). reflexivity.
    + rewrite (check_non_float_raises astype32 data_list Hc Hf). reflexivity.
Qed.

(** X7: The call returns a list exactly when the dtype name of every array
    contains "float"; it then returns the arrays in order, the float64
    ones converted to float32 and the others untouched.  In every other
    case it raises [TypeError]. *)
Theorem check_result (data_list : list (ndarray data)) :
  snd (check_list_of_nparray astype32 data_list)
  = if forallb (fun x => is_float (arr_dtype x)) data_list
    then Ok (map (downcast astype32) data_list)
    else Raise TypeError.
Proof. apply check_snd. Qed.

Lemma downcast_float (x : ndarray data) :
  is_float (arr_dtype x) = true ->
  is_float (arr_dtype (downcast astype32 x)) = true
  /\ downcast astype32 (downcast astype32 x) = downcast astype32 x.
Proof.
  unfold downcast. destruct x as [d a]. simpl.
  destruct d; simpl; intros H; split; try reflexivity; try exact H.
Qed.

(** X8: Checking is idempotent: a list that the call returned passes the
    call unchanged. *)
Theorem check_idempotent (data_list checked : list (ndarray data)) :
  snd (check_list_of_nparray astype32 data_list) = Ok checked ->
  check_list_of_nparray astype32 checked = ([], Ok checked).
Proof.
  rewrite check_snd.
  destruct (forallb (fun x => is_float (arr_dtype x)) data_list) eqn:Hf;
    [|discriminate].
  intros E. injection E as <-.
  assert (Hd : forallb (fun x => is_float (arr_dtype x))
                 (map (downcast astype32) data_list) = true
               /\ map (downcast astype32) (map (downcast astype32) data_list)
                  = map (downcast astype32) data_list).
  { induction data_list as [|x l IH]; [split; reflexivity|].
    simpl in Hf. apply andb_prop in Hf. destruct Hf as [Hx Hl].
    destruct (IH Hl) as [I1 I2]. destruct (downcast_float x Hx) as [D1 D2].
    simpl. rewrite D1, I1, D2, I2. split; reflexivity. }
  destruct Hd as [H1 H2].
  destruct (check_floats_converted astype32 _ H1) as [E _].
  rewrite E, H2. reflexivity.
Qed.

End Check_more.

Lemma check_idempotent_witness :
  CheckData.check_list_of_nparray (fun d : nat => d)
    [{| CheckData.arr_dtype := CheckData.float32; CheckData.arr_data := 7 |}]
  = ([], Ok [{| CheckData.arr_dtype := CheckData.float32;
                CheckData.arr_data := 7 |}]).
Proof.
  apply (@check_idempotent nat (fun d => d)
           [{| CheckData.arr_dtype := CheckData.float64;
               CheckData.arr_data := 7 |}]).
  reflexivity.
Defined.

(* ------------------------------------------------------------------ *)
(** ** MaskedMSELoss: values and edge cases *)

Section Masked_more.

Import Tensor MaskedMSELoss.
Local Open Scope Q_scope.

Lemma zip_with_Forall {A B C : Type} (P : C -> Prop) (Q : B -> Prop)
    (f : A -> B -> C) (l1 : list A) (l2 : list B) :
  (forall a b, Q b -> P (f a b)) ->
  Forall Q l2 -> Forall P (zip_with f l1 l2).
Proof.
  intros Hf. revert l2. induction l1 as [|a l1 IH]; intros l2 H;
    [constructor|].
  destruct H as [|b l2 Hb Hl]; [constructor|]. simpl.
  constructor; [apply Hf, Hb|apply IH, Hl].
Qed.

Lemma zip_with_Forall_any {A B C : Type} (P : C -> Prop)
    (f : A -> B -> C) (l1 : list A) (l2 : list B) :
  (forall a b, P (f a b)) -> Forall P (zip_with f l1 l2).
Proof.
  intros Hf. apply (@zip_with_Forall A B C P (fun _ => True)); auto.
  apply Forall_forall. auto.
Qed.

Arguments zip_with_Forall {A B C} P Q f l1 l2 _ _.
Arguments zip_with_Forall_any {A B C} P f l1 l2 _.

Lemma sum_nonneg (v : vec) : Forall (fun q => 0 <= q) v -> 0 <= sum v.
Proof.
  induction 1 as [|q v Hq _ IH]; simpl; [apply Qle_refl|].
  replace 0 with (0 + 0) by reflexivity. apply Qplus_le_compat; assumption.
Qed.

Lemma sqdiff_nonneg (a b : Q) : 0 <= sqdiff a b.
Proof.
  unfold sqdiff. destruct (Qlt_le_dec (a - b) 0) as [H|H].
  - setoid_replace ((a - b) * (a - b)) with ((- (a - b)) * (- (a - b)))
      by ring.
    apply Qmult_le_0_compat; apply Qlt_le_weak;
      apply (Qopp_lt_compat (a - b) 0) in H; exact H.
  - apply Qmult_le_0_compat; exact H.
Qed.

Lemma masked_sum_nonneg (mask : mask3) (output target : tensor3) :
  0 <= sum3 (where3 mask (sqdiff3 output target)).
Proof.
  unfold sum3, where3, sqdiff3. apply sum_nonneg, Forall_map.
  apply (zip_with_Forall _ (Forall (Forall (fun q => 0 <= q)))).
  - intros m s Hs. unfold sum2. apply sum_nonneg, Forall_map.
    apply (zip_with_Forall _ (Forall (fun q => 0 <= q))); [|exact Hs].
    intros r v Hv. apply sum_nonneg.
    apply (zip_with_Forall _ (fun q => 0 <= q)); [|exact Hv].
    intros b q Hq. destruct b; simpl; [exact Hq|apply Qle_refl].
  - apply zip_with_Forall_any. intros a b. unfold sqdiff2.
    apply zip_with_Forall_any. intros r r'. unfold sqdiff1.
    apply zip_with_Forall_any. intros. apply sqdiff_nonneg.
Qed.

Lemma mean_of_nonneg (total : Q) (count : nat) (q : Q) :
  0 <= total -> mean_of total count = Finite q -> 0 <= q.
Proof.
  unfold mean_of. intros Ht. destruct (Nat.eqb_spec count 0) as [|Hn];
    [discriminate|].
  intros E. injection E as <-.
  apply Qle_shift_div_l.
  - replace 0 with (inject_Z 0) by reflexivity. rewrite <- Zlt_Qlt. lia.
  - rewrite Qmult_0_l. exact Ht.
Qed.

Lemma sum_zero (v : vec) : Forall (fun q => q == 0) v -> sum v == 0.
Proof.
  induction 1 as [|q v Hq _ IH]; simpl; [reflexivity|].
  rewrite Hq, IH. reflexivity.
Qed.

Lemma zip_with_same {A C : Type} (P : C -> Prop) (f : A -> A -> C)
    (l : list A) :
  Forall (fun a => P (f a a)) l -> Forall P (zip_with f l l).
Proof.
  induction 1; simpl; constructor; assumption.
Qed.

Lemma masked_sum_same (mask : mask3) (target : tensor3) :
  sum3 (where3 mask (sqdiff3 target target)) == 0.
Proof.
  unfold sum3, where3, sqdiff3. apply sum_zero, Forall_map.
  apply (zip_with_Forall _ (Forall (Forall (fun q => q == 0)))).
  - intros m s Hs. unfold sum2. apply sum_zero, Forall_map.
    apply (zip_with_Forall _ (Forall (fun q => q == 0))); [|exact Hs].
    intros r v Hv. apply sum_zero.
    apply (zip_with_Forall _ (fun q => q == 0)); [|exact Hv].
    intros b q Hq. destruct b; simpl; [exact Hq|reflexivity].
  - apply zip_with_same, Forall_forall. intros s _. unfold sqdiff2.
    apply zip_with_same, Forall_forall. intros r _. unfold sqdiff1.
    apply zip_with_same, Forall_forall. intros a _. unfold sqdiff. ring.
Qed.

(** X9: The masked loss is never negative, and it is zero when the
    prediction equals the target. *)
Theorem masked_loss_nonneg (self : t) (output target : tensor3)
    (target_lens : list nat) (q : Q) :
  (forward self output target target_lens = Ok (Finite q) -> 0 <= q)
  /\ (forward self target target target_lens = Ok (Finite q) -> q == 0).
Proof.
  unfold forward. split.
  - destruct (mask_loop self (zeros_like output) 0 target_lens) as [mask|];
      cbn [bind]; [|discriminate].
    intros E. injection E as E.
    apply (@mean_of_nonneg _ _ _ (masked_sum_nonneg mask output target) E).
  - destruct (mask_loop self (zeros_like target) 0 target_lens) as [mask|];
      cbn [bind]; [|discriminate].
    intros E. injection E as E. unfold mean_of in E.
    destruct (count3 mask =? 0)%nat; [discriminate|].
    injection E as <-. rewrite masked_sum_same. reflexivity.
Qed.

(** X10: On tensors of one shape, numerator and denominator of the masked
    loss range over the valid prefixes: the loss is the plain mean
    squared error of the first [min(target_lens[i], max_look_forward)]
    positions of every sample, whatever the tensors hold after them. *)
Theorem masked_loss_valid_prefixes (self : t) (b h f : nat)
    (output target : tensor3) (target_lens : list nat) :
  shape3 b h f output ->
  shape3 b h f target ->
  length target_lens = b ->
  let used := map (fun len => Nat.min len (max_look_forward self)) target_lens in
  result_eq (forward self output target target_lens)
            (Ok (mse_loss3 (prefixes used output) (prefixes used target))).
Proof.
  intros Ho _ Hlen used.
  assert (H : length target_lens = length output)
    by (destruct Ho as [Hb _]; len_lia).
  assert (E : used = map (length_used self) target_lens).
  { apply map_ext. intros len. symmetry. apply length_used_min. }
  rewrite E. apply forward_as_mse. exact H.
Qed.

Lemma prefixes_all (b h f : nat) (used : list nat) (x : tensor3) :
  shape3 b h f x -> length used = b ->
  Forall (fun k => h <= k)%nat used ->
  prefixes used x = x.
Proof.
  intros [Hl Hs] Hu Hall. subst b. unfold prefixes. revert x Hu Hs.
  induction Hall as [|k used Hk _ IH]; intros x Hu Hs.
  - destruct x; [reflexivity|discriminate].
  - destruct x as [|s x]; [discriminate|].
    inversion Hs as [|? ? Hsh Hrest]; subst.
    cbn [zip_with]. f_equal.
    + apply firstn_all2. destruct Hsh as [E _]. len_lia.
    + apply IH; [simpl in Hu; len_lia|assumption].
Qed.

(** X11: When every valid length and the cap reach the horizon, nothing is
    masked: the loss is the plain mean squared error of the batch. *)
Theorem masked_loss_unmasked (self : t) (b h f : nat)
    (output target : tensor3) (target_lens : list nat) :
  shape3 b h f output ->
  shape3 b h f target ->
  length target_lens = b ->
  Forall (fun len => h <= len)%nat target_lens ->
  (h <= max_look_forward self)%nat ->
  result_eq (forward self output target target_lens)
            (Ok (mse_loss3 output target)).
Proof.
  intros Ho Ht Hlen Hall Hcap.
  assert (Hlo : length target_lens = length output)
    by (destruct Ho as [Hb _]; len_lia).
  eapply result_eq_trans; [apply forward_as_mse; exact Hlo|].
  assert (Hused : Forall (fun k => h <= k)%nat
                    (map (length_used self) target_lens)).
  { apply Forall_map. eapply Forall_impl; [|exact Hall]. simpl.
    intros len Hl. rewrite length_used_min. lia. }
  assert (Hul : length (map (length_used self) target_lens) = b)
    by (rewrite length_map; exact Hlen).
  rewrite (prefixes_all Ho Hul Hused), (prefixes_all Ht Hul Hused).
  apply result_eq_refl.
Qed.

Lemma numel3_prefixes_zero (used : list nat) (x : tensor3) :
  Forall (fun k => k = 0%nat) used -> numel3 (prefixes used x) = 0%nat.
Proof.
  unfold numel3, prefixes. intros H. revert x.
  induction H as [|k used Hk _ IH]; intros x; [reflexivity|].
  destruct x as [|s x]; [reflexivity|]. subst k. simpl. apply IH.
Qed.

(** X12: Edge cases of the masked loss: with more lengths than samples the
    mask assignment raises [IndexError]; on tensors of one shape, with
    one length per sample and nothing left unmasked (a cap of 0, or
    every valid length 0), the result is [nan]. *)
Theorem masked_loss_edges (self : t) (b h f : nat)
    (output target : tensor3) (target_lens : list nat) :
  ((length output < length target_lens)%nat ->
     forward self output target target_lens = Raise IndexError)
  /\ (shape3 b h f output ->
      shape3 b h f target ->
      length target_lens = b ->
      max_look_forward self = 0%nat
      \/ Forall (fun len => len = 0%nat) target_lens ->
      forward self output target target_lens = Ok NaN).
Proof.
  split.
  - intros H. unfold forward.
    change (mask_loop self (zeros_like output) 0 target_lens)
      with (mask_loop self ([] ++ zeros_like output)
              (length (@nil (list (list bool)))) target_lens).
    rewrite mask_loop_overflow; [reflexivity|].
    unfold zeros_like. rewrite length_map. len_lia.
  - intros Ho _ Hb Hz.
    assert (Hlen : length target_lens = length output)
      by (destruct Ho as [Hb' _]; len_lia).
    pose proof (forward_as_mse self output target target_lens Hlen) as E.
    cbv zeta in E. unfold mse_loss3, mean_of in E.
    rewrite numel3_prefixes_zero in E.
    + destruct (forward self output target target_lens) as [[q|]|e];
        simpl in E; try contradiction. reflexivity.
    + apply Forall_map. destruct Hz as [Hc|Hall].
      * apply Forall_forall. intros len _. rewrite length_used_min. lia.
      * eapply Forall_impl; [|exact Hall]. simpl. intros len ->.
        rewrite length_used_min. lia.
Qed.

End Masked_more.

Lemma masked_loss_nonneg_witness :
  (0 <= 21 # 3)%Q.
Proof.
  assert (H : MaskedMSELoss.forward (MaskedMSELoss.init 2)
                [[[1]; [5]]; [[2]; [7]]]%Q [[[0]; [9]]; [[4]; [8]]]%Q [2; 1]
              = Ok (Tensor.Finite (21 # 3))) by reflexivity.
  exact (proj1 (masked_loss_nonneg _ _ _ _ _) H).
Defined.

Lemma masked_loss_valid_prefixes_witness :
  Tensor.result_eq
    (MaskedMSELoss.forward (MaskedMSELoss.init 2)
       [[[1]; [5]]; [[2]; [7]]]%Q [[[0]; [9]]; [[4]; [8]]]%Q [2; 1])
    (Ok (Tensor.mse_loss3 [[[1]; [5]]; [[2]]]%Q [[[0]; [9]]; [[4]]]%Q)).
Proof.
  apply (@masked_loss_valid_prefixes (MaskedMSELoss.init 2) 2 2 1
           [[[1]; [5]]; [[2]; [7]]]%Q [[[0]; [9]]; [[4]; [8]]]%Q [2; 1]).
  - repeat constructor.
  - repeat constructor.
  - reflexivity.
Defined.

Lemma masked_loss_unmasked_witness :
  Tensor.result_eq
    (MaskedMSELoss.forward (MaskedMSELoss.init 2)
       [[[1]; [5]]; [[2]; [7]]]%Q [[[0]; [9]]; [[4]; [8]]]%Q [2; 2])
    (Ok (Tensor.mse_loss3 [[[1]; [5]]; [[2]; [7]]]%Q
                          [[[0]; [9]]; [[4]; [8]]]%Q)).
Proof.
  apply (@masked_loss_unmasked (MaskedMSELoss.init 2) 2 2 1).
  - repeat constructor.
  - repeat constructor.
  - reflexivity.
  - repeat constructor.
  - simpl. lia.
Defined.

Lemma masked_loss_edges_witness :
  MaskedMSELoss.forward (MaskedMSELoss.init 3)
    [[[1]; [5]]]%Q [[[0]; [9]]]%Q [0] = Ok Tensor.NaN.
Proof.
  destruct (masked_loss_edges (MaskedMSELoss.init 3) 1 2 1
              [[[1]; [5]]]%Q [[[0]; [9]]]%Q [0]) as [_ H].
  apply H.
  - repeat constructor.
  - repeat constructor.
  - reflexivity.
  - right. repeat constructor.
Defined.

(* ------------------------------------------------------------------ *)
(** ** Normalization: a pure rescaling *)

Section Normalize_more.

Import Tensor Normalize.
Local Open Scope Q_scope.

Lemma prepare_stats_mean_zero (normalize_mode : string) (factor : Q)
    (mean0 std0 mean std : vec) :
  prepare_stats normalize_mode factor mean0 std0 = Ok (mean, std) ->
  Forall (fun m => m == 0) mean.
Proof.
  unfold prepare_stats. intros H.
  assert (Hm : Forall (fun m => m == 0) (map (fun m => m * 0) mean0)).
  { apply Forall_map, Forall_forall. intros m _. simpl. ring. }
  destruct (normalize_mode =? "max")%string.
  - destruct (tensor_max (map (fun s => s * factor) std0)); simpl in H;
      [|discriminate].
    injection H as <- _. exact Hm.
  - simpl in H. injection H as <- _. exact Hm.
Qed.

Lemma scaling1 (mean std x : vec) :
  Forall (fun m => m == 0) mean ->
  Forall (fun s => ~ s == 0) std ->
  length mean = length std ->
  length x = length std ->
  Forall2 Qeq (normalize1 mean std (inverse1 mean std x)) x
  /\ Forall2 Qeq (normalize1 mean std x) (zip_with Qdiv x std)
  /\ Forall2 Qeq (inverse1 mean std x) (zip_with Qmult x std).
Proof.
  intros Hm Hs. revert mean Hm x.
  induction Hs as [|s std Hs0 _ IH]; intros mean Hm x Hlm Hlx.
  - destruct x; [|discriminate]. repeat split; constructor.
  - destruct x as [|a x]; [discriminate|].
    destruct mean as [|m mean]; [discriminate|].
    inversion Hm as [|? ? Hm0 Hmr]; subst.
    destruct (IH mean Hmr x) as [I1 [I2 I3]]; [simpl in *; lia..|].
    simpl in *. repeat split; constructor; try assumption.
    + rewrite Hm0. field. exact Hs0.
    + rewrite Hm0. field. exact Hs0.
    + rewrite Hm0. ring.
Qed.

(** X13: The transform that [prepare_data] builds never shifts the data: its
    mean is zero, so normalizing divides every entry by its scale, the
    inverse multiplies it back, and normalizing an inverse-transformed
    tensor returns the tensor. *)
Theorem normalize_is_scaling (normalize_mode : string) (factor : Q)
    (mean0 std0 mean std x : vec) :
  prepare_stats normalize_mode factor mean0 std0 = Ok (mean, std) ->
  length mean0 = length std0 ->
  Forall (fun s => 0 < s) std ->
  length x = length std ->
  Forall2 Qeq (normalize1 mean std (inverse1 mean std x)) x
  /\ Forall2 Qeq (normalize1 mean std x) (zip_with Qdiv x std)
  /\ Forall2 Qeq (inverse1 mean std x) (zip_with Qmult x std).
Proof.
  intros H Hlen Hpos Hx.
  destruct (@prepare_stats_lengths _ _ _ _ _ _ H) as [Hls Hlm].
  apply scaling1.
  - apply (@prepare_stats_mean_zero _ _ _ _ _ _ H).
  - apply positive_nonzero. exact Hpos.
  - lia.
  - exact Hx.
Qed.

Lemma guard_floor (s : Q) : 0 <= s -> (1 # 1000000) <= guard s /\ s <= guard s.
Proof.
  intros Hs. unfold guard, Qltb.
  destruct (Qle_bool (1 # 1000000) s) eqn:E; simpl.
  - apply Qle_bool_iff in E. split; [exact E|apply Qle_refl].
  - split.
    + apply Qle_trans with (0 + (1 # 1000)); [discriminate|].
      apply Qplus_le_compat; [exact Hs|apply Qle_refl].
    + rewrite <- (Qplus_0_r s) at 1.
      apply Qplus_le_compat; [apply Qle_refl|discriminate].
Qed.

Lemma fold_Qmax_ge (t : vec) (q : Q) :
  q <= fold_left Qmax t q /\ Forall (fun a => a <= fold_left Qmax t q) t.
Proof.
  revert q. induction t as [|a t IH]; intros q; simpl.
  - split; [apply Qle_refl|constructor].
  - destruct (IH (Qmax q a)) as [I1 I2]. split.
    + eapply Qle_trans; [apply Q.le_max_l|exact I1].
    + constructor; [|exact I2].
      eapply Qle_trans; [apply Q.le_max_r|exact I1].
Qed.

(** X14: The scale that [prepare_data] builds from non-negative statistics is
    floored: no entry is below [1e-6].  In the "max" mode every
    dimension gets one and the same scale, which is at least the scaled
    standard deviation of each dimension; with no dimension at all that
    mode raises. *)
Theorem prepare_stats_floor (normalize_mode : string) (factor : Q)
    (mean0 std0 mean std : vec) :
  0 <= factor ->
  Forall (fun s => 0 <= s) std0 ->
  (prepare_stats normalize_mode factor mean0 std0 = Ok (mean, std) ->
     Forall (fun s => (1 # 1000000) <= s) std
     /\ (normalize_mode = "max"%string ->
         exists c, std = repeat c (length std0)
                   /\ Forall (fun s0 => s0 * factor <= c) std0))
  /\ prepare_stats "max" factor mean0 [] = Raise RuntimeError.
Proof.
  intros Hf Hstd. split; [|reflexivity].
  unfold prepare_stats. intros H.
  assert (Hscaled : Forall (fun s => 0 <= s) (map (fun s => s * factor) std0)).
  { apply Forall_map. eapply Forall_impl; [|exact Hstd]. simpl.
    intros s Hs. apply Qmult_le_0_compat; assumption. }
  destruct (normalize_mode =? "max")%string eqn:Emode.
  - destruct (map (fun s => s * factor) std0) as [|q t] eqn:E;
      simpl in H; [discriminate|].
    injection H as _ <-.
    destruct (fold_Qmax_ge t q) as [M1 M2].
    set (m := fold_left Qmax t q) in *.
    assert (Hm : 0 <= 1 * m).
    { rewrite Qmult_1_l. inversion Hscaled; subst.
      eapply Qle_trans; [eassumption|exact M1]. }
    destruct (guard_floor Hm) as [G1 G2].
    assert (G3 : m <= guard (1 * m)).
    { apply Qle_trans with (1 * m); [|exact G2].
      rewrite Qmult_1_l. apply Qle_refl. }
    assert (Hall : Forall (fun a => a <= guard (1 * m)) (q :: t)).
    { constructor.
      - eapply Qle_trans; [exact M1|exact G3].
      - eapply Forall_impl; [|exact M2]. simpl. intros a Ha.
        eapply Qle_trans; [exact Ha|exact G3]. }
    split.
    + constructor; [exact G1|].
      rewrite !Forall_map. apply Forall_forall. intros; exact G1.
    + intros _. exists (guard (1 * m)). split.
      * apply (f_equal (@length Q)) in E. rewrite length_map in E.
        rewrite E. simpl. f_equal. rewrite !map_map.
        generalize (guard (1 * m)) as c. clear. intros c.
        induction t as [|a t IHt]; simpl; [reflexivity|f_equal; exact IHt].
      * rewrite <- E in Hall. rewrite Forall_map in Hall. exact Hall.
  - simpl in H. injection H as _ <-. split.
    + apply Forall_map. eapply Forall_impl; [|exact Hscaled]. simpl.
      intros s Hs. apply guard_floor, Hs.
    + intros ->. discriminate Emode.
Qed.

End Normalize_more.

Lemma normalize_is_scaling_witness :
  Forall2 Qeq (Normalize.normalize1 [0 * 0; 3 * 0]%Q [2; (1 # 1000)]%Q [5; 7]%Q)
              (Tensor.zip_with Qdiv [5; 7]%Q [2; (1 # 1000)]%Q).
Proof.
  assert (H : Normalize.prepare_stats "equal" 2 [0; 3]%Q [1; 0]%Q
              = Ok ([0 * 0; 3 * 0]%Q, [1 * 2; Normalize.guard (0 * 2)]%Q))
    by reflexivity.
  destruct (@normalize_is_scaling "equal" 2%Q [0; 3]%Q [1; 0]%Q _ _
              [5; 7]%Q H eq_refl) as [_ [H2 _]].
  - repeat constructor.
  - reflexivity.
  - exact H2.
Defined.

Lemma prepare_stats_floor_witness :
  Forall (fun s => (1 # 1000000) <= s)%Q [6; 6]%Q.
Proof.
  assert (H : Normalize.prepare_stats "max" 2 [1; 2]%Q [3; 0]%Q
              = Ok ([1 * 0; 2 * 0]%Q,
                    [Normalize.guard (1 * 6); Normalize.guard (1 * 6)]%Q))
    by reflexivity.
  destruct (@prepare_stats_floor "max" 2%Q [1; 2]%Q [3; 0]%Q
              [1 * 0; 2 * 0]%Q
              [Normalize.guard (1 * 6); Normalize.guard (1 * 6)]%Q)
    as [Hfloor _].
  - discriminate.
  - repeat constructor; discriminate.
  - exact (proj1 (Hfloor H)).
Defined.

(* ------------------------------------------------------------------ *)
(** ** The discrete-time Koopman operator *)

Section Operator_more.

Import Koopman.
Local Open Scope R_scope.

Variable dim : nat.

Lemma matmul_ext (A A' B B' : matrix) (i j : nat) :
  (forall l, (l < dim)%nat -> A i l = A' i l) ->
  (forall l, (l < dim)%nat -> B l j = B' l j) ->
  matmul dim A B i j = matmul dim A' B' i j.
Proof.
  intros HA HB. unfold matmul. apply big_sum_ext. intros l Hl.
  rewrite (HA l Hl), (HB l Hl). reflexivity.
Qed.

(** X15: Stepping with [-dt] undoes stepping with [dt]: for each of the three
    operator classes the discrete operator is invertible, on both
    sides. *)
Theorem discrete_operator_invertible (dt : R) (op : operator) (i j : nat) :
  (i < dim)%nat -> (j < dim)%nat ->
  matmul dim (get_discrete_time_Koopman_Operator dim (- dt) op)
             (get_discrete_time_Koopman_Operator dim dt op) i j = eye i j
  /\ matmul dim (get_discrete_time_Koopman_Operator dim dt op)
                (get_discrete_time_Koopman_Operator dim (- dt) op) i j
     = eye i j.
Proof.
  intros Hi Hj. unfold get_discrete_time_Koopman_Operator. split.
  - rewrite <- (matrix_exp_inverse_entry dim (mscale dt (get_K op)) i j Hi Hj).
    apply matmul_ext; [|reflexivity]. intros l _.
    apply matrix_exp_ext. intros a b. unfold mscale. ring.
  - rewrite <- (matrix_exp_inverse_entry dim (mscale (- dt) (get_K op))
                  i j Hi Hj).
    apply matmul_ext; [|reflexivity]. intros l _.
    apply matrix_exp_ext. intros a b. unfold mscale. ring.
Qed.

Lemma mpow_zero (K : matrix) (k i j : nat) :
  (forall i j, K i j = 0) -> mpow dim K (S k) i j = 0.
Proof.
  intros HK. simpl. unfold matmul.
  rewrite (big_sum_ext dim _ (fun _ => 0)); [apply big_sum_zero|].
  intros l _. rewrite HK. ring.
Qed.

Lemma matrix_exp_zero (K : matrix) (i j : nat) :
  (forall i j, K i j = 0) ->
  (i < dim)%nat -> (j < dim)%nat ->
  matrix_exp dim K i j = eye i j.
Proof.
  intros HK Hi Hj. apply matrix_exp_unique; [exact Hi|exact Hj|].
  apply (Un_cv_ext (fun _ => eye i j)); [|apply Un_cv_const].
  intros N. unfold exp_partial. induction N as [|N IH].
  - simpl. unfold exp_term. simpl. field.
  - rewrite tech5, <- IH. unfold exp_term.
    rewrite (mpow_zero K N i j HK). ring.
Qed.

Lemma forward_eye (dt : R) (op : operator) (x : vector) (j : nat) :
  (forall i j, (i < dim)%nat -> (j < dim)%nat ->
     get_discrete_time_Koopman_Operator dim dt op i j = eye i j) ->
  (j < dim)%nat ->
  forward dim dt op x j = x j.
Proof.
  intros HA Hj. unfold forward, transpose.
  rewrite (big_sum_ext dim _
             (fun k => x k * (if (k =? j)%nat then 1 else 0))).
  - apply (big_sum_delta_r dim j x Hj).
  - intros k Hk. rewrite (HA j k Hj Hk). unfold eye.
    rewrite Nat.eqb_sym. reflexivity.
Qed.

(** X16: With a zero time step, and for a Hamiltonian operator whose
    parameter is a symmetric matrix, the discrete operator is the
    identity and [forward] returns its input. *)
Theorem identity_operator (dt : R) (op : operator) (S : matrix) (x : vector)
    (i j : nat) :
  (i < dim)%nat -> (j < dim)%nat ->
  get_discrete_time_Koopman_Operator dim 0 op i j = eye i j
  /\ forward dim 0 op x j = x j
  /\ ((forall a b, S a b = S b a) ->
      get_discrete_time_Koopman_Operator dim dt (Hamiltonian S) i j = eye i j
      /\ forward dim dt (Hamiltonian S) x j = x j).
Proof.
  intros Hi Hj.
  assert (H0 : forall a b, (a < dim)%nat -> (b < dim)%nat ->
                 get_discrete_time_Koopman_Operator dim 0 op a b = eye a b).
  { intros a b Ha Hb. unfold get_discrete_time_Koopman_Operator.
    apply matrix_exp_zero; [|exact Ha|exact Hb].
    intros p q. unfold mscale. ring. }
  split; [apply H0; assumption|]. split; [apply forward_eye; assumption|].
  intros Hsym.
  assert (HS : forall a b, (a < dim)%nat -> (b < dim)%nat ->
                 get_discrete_time_Koopman_Operator dim dt (Hamiltonian S) a b
                 = eye a b).
  { intros a b Ha Hb. unfold get_discrete_time_Koopman_Operator.
    apply matrix_exp_zero; [|exact Ha|exact Hb].
    intros p q. simpl. unfold mscale, msub, transpose.
    rewrite (Hsym p q). ring. }
  split; [apply HS; assumption|apply forward_eye; assumption].
Qed.

(** X17: The Hamiltonian operator preserves the Euclidean norm of the latent
    state: the squares of the entries of [forward(x)] sum to the squares
    of the entries of [x]. *)
Theorem hamiltonian_preserves_norm (dt : R) (S : matrix) (x : vector) :
  big_sum dim (fun j => forward dim dt (Hamiltonian S) x j
                        * forward dim dt (Hamiltonian S) x j)
  = big_sum dim (fun k => x k * x k).
Proof.
  set (A := get_discrete_time_Koopman_Operator dim dt (Hamiltonian S)).
  assert (Horth : forall k l, (k < dim)%nat -> (l < dim)%nat ->
                    big_sum dim (fun j => A j k * A j l) = eye k l).
  { intros k l Hk Hl.
    assert (Hskew : forall a b,
              mscale dt (get_K (Hamiltonian S)) a b
              = - mscale dt (get_K (Hamiltonian S)) b a).
    { intros a b. simpl. unfold mscale, msub, transpose. ring. }
    exact (skew_exp_orthogonal dim _ k l Hskew Hk Hl). }
  unfold forward. fold A. unfold transpose.
  rewrite (big_sum_ext dim _
             (fun j => big_sum dim (fun k => big_sum dim
                         (fun l => x k * x l * (A j k * A j l))))).
  2:{ intros j _. rewrite <- big_sum_scal_r. apply big_sum_ext. intros k _.
      rewrite <- big_sum_scal. apply big_sum_ext. intros l _. ring. }
  rewrite big_sum_swap. apply big_sum_ext. intros k Hk.
  rewrite big_sum_swap.
  rewrite (big_sum_ext dim _
             (fun l => (if (k =? l)%nat then 1 else 0) * (x k * x l))).
  - apply (big_sum_delta_l dim k (fun l => x k * x l) Hk).
  - intros l Hl. rewrite big_sum_scal, (Horth k l Hk Hl). unfold eye. ring.
Qed.

(** X18: As long as no entry of the trained [diagonal] is positive, which
    holds at construction, every eigenvalue of the Dissipative generator
    has a non-positive real part. *)
Theorem dissipative_nonpositive_diagonal (S : matrix) (d v : vector)
    (a b : R) :
  ((forall i, (i < dim)%nat -> d i <= 0) ->
   eigenvalue dim (get_K (Dissipative S d)) a b -> a <= 0)
  /\ (eigenvalue dim (get_K (Dissipative S (diagonal_init v))) a b -> a <= 0).
Proof.
  split.
  - apply dissipative_eigenvalue.
  - apply dissipative_eigenvalue. intros i _. apply diagonal_init_nonpos.
Qed.

End Operator_more.

Lemma discrete_operator_invertible_witness :
  let op := Koopman.Standard (fun i j => INR (i + 2 * j)) in
  Koopman.matmul 2 (Koopman.get_discrete_time_Koopman_Operator 2 (- (1)) op)
                   (Koopman.get_discrete_time_Koopman_Operator 2 1 op) 0 1
  = 0%R.
Proof.
  intros op.
  destruct (@discrete_operator_invertible 2 1%R op 0 1) as [H _];
    [lia|lia|exact H].
Defined.

Lemma identity_operator_witness :
  let op := Koopman.Dissipative (fun i j => INR (i + j)) (fun i => INR i) in
  Koopman.forward 3 0 op (fun k => INR k) 2 = INR 2.
Proof.
  intros op.
  destruct (@identity_operator 3 1%R op (fun _ _ => 0%R) (fun k => INR k) 2 2)
    as [_ [H _]]; [lia|lia|exact H].
Defined.

Lemma dissipative_nonpositive_diagonal_witness : (- (1) <= 0)%R.
Proof.
  destruct (@dissipative_nonpositive_diagonal 1 (fun _ _ => 0%R)
              (fun _ => (- (1))%R) (fun _ => 1%R) (- (1))%R 0%R) as [H _].
  apply H.
  - intros i _. lra.
  - exists (fun _ => 1%R), (fun _ => 0%R). split.
    + exists 0. split; [lia|]. left. lra.
    + intros i Hi. assert (i = 0) by lia. subst i.
      unfold Koopman.matvec, Koopman.get_K, Koopman.msub, Koopman.madd,
        Koopman.diag, Koopman.transpose.
      simpl. split; lra.
Defined.

(* ------------------------------------------------------------------ *)
(** ** Inference with the trained networks *)

Section Inference_more.

Import Tensor DLKoopmanRegressor.

Variable _encoder : vec -> vec.
Variable _decoder : vec -> vec.
Variable _koopman_propagator : vec -> vec.

Lemma propagate_loop_length (e : mat) (n : nat) :
  length (propagate_loop _koopman_propagator e n) = n.
Proof.
  revert e. induction n as [|n IH]; intros e; simpl; [reflexivity|].
  rewrite IH. reflexivity.
Qed.

Lemma propagate_loop_nth (n i : nat) (e : mat) :
  i < n ->
  nth_error (propagate_loop _koopman_propagator e n) i
  = Some (map (Nat.iter (S i) _koopman_propagator) e).
Proof.
  revert i e. induction n as [|n IH]; intros i e Hi; [lia|].
  destruct i as [|i]; cbn [propagate_loop nth_error].
  - f_equal.
  - rewrite IH by lia. rewrite map_map. f_equal. apply map_ext.
    intros v. symmetry. apply Nat.iter_succ_r.
Qed.

Lemma set_row_app (pre post : mat) (r v : vec) :
  length r = length v ->
  set_row (pre ++ r :: post) (length pre) v = Ok (pre ++ v :: post).
Proof.
  intros Hw. induction pre as [|p pre IH]; simpl.
  - rewrite Hw, Nat.eqb_refl. reflexivity.
  - rewrite IH. reflexivity.
Qed.

Lemma set_row_overflow (s : mat) (i : nat) (v : vec) :
  length s <= i -> set_row s i v = Raise IndexError.
Proof.
  revert i. induction s as [|r s IH]; intros i Hi; simpl; [reflexivity|].
  destruct i as [|i]; [simpl in Hi; lia|].
  rewrite IH by (simpl in Hi; lia). reflexivity.
Qed.

(** The tensor [decoded] after its first [k] columns were written. *)
Lemma set_col_prefix (D : nat -> vec -> vec) (d H k : nat) (x : mat) :
  k < H -> (forall i v, length (D i v) = d) ->
  set_col
    (map (fun v => map (fun i => D i v) (seq 0 k) ++ repeat (zeros1 d) (H - k))
         x) k (map (D k) x)
  = Ok (map (fun v => map (fun i => D i v) (seq 0 (S k))
                      ++ repeat (zeros1 d) (H - S k)) x).
Proof.
  intros Hk Hw. induction x as [|v x IH]; [reflexivity|].
  cbn [map set_col]. rewrite IH. clear IH.
  replace (H - k) with (S (H - S k)) by lia. cbn [repeat].
  pose proof (@set_row_app (map (fun i => D i v) (seq 0 k))
                (repeat (zeros1 d) (H - S k)) (zeros1 d) (D k v)) as E.
  rewrite length_map, length_seq in E. rewrite E.
  - cbn [bind]. rewrite seq_S, map_app, <- app_assoc. reflexivity.
  - unfold zeros1. rewrite repeat_length, Hw. reflexivity.
Qed.

Lemma set_col_overflow (t : tensor3) (s : mat) (i : nat) (vals : mat)
    (v : vec) :
  length s <= i -> set_col (s :: t) i (v :: vals) = Raise IndexError.
Proof.
  intros Hi. cbn [set_col]. rewrite set_row_overflow by exact Hi.
  reflexivity.
Qed.

Lemma rnn_fold_raise (phi_seq : list mat) (e : exn) (l : list nat) :
  fold_left (rnn_step _decoder phi_seq) l (Raise e) = Raise e.
Proof. induction l as [|i l IH]; [reflexivity|exact IH]. Qed.

Lemma rnn_step_column (x : mat) (n k : nat) (t : tensor3) :
  k < n ->
  rnn_step _decoder (propagate_loop _koopman_propagator (map _encoder x) n)
           (Ok t) k
  = set_col t k
      (map (fun v => _decoder (Nat.iter (S k) _koopman_propagator (_encoder v)))
           x).
Proof.
  intros Hk. unfold rnn_step, getitem. cbn [bind].
  rewrite propagate_loop_nth by exact Hk. cbn [bind].
  rewrite !map_map. reflexivity.
Qed.

Lemma rnn_fold (x : mat) (d H n m k : nat) :
  (forall v, length (_decoder v) = d) ->
  k + m <= H -> k + m <= n ->
  fold_left
    (rnn_step _decoder (propagate_loop _koopman_propagator (map _encoder x) n))
    (seq k m)
    (Ok (map (fun v =>
                map (fun i => _decoder (Nat.iter (S i) _koopman_propagator
                                                 (_encoder v))) (seq 0 k)
                ++ repeat (zeros1 d) (H - k)) x))
  = Ok (map (fun v =>
               map (fun i => _decoder (Nat.iter (S i) _koopman_propagator
                                                (_encoder v))) (seq 0 (k + m))
               ++ repeat (zeros1 d) (H - (k + m))) x).
Proof.
  intros Hw. revert k. induction m as [|m IH]; intros k HH Hn.
  - rewrite Nat.add_0_r. reflexivity.
  - cbn [seq fold_left]. rewrite rnn_step_column by lia.
    rewrite (@set_col_prefix
               (fun i v => _decoder (Nat.iter (S i) _koopman_propagator
                                              (_encoder v))) d H k x);
      [|lia|intros i v; apply Hw].
    rewrite IH by lia. replace (S k + m) with (k + S m) by lia. reflexivity.
Qed.

Lemma zeros3_as_prefix (D : nat -> vec -> vec) (x : mat) (H d : nat) :
  zeros3 (length x) H d
  = map (fun v => map (fun i => D i v) (seq 0 0) ++ repeat (zeros1 d) (H - 0))
        x.
Proof.
  unfold zeros3, zeros2. rewrite Nat.sub_0_r. cbn [seq map app].
  induction x as [|v x IH]; [reflexivity|]. cbn [length repeat map].
  rewrite IH. reflexivity.
Qed.

Lemma forward_succ (x : mat) (n : nat) :
  Inference.forward _encoder _decoder _koopman_propagator x (S n)
  = Ok (map (fun v => _decoder (Nat.iter (S n) _koopman_propagator
                                         (_encoder v))) x).
Proof.
  unfold Inference.forward, Inference._propagate_encoded_n_steps.
  cbn [propagate_loop stack1 bind]. unfold getitem.
  pose proof (propagate_loop_length (map _encoder x) (S n)) as Hlen.
  pose proof (@propagate_loop_nth (S n) n (map _encoder x)) as Hnth.
  cbn [propagate_loop] in Hlen, Hnth. rewrite Hlen.
  replace (S n - 1) with n by lia. rewrite Hnth by lia. cbn [bind].
  rewrite !map_map. reflexivity.
Qed.

(** X19: [forward(x, n)] applies, to every row of the batch, the encoder, the
    propagator [n] times and the decoder; with [n = 0] there is nothing
    to stack and the call is refused. *)
Theorem forward_n_steps (x : mat) (n : nat) :
  Inference.forward _encoder _decoder _koopman_propagator x 0
  = Raise RuntimeError
  /\ Inference.forward _encoder _decoder _koopman_propagator x (S n)
     = Ok (map (fun v => _decoder (Nat.iter (S n) _koopman_propagator
                                            (_encoder v))) x).
Proof. split; [reflexivity|apply forward_succ]. Qed.

(** X20: When the decoder returns rows of the width of the input,
    [forward_all(x, n)] holds at position [i] what [forward(x, i + 1)]
    returns, for every [i < n]; [n = 0] is refused. *)
Theorem forward_all_columns (self : t) (x : mat) (n : nat) :
  (forall v, length (_decoder v) = input_size self) ->
  Inference.forward_all _encoder _decoder _koopman_propagator self x 0
  = Raise RuntimeError
  /\ Inference.forward_all _encoder _decoder _koopman_propagator self x (S n)
     = Ok (map (fun v =>
                  map (fun i => _decoder (Nat.iter (S i) _koopman_propagator
                                                   (_encoder v)))
                      (seq 0 (S n))) x)
  /\ forall i, i <= n ->
       (r <- Inference.forward_all _encoder _decoder _koopman_propagator
               self x (S n) ;;
        get_col r i)
       = Inference.forward _encoder _decoder _koopman_propagator x (S i).
Proof.
  intros Hw. split; [reflexivity|].
  assert (Hall :
    Inference.forward_all _encoder _decoder _koopman_propagator self x (S n)
    = Ok (map (fun v =>
                 map (fun i => _decoder (Nat.iter (S i) _koopman_propagator
                                                  (_encoder v)))
                     (seq 0 (S n))) x)).
  { unfold Inference.forward_all, Inference._propagate_encoded_n_steps.
    pose proof (@rnn_fold x (input_size self) (S n) (S n) (S n) 0 Hw
                  (le_n _) (le_n _)) as F.
    rewrite <- (zeros3_as_prefix
                  (fun i v => _decoder (Nat.iter (S i) _koopman_propagator
                                                 (_encoder v)))) in F.
    cbn [propagate_loop stack1 bind] in *.
    etransitivity; [exact F|].
    rewrite Nat.add_0_l, Nat.sub_diag. apply f_equal. apply map_ext.
    intros v. cbn [repeat]. apply app_nil_r. }
  split; [exact Hall|].
  intros i Hi. rewrite Hall. cbn [bind].
  rewrite forward_succ. clear Hall.
  induction x as [|v x IH]; [reflexivity|].
  cbn [map get_col]. unfold getitem at 1.
  rewrite (@map_seq_nth_error vec
             (fun i => _decoder (Nat.iter (S i) _koopman_propagator
                                          (_encoder v))) (S n) i) by lia.
  cbn [bind]. rewrite IH. reflexivity.
Qed.

End Inference_more.

Lemma forward_all_columns_witness :
  let dec : Tensor.vec -> Tensor.vec := fun v => [Tensor.sum v] in
  let prop : Tensor.vec -> Tensor.vec := map (Qmult 2) in
  let cfg := {| DLKoopmanRegressor.cfg_input_size := 1;
                DLKoopmanRegressor.cfg_hidden_sizes := [];
                DLKoopmanRegressor.cfg_output_size := 2;
                DLKoopmanRegressor.cfg_activations := "tanh" |} in
  let self := DLKoopmanRegressor.init None 2 cfg cfg false in
  Inference.forward_all (fun v => v ++ v) dec prop self [[1]; [3]]%Q 2
  = Ok [[[4]; [8]]; [[12]; [24]]]%Q.
Proof.
  intros dec prop cfg self.
  destruct (@forward_all_columns (fun v => v ++ v) dec prop self
              [[1]; [3]]%Q 1) as [_ [H _]].
  - intros v. reflexivity.
  - rewrite H. vm_compute. reflexivity.
Defined.

(* ------------------------------------------------------------------ *)
(** ** Batches that [training_step] refuses *)

Section Training_more.

Import Tensor DLKoopmanRegressor.

Variable _encoder : vec -> vec.
Variable _decoder : vec -> vec.
Variable _koopman_propagator : vec -> vec.
Variable self : t.

Lemma lens_max_nonempty (ys : list nat) :
  ys <> [] -> lens_max ys = Ok (list_max ys).
Proof. destruct ys; [congruence|reflexivity]. Qed.

Lemma stack1_propagate (e : mat) (n : nat) :
  stack1 (propagate_loop _koopman_propagator e (S n))
  = Ok (propagate_loop _koopman_propagator e (S n)).
Proof. reflexivity. Qed.

Lemma rnn_fold_overflow (x : mat) (H n : nat) :
  x <> [] ->
  (forall v, length (_decoder v) = input_size self) ->
  H < n ->
  fold_left
    (rnn_step _decoder (propagate_loop _koopman_propagator (map _encoder x) n))
    (seq 0 n) (Ok (zeros3 (length x) H (input_size self)))
  = Raise IndexError.
Proof.
  intros Hx Hw Hn.
  replace n with (H + S (n - S H)) at 2 by lia.
  rewrite seq_app, fold_left_app.
  assert (Hn' : 0 + H <= n) by lia.
  pose proof (@rnn_fold _encoder _decoder _koopman_propagator x
                (input_size self) H n H 0 Hw (le_n _) Hn') as F.
  rewrite <- (zeros3_as_prefix
                (fun i v => _decoder (Nat.iter (S i) _koopman_propagator
                                               (_encoder v)))) in F.
  etransitivity; [apply (f_equal (fold_left _ _)); exact F|].
  cbn [seq fold_left Nat.add].
  rewrite (@rnn_step_column _encoder _decoder _koopman_propagator x n H)
    by lia.
  destruct x as [|v x]; [congruence|]. cbn [map].
  rewrite set_col_overflow.
  - apply rnn_fold_raise.
  - rewrite length_app, length_map, length_seq, repeat_length. lia.
Qed.

(** X21: [training_step] raises on a batch without valid lengths, on one
    whose valid lengths are all zero, and, the decoder returning rows of
    the width of the input, on one holding a valid length larger than
    [look_forward]. *)
Theorem training_step_refused (x : mat) (y : tensor3) (ys : list nat) :
  training_step _encoder _decoder _koopman_propagator self x y []
  = Raise RuntimeError
  /\ (ys <> [] -> list_max ys = 0 ->
      training_step _encoder _decoder _koopman_propagator self x y ys
      = Raise RuntimeError)
  /\ (x <> [] ->
      (forall v, length (_decoder v) = input_size self) ->
      look_forward self < list_max ys ->
      training_step _encoder _decoder _koopman_propagator self x y ys
      = Raise IndexError).
Proof.
  split; [reflexivity|]. split.
  - intros Hys H0. unfold training_step.
    rewrite (lens_max_nonempty Hys), H0. reflexivity.
  - intros Hx Hw Hlf. unfold training_step.
    assert (Hys : ys <> []).
    { intros E. subst ys. simpl in Hlf. lia. }
    rewrite (lens_max_nonempty Hys). cbn [bind].
    destruct (list_max ys) as [|n] eqn:En; [lia|].
    rewrite stack1_propagate. cbn [bind].
    rewrite (rnn_fold_overflow Hx Hw Hlf). reflexivity.
Qed.

End Training_more.

Lemma training_step_refused_witness :
  let dec : Tensor.vec -> Tensor.vec := fun v => [Tensor.sum v] in
  let cfg := {| DLKoopmanRegressor.cfg_input_size := 1;
                DLKoopmanRegressor.cfg_hidden_sizes := [];
                DLKoopmanRegressor.cfg_output_size := 2;
                DLKoopmanRegressor.cfg_activations := "tanh" |} in
  let self := DLKoopmanRegressor.init None 1 cfg cfg false in
  DLKoopmanRegressor.training_step (fun v => v ++ v) dec (map (Qmult 2)) self
    [[1]]%Q [[[2]; [4]]]%Q [0]
  = Raise RuntimeError
  /\ DLKoopmanRegressor.training_step (fun v => v ++ v) dec (map (Qmult 2))
       self [[1]]%Q [[[2]; [4]]]%Q [2]
     = Raise IndexError.
Proof.
  intros dec cfg self. split.
  - destruct (@training_step_refused (fun v => v ++ v) dec (map (Qmult 2))
                self [[1]]%Q [[[2]; [4]]]%Q [0]) as [_ [H _]].
    apply H; [discriminate|reflexivity].
  - destruct (@training_step_refused (fun v => v ++ v) dec (map (Qmult 2))
                self [[1]]%Q [[[2]; [4]]]%Q [2]) as [_ [_ H]].
    apply H; [discriminate|intros v; reflexivity|simpl; lia].
Defined.

(* ------------------------------------------------------------------ *)
(** ** The layers of an FFNN and the effective map of the decoder *)

Section FFNN_more.

Import FFNN EffectiveMap.
Local Open Scope string_scope.
Local Open Scope list_scope.

Lemma activations_dict_module (activations : string) (act : module) :
  activations_dict activations = Ok act -> is_linear act = false.
Proof.
  unfold activations_dict.
  repeat (destruct (activations =? _);
          [intros H; injection H as <-; reflexivity|]).
  discriminate.
Qed.

Lemma hidden_loop_links (activations : string) (act : module) (bias : bool) :
  forall (tl pre : list nat) (h : nat) (L : list module),
  fold_left (hidden_step (pre ++ h :: tl) activations act bias)
            (seq (S (length pre)) (length tl)) L
  = L ++ concat (map (fun p => Linear (fst p) (snd p) bias ::
                        (if negb (activations =? "linear") then [act] else []))
                     (links h tl)).
Proof.
  induction tl as [|t tl IH]; intros pre h L.
  - simpl. rewrite app_nil_r. reflexivity.
  - cbn [length seq fold_left links map concat fst snd].
    specialize (IH (pre ++ [h]) t).
    rewrite <- app_assoc in IH. cbn [app] in IH.
    rewrite length_app in IH. cbn [length] in IH.
    replace (length pre + 1)%nat with (S (length pre)) in IH by lia.
    rewrite IH. unfold hidden_step.
    replace (S (length pre) - 1)%nat with (length pre) by lia.
    rewrite nth_middle.
    replace (nth (S (length pre)) (pre ++ h :: t :: tl) 0%nat) with t.
    + destruct (negb (activations =? "linear")); cbn [app];
        rewrite <- !app_assoc; reflexivity.
    + change (pre ++ h :: t :: tl) with (pre ++ [h] ++ t :: tl).
      rewrite app_assoc.
      replace (S (length pre)) with (length (pre ++ [h]))
        by (rewrite length_app; simpl; lia).
      rewrite nth_middle. reflexivity.
Qed.

Lemma last_default {A : Type} (l : list A) (a d d' : A) :
  last (a :: l) d = last (a :: l) d'.
Proof.
  revert a. induction l as [|b l IH]; intros a; [reflexivity|].
  change (last (b :: l) d = last (b :: l) d'). apply IH.
Qed.

Lemma last_cons_default {A : Type} (l : list A) (a d : A) :
  last (a :: l) d = last l a.
Proof.
  revert a. induction l as [|b l IH]; intros a; [reflexivity|].
  change (last (b :: l) d = last (b :: l) a). apply last_default.
Qed.

Lemma init_closed (input_size : nat) (hidden_sizes : list nat)
    (output_size : nat) (activations : string) (act : module) :
  activations_dict activations = Ok act ->
  init input_size hidden_sizes output_size activations
  = Ok (concat (map (fun p => Linear (fst p) (snd p)
                                (negb (activations =? "linear")) ::
                       (if negb (activations =? "linear") then [act] else []))
                    (links input_size hidden_sizes))
        ++ [Linear (last hidden_sizes input_size) output_size
              (negb (activations =? "linear")
               && (length hidden_sizes =? 0)%nat)]).
Proof.
  intros Hact. unfold init. rewrite Hact. cbn [bind].
  destruct hidden_sizes as [|h0 tl].
  - cbn. destruct (activations =? "linear"); reflexivity.
  - cbn [length Nat.eqb links map concat fst snd].
    replace (S (length tl) - 1)%nat with (length tl) by lia.
    rewrite andb_false_r.
    pose proof (@hidden_loop_links activations act
                  (if activations =? "linear" then false else true)
                  tl [] h0) as F.
    cbn [app length] in F. rewrite F. clear F.
    rewrite (last_default tl h0 0%nat input_size).
    replace (nth 0 (h0 :: tl) 0%nat) with h0 by reflexivity.
    destruct (activations =? "linear"); cbn [negb app];
      rewrite <- ?app_assoc; reflexivity.
Qed.

(** X22: [FFNN.__init__] refuses an activation outside its seven names with
    [KeyError]; otherwise the layers form the chain
    [input_size -> hidden_sizes[0] -> ... -> output_size] of linear
    layers, each hidden one followed by the activation module unless the
    activation is "linear". *)
Theorem ffnn_layer_chain (input_size : nat) (hidden_sizes : list nat)
    (output_size : nat) (activations : string) :
  (~ In activations
        ["relu"; "sigmoid"; "tanh"; "swish"; "elu"; "mish"; "linear"] ->
   init input_size hidden_sizes output_size activations = Raise KeyError)
  /\ (In activations
         ["relu"; "sigmoid"; "tanh"; "swish"; "elu"; "mish"; "linear"] ->
      exists act,
        activations_dict activations = Ok act
        /\ is_linear act = false
        /\ init input_size hidden_sizes output_size activations
           = Ok (concat
                   (map (fun p => Linear (fst p) (snd p)
                                    (negb (activations =? "linear")) ::
                           (if negb (activations =? "linear")
                            then [act] else []))
                        (links input_size hidden_sizes))
                 ++ [Linear (last hidden_sizes input_size) output_size
                       (negb (activations =? "linear")
                        && (length hidden_sizes =? 0)%nat)])).
Proof.
  split.
  - intros Hn. unfold init, activations_dict.
    repeat match goal with
           | |- context [activations =? ?s] =>
               destruct (String.eqb_spec activations s) as [E|_];
               [exfalso; apply Hn; rewrite E; simpl; tauto|]
           end.
    reflexivity.
  - intros Hin.
    assert (Hok : exists act, activations_dict activations = Ok act).
    { simpl in Hin.
      repeat (destruct Hin as [<-|Hin]; [eexists; reflexivity|]).
      contradiction. }
    destruct Hok as [act Hact]. exists act.
    split; [exact Hact|].
    split; [exact (@activations_dict_module activations act Hact)|].
    apply init_closed. exact Hact.
Qed.

Lemma weights_of_linear (b : bool) (l : list (nat * nat)) :
  decoder_weight_list (map (fun p => Linear (fst p) (snd p) b) l)
  = Ok (map (fun p => (snd p, fst p)) l).
Proof.
  induction l as [|p l IH]; [reflexivity|].
  cbn [map decoder_weight_list weight bind]. rewrite IH. reflexivity.
Qed.

Lemma links_app (a : nat) (l : list nat) (b : nat) :
  links a (l ++ [b]) = links a l ++ [(last l a, b)].
Proof.
  revert a. induction l as [|c l IH]; intros a; [reflexivity|].
  cbn [app links]. rewrite IH, last_cons_default. reflexivity.
Qed.

Lemma links_length (a : nat) (l : list nat) : length (links a l) = length l.
Proof.
  revert a. induction l as [|c l IH]; intros a; [reflexivity|].
  cbn [links length]. rewrite IH. reflexivity.
Qed.

Lemma chain_shape (r : nat) (l : list nat) (a : nat) :
  fold_left (fun acc b => s <- acc ;; matmul_shape s b)
            (rev (map (fun p : nat * nat => (snd p, fst p)) (links a l)))
            (Ok (r, last l a))
  = Ok (r, a).
Proof.
  revert a. induction l as [|b l IH]; intros a; [reflexivity|].
  cbn [links map rev fst snd]. rewrite fold_left_app, last_cons_default, IH.
  cbn [fold_left bind]. unfold matmul_shape. cbn [fst snd].
  rewrite Nat.eqb_refl. reflexivity.
Qed.

Lemma concat_singletons {A B : Type} (f : A -> B) (l : list A) :
  concat (map (fun p => f p :: []) l) = map f l.
Proof.
  induction l as [|p l IH]; [reflexivity|].
  cbn [map concat app]. rewrite IH. reflexivity.
Qed.

(** X23: What [fit] computes from the decoder after training: when the
    decoder is linear, or has no hidden layer, its weights multiply to a
    matrix of shape [(output_size, input_size)]; a decoder with hidden
    layers and another activation makes [fit] raise [AttributeError],
    its activation modules having no [weight]. *)
Theorem decoder_effective_map (input_size : nat) (hidden_sizes : list nat)
    (output_size : nat) (activations : string) (layers : list module) :
  init input_size hidden_sizes output_size activations = Ok layers ->
  (activations = "linear" \/ hidden_sizes = [] ->
   ur_shape layers = Ok (output_size, input_size))
  /\ (activations <> "linear" -> hidden_sizes <> [] ->
      ur_shape layers = Raise AttributeError).
Proof.
  intros Hinit.
  destruct (activations_dict activations) as [act|e] eqn:Hact;
    [|unfold init in Hinit; rewrite Hact in Hinit; discriminate].
  rewrite (@init_closed input_size hidden_sizes output_size activations act
             Hact) in Hinit.
  injection Hinit as <-.
  pose proof (@activations_dict_module activations act Hact) as Hmod.
  split.
  - intros [Hlin|Hnil].
    + subst activations. change ("linear" =? "linear") with true.
      cbn [negb andb].
      rewrite (concat_singletons (fun p => Linear (fst p) (snd p) false)).
      change [Linear (last hidden_sizes input_size) output_size false]
        with (map (fun p => Linear (fst p) (snd p) false)
                  [(last hidden_sizes input_size, output_size)]).
      rewrite <- map_app, <- links_app.
      unfold ur_shape. rewrite weights_of_linear. cbn [bind].
      rewrite length_map, links_length, length_app. cbn [length].
      destruct hidden_sizes as [|h0 tl]; [reflexivity|].
      replace (1 <? length (h0 :: tl) + 1)%nat with true
        by (symmetry; apply Nat.ltb_lt; simpl; lia).
      rewrite links_app, map_app, rev_app_distr. cbn [map rev app fst snd].
      unfold multi_dot.
      replace (length ((output_size, last (h0 :: tl) input_size)
                       :: rev (map (fun p : nat * nat => (snd p, fst p))
                                   (links input_size (h0 :: tl)))) <? 2)%nat
        with false.
      * apply chain_shape.
      * symmetry. apply Nat.ltb_ge. cbn [length].
        rewrite length_rev, length_map, links_length. simpl. lia.
    + subst hidden_sizes. reflexivity.
  - intros Hnl Hne. destruct hidden_sizes as [|h0 tl]; [congruence|].
    apply String.eqb_neq in Hnl. rewrite Hnl. cbn [negb links map concat app].
    unfold ur_shape. cbn [decoder_weight_list weight bind].
    destruct act; try discriminate; reflexivity.
Qed.

End FFNN_more.

Lemma ffnn_layer_chain_witness :
  FFNN.init 2 [8; 4] 3 "tanh"
  = Ok [FFNN.Linear 2 8 true; FFNN.Tanh; FFNN.Linear 8 4 true; FFNN.Tanh;
        FFNN.Linear 4 3 false]
  /\ FFNN.init 2 [8; 4] 3 "gelu" = Raise KeyError.
Proof.
  destruct (ffnn_layer_chain 2 [8; 4] 3 "tanh") as [_ H].
  destruct (ffnn_layer_chain 2 [8; 4] 3 "gelu") as [H' _].
  split.
  - destruct H as [act [Hact [_ E]]]; [simpl; tauto|].
    injection Hact as <-. exact E.
  - apply H'. simpl. intros F.
    repeat (destruct F as [F|F]; [discriminate|]). exact F.
Defined.

Lemma decoder_effective_map_witness :
  EffectiveMap.ur_shape
    [FFNN.Linear 3 8 false; FFNN.Linear 8 4 false; FFNN.Linear 4 2 false]
  = Ok (2, 3)
  /\ EffectiveMap.ur_shape
       [FFNN.Linear 3 8 true; FFNN.Tanh; FFNN.Linear 8 2 false]
     = Raise AttributeError.
Proof.
  split.
  - destruct (@decoder_effective_map 3 [8; 4] 2 "linear" _ eq_refl) as [H _].
    apply H. left. reflexivity.
  - destruct (@decoder_effective_map 3 [8] 2 "tanh" _ eq_refl) as [_ H].
    apply H; discriminate.
Defined.

(* ------------------------------------------------------------------ *)
(** ** NNDMD.predict *)

Section Predict_more.

Import Tensor Predict.

Variable _encoder : vec -> vec.
Variable _decoder : vec -> vec.
Variable _koopman_propagator : vec -> vec.
Variable normalize : bool.
Variable mean std : vec.

(** X24: [predict(x, n)] with [n >= 1] works row by row: each state is
    normalized when [normalize] is set, encoded, propagated [n] times,
    decoded and mapped back; a 1-D array is one row; [n = 0] raises
    [RuntimeError]; an array with more than two axes and a tensor
    without exactly two raise [ValueError].  When [normalize] is set,
    the rows and the decoder's output have the width of the
    statistics. *)
Theorem predict_rowwise (x : mat) (v : vec) (n : nat) :
  (normalize = true ->
     length mean = length std
     /\ Forall (fun row => length row = length std) x
     /\ length v = length std
     /\ forall u, length (_decoder u) = length std) ->
  let step := fun row =>
    if normalize
    then Normalize.inverse1 mean std
           (_decoder (Nat.iter (S n) _koopman_propagator
                        (_encoder (Normalize.normalize1 mean std row))))
    else _decoder (Nat.iter (S n) _koopman_propagator (_encoder row)) in
  let predict :=
    predict _encoder _decoder _koopman_propagator normalize mean std in
  predict (NDArray2 x) (S n) = Ok (map step x)
  /\ predict (Tensor2 x) (S n) = Ok (map step x)
  /\ predict (NDArray1 v) (S n) = Ok [step v]
  /\ predict (NDArray2 x) 0 = Raise RuntimeError
  /\ predict (NDArray1 v) 0 = Raise RuntimeError
  /\ predict NDArrayHigher n = Raise ValueError
  /\ predict TensorOther n = Raise ValueError.
Proof.
  intros _ step predict0.
  assert (H2 : forall m : mat,
             (y <- (if normalize
                    then y <- Inference.forward _encoder _decoder
                                _koopman_propagator
                                (Normalize.normalize2 mean std m) (S n) ;;
                         Ok (Normalize.inverse2 mean std y)
                    else Inference.forward _encoder _decoder
                           _koopman_propagator m (S n)) ;;
              Ok y)
             = Ok (map step m)).
  { intros m. unfold step. destruct normalize.
    - rewrite forward_succ. cbn [bind].
      unfold Normalize.inverse2, Normalize.normalize2.
      rewrite !map_map. reflexivity.
    - rewrite forward_succ. reflexivity. }
  assert (H2' : forall m : mat,
             (if normalize
              then y <- Inference.forward _encoder _decoder
                          _koopman_propagator
                          (Normalize.normalize2 mean std m) (S n) ;;
                   Ok (Normalize.inverse2 mean std y)
              else Inference.forward _encoder _decoder
                     _koopman_propagator m (S n))
             = Ok (map step m)).
  { intros m. rewrite <- (H2 m).
    destruct normalize;
      [destruct (Inference.forward _ _ _ _ _)|
       destruct (Inference.forward _ _ _ _ _)]; reflexivity. }
  unfold predict0, predict. cbn [_convert_input_ndarray_to_tensor bind].
  repeat split; try apply H2'.
  - destruct normalize; reflexivity.
  - destruct normalize; reflexivity.
Qed.

End Predict_more.

Lemma predict_rowwise_witness :
  Predict.predict (fun v => v ++ v) (fun v => [Tensor.sum v])
    (map (Qmult 3)) true [0]%Q [2]%Q (Predict.NDArray2 [[4]; [6]]%Q) 2
  = Ok (map (fun row =>
              Normalize.inverse1 [0]%Q [2]%Q
                [Tensor.sum
                   (Nat.iter 2 (map (Qmult 3))
                      (Normalize.normalize1 [0]%Q [2]%Q row
                       ++ Normalize.normalize1 [0]%Q [2]%Q row))])
            [[4]; [6]]%Q).
Proof.
  destruct (@predict_rowwise (fun v => v ++ v) (fun v => [Tensor.sum v])
              (map (Qmult 3)) true [0]%Q [2]%Q [[4]; [6]]%Q [4]%Q 1)
    as [H _].
  - intros _. split; [reflexivity|]. split; [repeat constructor|].
    split; [reflexivity|]. intros u. reflexivity.
  - exact H.
Defined.

(* ------------------------------------------------------------------ *)
(** ** The properties of a fitted NNDMD *)

Section Fitted_more.

Import NNDMD.

(** X25: After the assignments that end [fit], whatever the object held
    before, also the arrays of an earlier fit, the six properties return
    the arrays just stored, and [coef_] is [state_matrix_]. *)
Theorem properties_after_fit (o : object) (a v w u m : list (list Q)) :
  let o' := fit_store o a v w u m in
  state_matrix_ o' = Ok (Array a)
  /\ coef_ o' = state_matrix_ o'
  /\ eigenvalues_ o' = Ok (Array v)
  /\ eigenvectors_ o' = Ok (Array w)
  /\ ur o' = Ok (Array u)
  /\ unnormalized_modes o' = Ok (Array m).
Proof.
  destruct (fitted_properties o a v w u m) as [H1 [H2 H3]].
  cbv zeta. rewrite H2, H1. repeat split; apply H3.
Qed.

End Fitted_more.

(* ------------------------------------------------------------------ *)
(** ** DLKoopmanRegressor: the training loss reads the first position *)

Section Training_first_position.

Import Tensor MaskedMSELoss DLKoopmanRegressor.
Local Open Scope Q_scope.

Variable _encoder : vec -> vec.
Variable _decoder : vec -> vec.
Variable _koopman_propagator : vec -> vec.

(** The width of the encoder's output depends only on the width of its
    input. *)
Hypothesis encoder_shape :
  forall v w, same_width v w -> same_width (_encoder v) (_encoder w).

Lemma get_col_nth (y : tensor3) (k : nat) :
  Forall (fun s => (k < length s)%nat) y ->
  get_col y k = Ok (map (fun s => nth k s []) y).
Proof.
  induction 1 as [|s y Hs _ IH]; [reflexivity|].
  cbn [get_col map]. unfold getitem.
  rewrite (nth_error_nth' s [] Hs). cbn [bind]. rewrite IH. reflexivity.
Qed.

Lemma set_col_cells {A : Type} (P Q : A -> mat) (r V : A -> vec) (k : nat)
    (l : list A) :
  Forall (fun a => length (P a) = k /\ length (r a) = length (V a)) l ->
  set_col (map (fun a => P a ++ r a :: Q a) l) k (map V l)
  = Ok (map (fun a => P a ++ V a :: Q a) l).
Proof.
  induction 1 as [|a l [HP Hr] _ IH]; [reflexivity|].
  cbn [map set_col]. rewrite IH. rewrite <- HP.
  rewrite (set_row_app (P a) (Q a) (r a) (V a) Hr). reflexivity.
Qed.

Lemma firstn_succ_nth (s : mat) (k : nat) :
  (k < length s)%nat -> firstn (S k) s = firstn k s ++ [nth k s []].
Proof.
  revert k. induction s as [|r s IH]; intros k Hk; [simpl in Hk; lia|].
  destruct k as [|k]; [reflexivity|].
  cbn [firstn nth app]. rewrite <- IH by (simpl in Hk; lia). reflexivity.
Qed.

(** The tensor [decoded_y_seq_rec] after its first [k] columns were
    written. *)
Lemma rec_fold (y : tensor3) (b H f m k : nat) :
  shape3 b H f y ->
  (forall v, length (_decoder v) = f) ->
  (k + m <= H)%nat ->
  fold_left (rec_step _encoder _decoder y) (seq k m)
    (Ok (map (fun s => map (fun r => _decoder (_encoder r)) (firstn k s)
                       ++ repeat (zeros1 f) (H - k)) y))
  = Ok (map (fun s => map (fun r => _decoder (_encoder r)) (firstn (k + m) s)
                      ++ repeat (zeros1 f) (H - (k + m))) y).
Proof.
  intros [_ Hy] Hw. revert k. induction m as [|m IH]; intros k Hk.
  - rewrite Nat.add_0_r. reflexivity.
  - cbn [seq fold_left]. unfold rec_step at 2. cbn [bind].
    rewrite get_col_nth.
    2:{ eapply Forall_impl; [|exact Hy]. intros s [Hs _]. simpl. lia. }
    cbn [bind]. rewrite map_map.
    assert (E1 : map (fun s => map (fun r => _decoder (_encoder r))
                                   (firstn k s)
                               ++ repeat (zeros1 f) (H - k)) y
                 = map (fun s => map (fun r => _decoder (_encoder r))
                                     (firstn k s)
                                 ++ zeros1 f :: repeat (zeros1 f) (H - S k))
                       y).
    { apply map_ext. intros s.
      replace (H - k)%nat with (S (H - S k)) by lia. reflexivity. }
    rewrite E1.
    rewrite (set_col_cells
               (fun s => map (fun r => _decoder (_encoder r)) (firstn k s))
               (fun _ => repeat (zeros1 f) (H - S k))
               (fun _ => zeros1 f)
               (fun s => _decoder (_encoder (nth k s [])))).
    2:{ eapply Forall_impl; [|exact Hy]. intros s [Hs _]. simpl. split.
        - rewrite length_map, length_firstn. lia.
        - unfold zeros1. rewrite repeat_length, Hw. reflexivity. }
    assert (E2 : map (fun s => map (fun r => _decoder (_encoder r))
                                   (firstn k s)
                               ++ _decoder (_encoder (nth k s []))
                                  :: repeat (zeros1 f) (H - S k)) y
                 = map (fun s => map (fun r => _decoder (_encoder r))
                                     (firstn (S k) s)
                                 ++ repeat (zeros1 f) (H - S k)) y).
    { apply map_ext_in. intros s Hs.
      rewrite Forall_forall in Hy. destruct (Hy s Hs) as [Hl _].
      rewrite firstn_succ_nth by lia.
      rewrite map_app, <- app_assoc. reflexivity. }
    rewrite E2, IH by lia.
    replace (S k + m)%nat with (k + S m)%nat by lia. reflexivity.
Qed.

Lemma zeros3_as_rec_prefix (g : vec -> vec) (y : tensor3) (b H f : nat) :
  length y = b ->
  zeros3 b H f
  = map (fun s => map g (firstn 0 s) ++ repeat (zeros1 f) (H - 0)) y.
Proof.
  intros <-. unfold zeros3, zeros2. rewrite Nat.sub_0_r. cbn [firstn map app].
  induction y as [|s y IH]; [reflexivity|]. cbn [length repeat map].
  rewrite IH. reflexivity.
Qed.

(** With cap 1 and every valid length at least 1, the masked loss is the
    mean squared error of the first positions. *)
Lemma forward_cap1_position0 (output target : tensor3) (lens : list nat) :
  length lens = length output ->
  length lens = length target ->
  Forall (fun len => 1 <= len)%nat lens ->
  result_eq (forward (MaskedMSELoss.init 1) output target lens)
            (Ok (mse_loss3 (position0 output) (position0 target))).
Proof.
  intros Ho Ht Hall.
  eapply result_eq_trans; [apply forward_as_mse; exact Ho|].
  cbv zeta. rewrite (prefixes_cap1_all output Ho Hall).
  rewrite (prefixes_cap1_all target Ht Hall). apply result_eq_refl.
Qed.

Lemma list_max_in_range (ys : list nat) (L : nat) :
  ys <> [] ->
  Forall (fun len => 1 <= len <= L)%nat ys ->
  (1 <= list_max ys <= L)%nat.
Proof.
  intros Hne Hall. split.
  - destruct ys as [|a ys]; [congruence|].
    inversion Hall as [|? ? Ha _]; subst. simpl. lia.
  - apply list_max_le. eapply Forall_impl; [|exact Hall]. simpl. lia.
Qed.

(** C10: whatever [look_forward] is, the regressor's loss metric is
    built with cap 1, so on tensors of one shape the masked loss reads
    predictions and targets at the first forecast position only.  On a
    batch of states of width [input_size] with future sequences of shape
    (batch, look_forward, input_size) and valid lengths between 1 and
    [look_forward], one training step logs: as prediction loss the mean
    squared error between the one-step prediction and the first future
    state; as reconstruction loss that of the current states plus that
    of the first future states; and their sum as total.  The later
    forecast positions enter nowhere: two such batches that agree at the
    first position log the same three losses, whatever the valid
    lengths are. *)
Theorem C10_training_loss_first_position (mode : option string)
    (look_forward : nat) (config_encoder config_decoder : config)
    (lbfgs : bool) :
  let self :=
    DLKoopmanRegressor.init mode look_forward config_encoder config_decoder
                            lbfgs in
  let f := input_size self in
  (forall v, length (_decoder v) = f) ->
  max_look_forward (masked_loss_metric self) = 1%nat
  /\ (forall (b h h' f0 : nat) (output output' target target' : tensor3)
             (lens : list nat),
        shape3 b h f0 output -> shape3 b h f0 target ->
        shape3 b h' f0 output' -> shape3 b h' f0 target' ->
        length lens = b ->
        position0 output = position0 output' ->
        position0 target = position0 target' ->
        result_eq (forward (masked_loss_metric self) output target lens)
                  (forward (masked_loss_metric self) output' target' lens))
  /\ (forall (x : mat) (y : tensor3) (ys : list nat),
        x <> [] ->
        shape2 (length x) f x ->
        shape3 (length x) look_forward f y ->
        length ys = length x ->
        Forall (fun len => 1 <= len <= look_forward)%nat ys ->
        rel_result losses_eq
          (training_step _encoder _decoder _koopman_propagator self x y ys)
          (Ok (let rnn :=
                 mse_loss3
                   (map (fun v => [_decoder (_koopman_propagator (_encoder v))])
                        x)
                   (position0 y) in
               let recon :=
                 add (mse_loss2 (map _decoder (map _encoder x)) x)
                     (mse_loss3
                        (position0
                           (map (map (fun r => _decoder (_encoder r))) y))
                        (position0 y)) in
               {| loss := add rnn recon;
                  rec_loss := recon;
                  rnn_loss := rnn |})))
  /\ (forall (x : mat) (y y' : tensor3) (ys : list nat),
        shape2 (length x) f x ->
        shape3 (length x) look_forward f y ->
        shape3 (length x) look_forward f y' ->
        length ys = length x ->
        agree0 y y' ->
        rel_result losses_eq
          (training_step _encoder _decoder _koopman_propagator self x y ys)
          (training_step _encoder _decoder _koopman_propagator self x y' ys)).
Proof.
  intros self f Hw. split; [reflexivity|]. split; [|split].
  - intros b h h' f0 output output' target target' lens Ho _ _ _ Hl Ho0 Ht0.
    apply forward_cap1_congr; [|exact Ho0|exact Ht0].
    destruct Ho as [Hb _]. len_lia.
  - intros x y ys Hx _ Hy Hlen Hall.
    assert (Hys : ys <> []).
    { intros E. subst ys. destruct x; [congruence|discriminate]. }
    destruct (list_max_in_range Hys Hall) as [Hn1 HnL].
    assert (Hall1 : Forall (fun len => 1 <= len)%nat ys).
    { eapply Forall_impl; [|exact Hall]. simpl. lia. }
    assert (Hly : length y = length x) by (destruct Hy as [Hb _]; exact Hb).
    unfold training_step.
    rewrite (lens_max_nonempty Hys). cbn [bind].
    destruct (list_max ys) as [|n] eqn:En; [lia|].
    rewrite stack1_propagate. cbn [bind].
    change (DLKoopmanRegressor.look_forward self) with look_forward.
    change (masked_loss_metric self) with (MaskedMSELoss.init 1).
    change (input_size self) with f.
    (* the prediction loop *)
    assert (H0n : (0 + S n <= look_forward)%nat) by lia.
    pose proof (@rnn_fold _encoder _decoder _koopman_propagator x
                  f look_forward (S n) (S n) 0 Hw H0n (le_n _)) as F.
    rewrite <- (zeros3_as_prefix
                  (fun i v => _decoder (Nat.iter (S i) _koopman_propagator
                                                 (_encoder v)))) in F.
    match goal with
    | |- context [fold_left (rnn_step _decoder ?p) ?l ?a] =>
        assert (Ernn : fold_left (rnn_step _decoder p) l a = _) by exact F;
        rewrite Ernn; clear Ernn F
    end.
    cbn [bind].
    match goal with
    | |- context [forward ?mm ?oo y ys] =>
        assert (Hrnn : result_eq (forward mm oo y ys)
                         (Ok (mse_loss3 (position0 oo) (position0 y))))
          by (apply forward_cap1_position0;
              [rewrite length_map; exact Hlen|len_lia|exact Hall1]);
        assert (Hp : position0 oo
                     = map (fun v => [_decoder (_koopman_propagator
                                                  (_encoder v))]) x)
          by (unfold position0; rewrite map_map; apply map_ext;
              intros v; reflexivity);
        rewrite Hp in Hrnn; clear Hp;
        destruct (forward mm oo y ys) as [l1|e1];
        [|contradiction Hrnn]
    end.
    cbn [bind]. cbn [rel_result result_eq] in Hrnn.
    (* the reconstruction loop *)
    pose proof (@rec_fold y (length x) look_forward f (S n) 0 Hy Hw H0n) as G.
    rewrite <- (zeros3_as_rec_prefix (fun r => _decoder (_encoder r)) y
                  look_forward f Hly) in G.
    match goal with
    | |- context [fold_left (rec_step _encoder _decoder y) ?l ?a] =>
        assert (Erec : fold_left (rec_step _encoder _decoder y) l a = _)
          by exact G;
        rewrite Erec; clear Erec G
    end.
    cbn [bind].
    match goal with
    | |- context [forward ?mm ?oo y ys] =>
        assert (Hrec : result_eq (forward mm oo y ys)
                         (Ok (mse_loss3 (position0 oo) (position0 y))))
          by (apply forward_cap1_position0;
              [rewrite length_map; len_lia|len_lia|exact Hall1]);
        assert (Hp : position0 oo
                     = position0
                         (map (map (fun r => _decoder (_encoder r))) y))
          by (unfold position0; rewrite !map_map; apply map_ext_in;
              intros s Hs; destruct Hy as [_ Hy];
              rewrite Forall_forall in Hy; destruct (Hy s Hs) as [Hl _];
              destruct s as [|r s]; [simpl in Hl; lia|reflexivity]);
        rewrite Hp in Hrec; clear Hp;
        destruct (forward mm oo y ys) as [l2|e2];
        [|contradiction Hrec]
    end.
    cbn [bind rel_result]. cbn [rel_result result_eq] in Hrec.
    unfold losses_eq. cbn [loss rec_loss rnn_loss].
    assert (Hr : lossval_eq
                   (add (mse_loss2 (map _decoder (map _encoder x)) x) l2)
                   (add (mse_loss2 (map _decoder (map _encoder x)) x)
                        (mse_loss3
                           (position0
                              (map (map (fun r => _decoder (_encoder r))) y))
                           (position0 y))))
      by (apply add_eq; [apply lossval_eq_refl|exact Hrec]).
    split; [apply add_eq; assumption|]. split; assumption.
  - intros x y y' ys _ _ _ Hlen Hy.
    assert (decoder_shape :
              forall v w, same_width v w
                          -> same_width (_decoder v) (_decoder w)).
    { intros v w _. unfold same_width. rewrite !Hw. reflexivity. }
    destruct (agree0_position0 Hy) as [Hy0 _].
    unfold training_step.
    destruct (lens_max ys) as [n|e]; simpl; [|exact eq_refl].
    destruct (stack1 _) as [phi_seq|e]; simpl; [|exact eq_refl].
    change (DLKoopmanRegressor.look_forward self) with look_forward.
    change (masked_loss_metric self) with (MaskedMSELoss.init 1).
    set (d0 := zeros3 (length x) look_forward (cfg_input_size config_encoder)).
    destruct (fold_left (rnn_step _decoder phi_seq) (seq 0 n) (Ok d0))
      as [drnn|e] eqn:Ernn; simpl; [|exact eq_refl].
    assert (Hrnn_len : length ys = length drnn).
    { destruct (@column_loop_length (rnn_step _decoder phi_seq) (seq 0 n)
                  (@rnn_step_length _decoder phi_seq) (Ok d0) drnn Ernn)
        as [d1 [E1 Hl]].
      inversion E1; subst d1. subst d0. rewrite zeros3_length in Hl.
      len_lia. }
    pose proof (@forward_cap1_congr drnn drnn y y' ys Hrnn_len eq_refl Hy0)
      as Hrnn.
    destruct (forward (MaskedMSELoss.init 1) drnn y ys) as [lrnn|e];
      destruct (forward (MaskedMSELoss.init 1) drnn y' ys) as [lrnn'|e'];
      simpl in Hrnn |- *; try contradiction; [|exact Hrnn].
    pose proof (@rec_loop_rel _encoder _decoder encoder_shape decoder_shape
                  y y' (seq 0 n) (Ok d0) (Ok d0) Hy (agree0_refl d0))
      as Hrec.
    destruct (fold_left (rec_step _encoder _decoder y) (seq 0 n) (Ok d0))
      as [drec|e] eqn:Erec;
      destruct (fold_left (rec_step _encoder _decoder y') (seq 0 n) (Ok d0))
        as [drec'|e'] eqn:Erec';
      simpl in Hrec |- *; try contradiction; [|exact Hrec].
    assert (Hrec_len : length ys = length drec).
    { destruct (@column_loop_length (rec_step _encoder _decoder y) (seq 0 n)
                  (@rec_step_length _encoder _decoder y) (Ok d0) drec Erec)
        as [d1 [E1 Hl]].
      inversion E1; subst d1. subst d0. rewrite zeros3_length in Hl.
      len_lia. }
    destruct (agree0_position0 Hrec) as [Hd0 _].
    pose proof (@forward_cap1_congr drec drec' y y' ys Hrec_len Hd0 Hy0)
      as Hmrec.
    destruct (forward (MaskedMSELoss.init 1) drec y ys) as [lrec|e];
      destruct (forward (MaskedMSELoss.init 1) drec' y' ys) as [lrec'|e'];
      simpl in Hmrec |- *; try contradiction; [|exact Hmrec].
    unfold losses_eq. simpl.
    assert (Hr : lossval_eq
                   (add (mse_loss2 (map _decoder (map _encoder x)) x) lrec)
                   (add (mse_loss2 (map _decoder (map _encoder x)) x) lrec'))
      by (apply add_eq; [apply lossval_eq_refl|exact Hmrec]).
    split; [apply add_eq; assumption|]. split; assumption.
Qed.

End Training_first_position.

Lemma C10_training_loss_first_position_witness :
  let cfg := DLKoopmanRegressor.Build_config 1 [] 2 "tanh" in
  let self := DLKoopmanRegressor.init None 2 cfg cfg false in
  Tensor.rel_result DLKoopmanRegressor.losses_eq
    (DLKoopmanRegressor.training_step
       (fun v => v ++ v) (fun v => [Tensor.sum v]) (map (Qmult 2)) self
       [[1]]%Q [[[2]; [3]]]%Q [2])
    (Ok {| DLKoopmanRegressor.loss := Tensor.Finite 9;
           DLKoopmanRegressor.rec_loss := Tensor.Finite 5;
           DLKoopmanRegressor.rnn_loss := Tensor.Finite 4 |}).
Proof.
  intros cfg self.
  destruct (@C10_training_loss_first_position
              (fun v => v ++ v) (fun v => [Tensor.sum v]) (map (Qmult 2))
              (fun v w H =>
                 eq_trans (length_app v v)
                   (eq_trans (f_equal2 Nat.add H H)
                             (eq_sym (length_app w w))))
              None 2 cfg cfg false (fun v => eq_refl))
    as [_ [_ [H _]]].
  apply (H [[1]]%Q [[[2]; [3]]]%Q [2]).
  - discriminate.
  - repeat constructor.
  - repeat constructor.
  - reflexivity.
  - repeat constructor.
Defined.
